(** * Tents-and-Trees puzzle encoder (demo.py): loader, constraint encoder, driver

    A shallow embedding of [parse_puzzle], [build_solver] and the verdict
    handling of [solve_and_display].

    Conventions
    - Python [int] is [Z]; [len] returns a [Z]; [range n] is a list of [Z].
    - Text is ASCII: a [string] of [ascii] characters.
    - A raised exception is the [Raise] branch of [result].
    - The z3 solver is the external boundary: its expressions are the
      constructors of [expr], the solver object is the list of asserted
      expressions, and a model is a valuation of the named constants that
      makes every asserted expression true.  The bound of a cardinality
      constraint is a 32-bit parameter of the bindings ([c_uint],
      [bound_ok]). *)

From Stdlib Require Import ZArith List String Ascii Bool Lia Permutation.
From Stdlib Require Import DecimalString DecimalZ.
Import ListNotations.
Open Scope Z_scope.

Set Implicit Arguments.
Set Warnings "-register-all".

(* ===================================================================== *)
(** ** Exceptions and the error monad                                      *)
(* ===================================================================== *)

Inductive exn : Type :=
| ValueError      (* bad input line, or int() on a non-integer token *)
| IndexError      (* list index out of range *)
| Z3Exception.    (* raised by the z3 bindings *)

Inductive result (A : Type) : Type :=
| Ok (a : A)
| Raise (e : exn).

Arguments Ok {A} a.
Arguments Raise {A} e.

Definition rbind {A B} (r : result A) (k : A -> result B) : result B :=
  match r with
  | Ok a => k a
  | Raise e => Raise e
  end.

Declare Scope result_scope.
Delimit Scope result_scope with result.
Notation "x <- r ; k" := (rbind r (fun x => k))
  (at level 61, r at next level, right associativity) : result_scope.
Notation "' pat <- r ; k" := (rbind r (fun x => match x with pat => k end))
  (at level 61, pat pattern, r at next level, right associativity) : result_scope.
Open Scope result_scope.

(** [[f(x) for x in xs]] where [f] may raise: left to right, first
    exception wins. *)
Fixpoint mapM {A B} (f : A -> result B) (xs : list A) : result (list B) :=
  match xs with
  | [] => Ok []
  | x :: xs' =>
      y <- f x;
      ys <- mapM f xs';
      Ok (y :: ys)
  end.

(** A comprehension or loop whose body contributes zero or more items. *)
Fixpoint flat_mapM {A B} (f : A -> result (list B)) (xs : list A)
  : result (list B) :=
  match xs with
  | [] => Ok []
  | x :: xs' =>
      ys <- f x;
      zs <- flat_mapM f xs';
      Ok (ys ++ zs)
  end.

(* ===================================================================== *)
(** ** Python built-ins used by the script                                 *)
(* ===================================================================== *)

Definition len {A} (l : list A) : Z := Z.of_nat (List.length l).

(** [range(n)]: 0, 1, ..., n-1; empty when [n <= 0]. *)
Definition range (n : Z) : list Z := map Z.of_nat (seq 0 (Z.to_nat n)).

(** [l[i]]: a negative index counts from the end; outside [-len, len)
    raises IndexError. *)
Definition getitem {A} (l : list A) (i : Z) : result A :=
  let i' := if i <? 0 then i + len l else i in
  if (0 <=? i') && (i' <? len l) then
    match nth_error l (Z.to_nat i') with
    | Some a => Ok a
    | None => Raise IndexError
    end
  else Raise IndexError.

(** Indexing that admits only [0 <= i < len l]; used to state that an
    access never relies on wrap-around of negative indices. *)
Definition getitem_strict {A} (l : list A) (i : Z) : result A :=
  if (0 <=? i) && (i <? len l) then
    match nth_error l (Z.to_nat i) with
    | Some a => Ok a
    | None => Raise IndexError
    end
  else Raise IndexError.

(** [l[lo:hi]] with Python's clamping of the bounds. *)
Definition slice {A} (l : list A) (lo hi : Z) : list A :=
  let norm x := if x <? 0 then Z.max 0 (x + len l) else Z.min x (len l) in
  let lo' := norm lo in
  let hi' := norm hi in
  firstn (Z.to_nat (hi' - lo')) (skipn (Z.to_nat lo') l).

(** *** Strings *)

Definition code (c : ascii) : nat := nat_of_ascii c.

(** [str.isspace] on ASCII: TAB LF VT FF CR, FS GS RS US, space. *)
Definition isspace (c : ascii) : bool :=
  let n := code c in
  (((9 <=? n) && (n <=? 13)) || ((28 <=? n) && (n <=? 31)) || (n =? 32))%nat.

(** Line boundaries of [str.splitlines] on ASCII:
    LF VT FF CR FS GS RS (and CR LF as one). *)
Definition is_linebreak (c : ascii) : bool :=
  let n := code c in
  (((10 <=? n) && (n <=? 13)) || ((28 <=? n) && (n <=? 30)))%nat.

Definition snoc_char (s : string) (c : ascii) : string :=
  (s ++ String c EmptyString)%string.

Definition is_empty (s : string) : bool :=
  match s with EmptyString => true | _ => false end.

Fixpoint splitlines_from (s cur : string) : list string :=
  match s with
  | EmptyString => if is_empty cur then [] else [cur]
  | String c rest =>
      if is_linebreak c then
        cur :: match rest with
               | String c' rest' =>
                   if ((code c =? 13) && (code c' =? 10))%nat
                   then splitlines_from rest' EmptyString
                   else splitlines_from rest EmptyString
               | EmptyString => splitlines_from rest EmptyString
               end
      else splitlines_from rest (snoc_char cur c)
  end.

Definition splitlines (s : string) : list string :=
  splitlines_from s EmptyString.

Fixpoint lstrip (s : string) : string :=
  match s with
  | EmptyString => EmptyString
  | String c rest => if isspace c then lstrip rest else s
  end.

Fixpoint rstrip (s : string) : string :=
  match s with
  | EmptyString => EmptyString
  | String c rest =>
      let rest' := rstrip rest in
      if isspace c && is_empty rest' then EmptyString else String c rest'
  end.

Definition strip (s : string) : string := rstrip (lstrip s).

(** [re.split(r'\s+', line)]: cut at every maximal run of whitespace; a
    run at either end leaves an empty piece there. *)
Fixpoint re_split_ws_from (s cur : string) (in_ws : bool) : list string :=
  match s with
  | EmptyString => [cur]
  | String c rest =>
      if isspace c then
        if in_ws then re_split_ws_from rest cur true
        else cur :: re_split_ws_from rest EmptyString true
      else re_split_ws_from rest (snoc_char cur c) false
  end.

Definition re_split_ws (line : string) : list string :=
  re_split_ws_from line EmptyString false.

(** *** [int(token)], base 10

    Grammar after stripping whitespace: an optional sign, then digits in
    which single underscores may separate digits.  The interpreter's cap
    on the number of digits of a literal, a run-time setting, is left
    out. *)

Definition digit_val (c : ascii) : option Z :=
  let n := code c in
  if ((48 <=? n) && (n <=? 57))%nat then Some (Z.of_nat n - 48) else None.

Fixpoint int_digits (s : string) (acc : Z) (need_digit : bool) : option Z :=
  match s with
  | EmptyString => if need_digit then None else Some acc
  | String c rest =>
      match digit_val c with
      | Some d => int_digits rest (10 * acc + d) false
      | None =>
          if ((code c =? 95)%nat && negb need_digit)
          then int_digits rest acc true
          else None
      end
  end.

Definition int_literal (s : string) : option Z :=
  match strip s with
  | String c rest =>
      if (code c =? 45)%nat then option_map Z.opp (int_digits rest 0 true)
      else if (code c =? 43)%nat then int_digits rest 0 true
      else int_digits (String c rest) 0 true
  | EmptyString => None
  end.

Definition py_int (s : string) : result Z :=
  match int_literal s with
  | Some n => Ok n
  | None => Raise ValueError
  end.

(** [str(n)] for an integer: decimal digits, a leading minus sign when
    negative. *)
Definition py_str (n : Z) : string := NilZero.string_of_int (Z.to_int n).

(* ===================================================================== *)
(** ** Puzzle loader: [parse_puzzle]                                       *)
(* ===================================================================== *)

(** The text of the file, cut into stripped non-blank lines and then into
    whitespace-separated tokens.  Reading in text mode turns CR LF and CR
    into LF; as blank lines are dropped, [splitlines] on the raw text
    gives the same lines. *)
Definition read_lines (text : string) : list string :=
  map strip (filter (fun line => negb (is_empty (strip line))) (splitlines text)).

Definition tokenize (text : string) : list (list string) :=
  map re_split_ws (read_lines text).

Record puzzle : Type := Puzzle {
  nrows : Z;
  ncols : Z;
  row_targets : list Z;
  col_targets : list Z;
  board : list (list string);
  tree_positions : list (Z * Z)   (* the set, in enumeration order *)
}.

(** The loop over [tokens[1:]]; the two accumulators are [row_targets]
    and [board]. *)
Fixpoint rows_loop (ncols : Z) (rows : list (list string))
    (row_targets : list Z) (board : list (list string))
  : result (list Z * list (list string)) :=
  match rows with
  | [] => Ok (row_targets, board)
  | row :: rest =>
      if len row <? ncols + 1 then Raise ValueError
      else
        t <- getitem row 0;
        n <- py_int t;
        rows_loop ncols rest (row_targets ++ [n]) (board ++ [slice row 1 (1 + ncols)])
  end.

Definition tree_marker : string := "T".

(** The set comprehension over [board]; items come out in row-major
    order and are pairwise distinct. *)
Definition collect_trees (nrows ncols : Z) (board : list (list string))
  : result (list (Z * Z)) :=
  flat_mapM (fun i =>
    flat_mapM (fun j =>
      r <- getitem board i;
      c <- getitem r j;
      Ok (if String.eqb c tree_marker then [(i + 1, j + 1)] else []))
      (range ncols))
    (range nrows).

Definition parse_tokens (tokens : list (list string)) : result puzzle :=
  header <- getitem tokens 0;
  col_targets <- mapM py_int header;
  let ncols := len col_targets in
  '(row_targets, board) <- rows_loop ncols (slice tokens 1 (len tokens)) [] [];
  let nrows := len board in
  tree_positions <- collect_trees nrows ncols board;
  Ok (Puzzle nrows ncols row_targets col_targets board tree_positions).

Definition parse_puzzle (text : string) : result puzzle :=
  parse_tokens (tokenize text).

(* ===================================================================== *)
(** ** Solver boundary (z3)                                                *)
(* ===================================================================== *)

(** Boolean expressions the script builds.  [Bool name] is the constant
    declared under that name: z3 identifies constants by name. *)
Inductive expr : Type :=
| Bool (name : string)
| BoolVal (b : bool)
| Not (a : expr)
| Or (args : list expr)
| Implies (a b : expr)
| Eq (a b : expr)
| AtMostE (args : list expr) (k : Z)
| AtLeastE (args : list expr) (k : Z).

(** The bound [k], last argument of [AtMost] and [AtLeast], reaches z3
    through a C [unsigned] parameter: of the Python integer, whatever its
    sign and size, the bindings keep the low 32 bits. *)
Definition c_uint (k : Z) : Z := k mod 2 ^ 32.

(** z3 reads the parameter back as a signed 32-bit integer and refuses a
    negative one: the bound is accepted when its low 32 bits are below
    2^31.  So 0 .. 2^31 - 1 are accepted as they are, -1 and 2^31 are
    refused, and 2^32 is accepted as 0. *)
Definition bound_ok (k : Z) : bool := c_uint k <? 2 ^ 31.

Arguments c_uint : simpl never.
Arguments bound_ok : simpl never.

(** [AtMost] and [AtLeast] take the unpacked expressions followed by the
    bound [k].  The bindings first reject a call that carries the bound
    alone, with no expression before it; z3 then rejects a bound it
    refuses; both raise Z3Exception.  The expression built holds the bound
    as z3 received it. *)
Definition AtMost (args : list expr) (k : Z) : result expr :=
  match args with
  | [] => Raise Z3Exception
  | _ => if bound_ok k then Ok (AtMostE args (c_uint k)) else Raise Z3Exception
  end.

Definition AtLeast (args : list expr) (k : Z) : result expr :=
  match args with
  | [] => Raise Z3Exception
  | _ => if bound_ok k then Ok (AtLeastE args (c_uint k)) else Raise Z3Exception
  end.

(** A model gives every named constant a truth value.  [AtMostE args k]
    holds when at most [k] of [args] are true, [AtLeastE args k] when at
    least [k] are. *)
Definition model : Type := string -> bool.

Definition count_true (f : expr -> bool) (args : list expr) : Z :=
  len (filter f args).

Fixpoint eval (m : model) (e : expr) : bool :=
  match e with
  | Bool x => m x
  | BoolVal b => b
  | Not a => negb (eval m a)
  | Or args => existsb (eval m) args
  | Implies a b => implb (eval m a) (eval m b)
  | Eq a b => Bool.eqb (eval m a) (eval m b)
  | AtMostE args k => count_true (eval m) args <=? k
  | AtLeastE args k => k <=? count_true (eval m) args
  end.

(** The solver object: the assertions added so far, oldest first. *)
Definition Solver : Type := list expr.

(** [m] is a model of the solver's assertions. *)
Definition satisfies (m : model) (s : Solver) : Prop :=
  Forall (fun e => eval m e = true) s.

Definition satisfiesb (m : model) (s : Solver) : bool :=
  forallb (eval m) s.

Inductive verdict : Type := sat | unsat | unknown.

(** *** Code that adds assertions: state passing over the solver *)

Definition M (A : Type) : Type := Solver -> result (A * Solver).

Definition ret {A} (a : A) : M A := fun s => Ok (a, s).

Definition bind {A B} (m : M A) (k : A -> M B) : M B :=
  fun s =>
    match m s with
    | Ok (a, s') => k a s'
    | Raise e => Raise e
    end.

Definition lift {A} (r : result A) : M A :=
  fun s =>
    match r with
    | Ok a => Ok (a, s)
    | Raise e => Raise e
    end.

(** [s.add(e)] *)
Definition s_add (e : expr) : M unit := fun s => Ok (tt, s ++ [e]).

Declare Scope solver_scope.
Delimit Scope solver_scope with solver.
Notation "x <- m ;; k" := (bind m (fun x => k))
  (at level 61, m at next level, right associativity) : solver_scope.
Notation "m ;; k" := (bind m (fun _ => k))
  (at level 61, right associativity) : solver_scope.

(** [for x in xs: body] *)
Fixpoint for_ {A} (xs : list A) (body : A -> M unit) : M unit :=
  match xs with
  | [] => ret tt
  | x :: xs' => bind (body x) (fun _ => for_ xs' body)
  end.

(* ===================================================================== *)
(** ** Constraint encoder: [build_solver]                                  *)
(* ===================================================================== *)

Definition matrix : Type := list (list expr).

(** The name ["p_{i+1}_{j+1}"] of the constant of cell (i, j). *)
Definition var_name (i j : Z) : string :=
  ("p_" ++ py_str (i + 1) ++ "_" ++ py_str (j + 1))%string.

Definition declare_vars (nrows ncols : Z) : matrix :=
  map (fun i => map (fun j => Bool (var_name i j)) (range ncols)) (range nrows).

Definition in_grid (nrows ncols ni nj : Z) : bool :=
  (0 <=? ni) && (ni <? nrows) && (0 <=? nj) && (nj <? ncols).

(** The generator of the up-to-8 surrounding cells. *)
Definition all_neighbors (nrows ncols i j : Z) : list (Z * Z) :=
  flat_map (fun di =>
    flat_map (fun dj =>
      if (di =? 0) && (dj =? 0) then []
      else
        let ni := i + di in
        let nj := j + dj in
        if in_grid nrows ncols ni nj then [(ni, nj)] else [])
      [-1; 0; 1])
    [-1; 0; 1].

(** The generator of the up-to-4 cells sharing an edge. *)
Definition orth_neighbors (nrows ncols i j : Z) : list (Z * Z) :=
  flat_map (fun '(di, dj) =>
      let ni := i + di in
      let nj := j + dj in
      if in_grid nrows ncols ni nj then [(ni, nj)] else [])
    [(-1, 0); (1, 0); (0, -1); (0, 1)].

(** [(a, b) in tree_positions] *)
Definition mem (x : Z * Z) (tree_positions : list (Z * Z)) : bool :=
  existsb (fun y => (fst x =? fst y) && (snd x =? snd y)) tree_positions.

Section Encoder.

(** The list subscript in use: Python's [getitem], or [getitem_strict]
    to observe whether any subscript leaves [0, len). *)
Variable index : forall A : Type, list A -> Z -> result A.

(** [p[i][j]] *)
Definition cell (p : matrix) (i j : Z) : result expr :=
  r <- index p i;
  index r j.

Open Scope solver_scope.

Definition build_solver_with (nrows ncols : Z)
    (row_targets col_targets : list Z) (tree_positions : list (Z * Z))
  : M matrix :=
  let p := declare_vars nrows ncols in
  (* 1) no tent on a tree cell *)
  for_ tree_positions (fun '(ti, tj) =>
    v <- lift (cell p (ti - 1) (tj - 1)) ;;
    s_add (Eq v (BoolVal false))) ;;
  (* 2) row and column counts *)
  for_ (range nrows) (fun i =>
    xs <- lift (mapM (fun j => cell p i j) (range ncols)) ;;
    k <- lift (index row_targets i) ;;
    c <- lift (AtMost xs k) ;;
    s_add c ;;
    xs <- lift (mapM (fun j => cell p i j) (range ncols)) ;;
    k <- lift (index row_targets i) ;;
    c <- lift (AtLeast xs k) ;;
    s_add c) ;;
  for_ (range ncols) (fun j =>
    xs <- lift (mapM (fun i => cell p i j) (range nrows)) ;;
    k <- lift (index col_targets j) ;;
    c <- lift (AtMost xs k) ;;
    s_add c ;;
    xs <- lift (mapM (fun i => cell p i j) (range nrows)) ;;
    k <- lift (index col_targets j) ;;
    c <- lift (AtLeast xs k) ;;
    s_add c) ;;
  (* 3) no two tents on surrounding cells *)
  for_ (range nrows) (fun i =>
    for_ (range ncols) (fun j =>
      for_ (all_neighbors nrows ncols i j) (fun '(ni, nj) =>
        a <- lift (cell p i j) ;;
        b <- lift (cell p ni nj) ;;
        s_add (Or [Not a; Not b])))) ;;
  (* 4a) tent-to-tree pairing *)
  for_ (range nrows) (fun i =>
    for_ (range ncols) (fun j =>
      let tree_consts :=
        map (fun '(ni, nj) => BoolVal (mem (ni + 1, nj + 1) tree_positions))
            (orth_neighbors nrows ncols i j) in
      a <- lift (cell p i j) ;;
      s_add (Implies a (Or tree_consts)))) ;;
  (* 4b) tree-to-tent pairing *)
  for_ tree_positions (fun '(ti, tj) =>
    let i := ti - 1 in
    let j := tj - 1 in
    neigh_tents <- lift (mapM (fun '(ni, nj) => cell p ni nj)
                              (orth_neighbors nrows ncols i j)) ;;
    match neigh_tents with
    | [] => ret tt
    | _ => s_add (Or neigh_tents)
    end) ;;
  ret p.

End Encoder.

(** [build_solver]: starts from a fresh [Solver()] and returns [(s, p)]. *)
Definition build_solver (nrows ncols : Z) (row_targets col_targets : list Z)
    (tree_positions : list (Z * Z)) : result (Solver * matrix) :=
  match build_solver_with (@getitem) nrows ncols row_targets col_targets
          tree_positions [] with
  | Ok (p, s) => Ok (s, p)
  | Raise e => Raise e
  end.

(** The same run with every subscript checked against [0, len). *)
Definition build_solver_strict (nrows ncols : Z)
    (row_targets col_targets : list Z) (tree_positions : list (Z * Z))
  : result (Solver * matrix) :=
  match build_solver_with (@getitem_strict) nrows ncols row_targets
          col_targets tree_positions [] with
  | Ok (p, s) => Ok (s, p)
  | Raise e => Raise e
  end.

(* ===================================================================== *)
(** ** Driver: [solve_and_display]                                         *)
(* ===================================================================== *)

(** How a verdict prints inside an f-string. *)
Definition str_verdict (v : verdict) : string :=
  match v with
  | sat => "sat"
  | unsat => "unsat"
  | unknown => "unknown"
  end.

Fixpoint spaces (n : nat) : string :=
  match n with
  | O => EmptyString
  | S n' => String " " (spaces n')
  end.

(** The format spec [:^w]: centred, the odd blank goes to the right. *)
Definition center (w : nat) (s : string) : string :=
  let pad := (w - String.length s)%nat in
  let left := Nat.div pad 2 in
  (spaces left ++ s ++ spaces (pad - left))%string.

Definition status_line (v : verdict) (duration : string) : string :=
  ("Z3 status: " ++ str_verdict v ++ ", time: " ++ duration ++ " sec")%string.

Definition no_solution : string := "No solution found.".

Section Driver.

(** The solver's own operations and the measured time are inputs of the
    run: [check()], [model()], [to_smt2()], and the elapsed seconds as
    rendered by [{duration:.4f}]. *)
Variable check : Solver -> verdict.
Variable get_model : Solver -> model.
Variable to_smt2 : Solver -> string.
Variable duration : string.

(** One printed board row. *)
Definition render_row (trees : list (Z * Z)) (m : model) (p : matrix)
    (ncols i : Z) : result string :=
  cells <- mapM (fun j =>
             if mem (i + 1, j + 1) trees then Ok " T  "%string
             else
               v <- cell (@getitem) p i j;
               Ok (if eval m v then " X  " else " .  ")%string)
           (range ncols);
  Ok ("r" ++ py_str (i + 1) ++ ": " ++ String.concat "" cells)%string.

(** Returns the printed lines and the text written to
    [z3_constraints.smt2]. *)
Definition solve_and_display (text : string)
  : result (list string * string) :=
  pz <- parse_puzzle text;
  '(solver, p) <- build_solver pz.(nrows) pz.(ncols) pz.(row_targets)
                    pz.(col_targets) pz.(tree_positions);
  let result := check solver in
  let printed := [status_line result duration] in
  let smt := to_smt2 solver in
  match result with
  | sat =>
      let m := get_model solver in
      let header :=
        ("      " ++ String.concat ""
           (map (fun j => center 4 ("c" ++ py_str (j + 1))) (range pz.(ncols))))%string in
      rows <- mapM (render_row pz.(tree_positions) m p pz.(ncols))
                   (range pz.(nrows));
      Ok (printed ++ [header] ++ rows, smt)
  | _ => Ok (printed ++ [no_solution], smt)
  end.

End Driver.

(* ===================================================================== *)
(** ** The assertions of a run, phase by phase                             *)
(* ===================================================================== *)

(** What each loop body of [build_solver] contributes to the solver, as a
    value; [build_solver_assertions] relates the stateful code to it. *)

Section Assertions.

Variable index : forall A : Type, list A -> Z -> result A.

Definition exclusion_of (p : matrix) (t : Z * Z) : result (list expr) :=
  let '(ti, tj) := t in
  v <- cell index p (ti - 1) (tj - 1);
  Ok [Eq v (BoolVal false)].

Definition count_of (line : result (list expr)) (targets : list Z) (i : Z)
  : result (list expr) :=
  xs <- line;
  k <- index targets i;
  c <- AtMost xs k;
  xs' <- line;
  k' <- index targets i;
  c' <- AtLeast xs' k';
  Ok [c; c'].

Definition row_count_of (p : matrix) (ncols : Z) (row_targets : list Z)
    (i : Z) : result (list expr) :=
  count_of (mapM (fun j => cell index p i j) (range ncols)) row_targets i.

Definition col_count_of (p : matrix) (nrows : Z) (col_targets : list Z)
    (j : Z) : result (list expr) :=
  count_of (mapM (fun i => cell index p i j) (range nrows)) col_targets j.

Definition adjacency_of (p : matrix) (nrows ncols i j : Z)
  : result (list expr) :=
  flat_mapM (fun n : Z * Z =>
      let '(ni, nj) := n in
      a <- cell index p i j;
      b <- cell index p ni nj;
      Ok [Or [Not a; Not b]])
    (all_neighbors nrows ncols i j).

Definition tree_consts_of (nrows ncols : Z) (trees : list (Z * Z))
    (i j : Z) : list expr :=
  map (fun '(ni, nj) => BoolVal (mem (ni + 1, nj + 1) trees))
      (orth_neighbors nrows ncols i j).

Definition tent_tree_of (p : matrix) (nrows ncols : Z)
    (trees : list (Z * Z)) (i j : Z) : result (list expr) :=
  a <- cell index p i j;
  Ok [Implies a (Or (tree_consts_of nrows ncols trees i j))].

Definition tree_tent_of (p : matrix) (nrows ncols : Z) (t : Z * Z)
  : result (list expr) :=
  let '(ti, tj) := t in
  neigh_tents <- mapM (fun '(ni, nj) => cell index p ni nj)
                      (orth_neighbors nrows ncols (ti - 1) (tj - 1));
  Ok match neigh_tents with
     | [] => []
     | _ => [Or neigh_tents]
     end.

Definition assertions (nrows ncols : Z) (row_targets col_targets : list Z)
    (trees : list (Z * Z)) : result (list expr) :=
  let p := declare_vars nrows ncols in
  l1 <- flat_mapM (exclusion_of p) trees;
  l2 <- flat_mapM (row_count_of p ncols row_targets) (range nrows);
  l3 <- flat_mapM (col_count_of p nrows col_targets) (range ncols);
  l4 <- flat_mapM (fun i =>
          flat_mapM (fun j => adjacency_of p nrows ncols i j) (range ncols))
          (range nrows);
  l5 <- flat_mapM (fun i =>
          flat_mapM (fun j => tent_tree_of p nrows ncols trees i j)
                    (range ncols))
          (range nrows);
  l6 <- flat_mapM (tree_tent_of p nrows ncols) trees;
  Ok (l1 ++ l2 ++ l3 ++ l4 ++ l5 ++ l6).

End Assertions.

(** A stateful computation that only appends [r] to the solver, or raises
    what [r] raises. *)
Definition emits (m : M unit) (r : result (list expr)) : Prop :=
  forall s, m s = match r with
                  | Ok l => Ok (tt, s ++ l)
                  | Raise e => Raise e
                  end.

(** *** Vocabulary of the statements *)

(** The constants of row [i] and of column [j], in the order the script
    lists them. *)
Definition row_vars (ncols i : Z) : list expr :=
  map (fun j => Bool (var_name i j)) (range ncols).

Definition col_vars (nrows j : Z) : list expr :=
  map (fun i => Bool (var_name i j)) (range nrows).

(** Tents a model places in a row, in a column. *)
Definition tents_in_row (m : model) (ncols i : Z) : Z :=
  len (filter (fun j => m (var_name i j)) (range ncols)).

Definition tents_in_col (m : model) (nrows j : Z) : Z :=
  len (filter (fun i => m (var_name i j)) (range nrows)).

Definition king_adjacent (a b : Z * Z) : Prop :=
  Z.max (Z.abs (fst a - fst b)) (Z.abs (snd a - snd b)) = 1.

Definition orth_adjacent (a b : Z * Z) : Prop :=
  Z.abs (fst a - fst b) + Z.abs (snd a - snd b) = 1.

Definition inside (nrows ncols : Z) (c : Z * Z) : Prop :=
  0 <= fst c < nrows /\ 0 <= snd c < ncols.

(** The clause of one direction check of phase 3. *)
Definition not_both (a b : Z * Z) : expr :=
  Or [Not (Bool (var_name (fst a) (snd a))); Not (Bool (var_name (fst b) (snd b)))].

(** A grid as the encoder expects it. *)
Definition well_formed (nrows ncols : Z) (row_targets col_targets : list Z)
    (trees : list (Z * Z)) : Prop :=
  1 <= nrows /\ 1 <= ncols /\
  len row_targets = nrows /\ len col_targets = ncols /\
  Forall (fun t => 1 <= fst t <= nrows /\ 1 <= snd t <= ncols) trees.

(** Every target of the list is a bound the cardinality calls accept. *)
Definition bounds_ok (targets : list Z) : bool := forallb bound_ok targets.

(** *** The assertions of a run on a well-formed grid, written out *)

(** The clauses of phase 3 and of phase 4a on the declared matrix. *)
Definition adjacency_clauses (nrows ncols : Z) : list expr :=
  flat_map (fun i =>
    flat_map (fun j => map (not_both (i, j)) (all_neighbors nrows ncols i j))
             (range ncols))
    (range nrows).

Definition pairing_clause (nrows ncols : Z) (trees : list (Z * Z)) (i j : Z)
  : expr :=
  Implies (Bool (var_name i j))
          (Or (map (fun n => BoolVal (mem (fst n + 1, snd n + 1) trees))
                   (orth_neighbors nrows ncols i j))).

Definition exclusion_clauses (trees : list (Z * Z)) : list expr :=
  map (fun t => Eq (Bool (var_name (fst t - 1) (snd t - 1))) (BoolVal false))
      trees.

(** The two assertions of one row or column, [k] being the bound the
    solver holds. *)
Definition count_clauses (xs : list expr) (k : Z) : list expr :=
  [AtMostE xs k; AtLeastE xs k].

Definition row_clauses (nrows ncols : Z) (row_targets : list Z) : list expr :=
  flat_map (fun i =>
      count_clauses (row_vars ncols i) (nth (Z.to_nat i) row_targets 0))
    (range nrows).

Definition col_clauses (nrows ncols : Z) (col_targets : list Z) : list expr :=
  flat_map (fun j =>
      count_clauses (col_vars nrows j) (nth (Z.to_nat j) col_targets 0))
    (range ncols).

Definition pairing_clauses (nrows ncols : Z) (trees : list (Z * Z))
  : list expr :=
  flat_map (fun i =>
      flat_map (fun j => [pairing_clause nrows ncols trees i j]) (range ncols))
    (range nrows).

Definition tree_tent_clauses (nrows ncols : Z) (trees : list (Z * Z))
  : list expr :=
  flat_map (fun t =>
      match orth_neighbors nrows ncols (fst t - 1) (snd t - 1) with
      | [] => []
      | ns => [Or (map (fun n => Bool (var_name (fst n) (snd n))) ns)]
      end)
    trees.

(** Everything the solver holds after a run on a well-formed grid, the
    targets being the bounds as the solver received them. *)
Definition encoding (nrows ncols : Z) (row_targets col_targets : list Z)
    (trees : list (Z * Z)) : list expr :=
  exclusion_clauses trees ++
  row_clauses nrows ncols row_targets ++
  col_clauses nrows ncols col_targets ++
  adjacency_clauses nrows ncols ++
  pairing_clauses nrows ncols trees ++
  tree_tent_clauses nrows ncols trees.

Definition p_1_1 : expr := Bool "p_1_1".

(** The solver after a run on the 1x1 grid whose cell is a tree. *)
Definition single_tree_solver (r c : Z) : Solver :=
  [Eq p_1_1 (BoolVal false);
   AtMostE [p_1_1] r; AtLeastE [p_1_1] r;
   AtMostE [p_1_1] c; AtLeastE [p_1_1] c;
   Implies p_1_1 (Or [])].

(** *** Vocabulary of the loader statements *)

(** The first token of a data row reads as an integer. *)
Definition row_target_is (row : list string) (n : Z) : Prop :=
  int_literal (hd EmptyString row) = Some n.

(** A data row the loader rejects: too short, or its first token is not
    an integer literal. *)
Definition rejected_row (ncols : Z) (row : list string) : Prop :=
  len row < ncols + 1 \/ int_literal (hd EmptyString row) = None.

(** The cell markers kept from a data row. *)
Definition markers (ncols : Z) (row : list string) : list string :=
  firstn (Z.to_nat ncols) (tl row).

(** *** Characters of a name *)

Fixpoint contains (c : ascii) (s : string) : bool :=
  match s with
  | EmptyString => false
  | String a s' => if Ascii.eqb c a then true else contains c s'
  end.

(** *** Sample inputs *)

(** A 2x2 grid: column targets 0 1, rows [1 T .] and [0 . .]; its only
    solution puts the tent right of the tree. *)
Definition demo_rows : list Z := [1; 0].
Definition demo_cols : list Z := [0; 1].
Definition demo_trees : list (Z * Z) := [(1, 1)].

Definition demo_model : model := fun name => String.eqb name "p_1_2".

Definition nl : string := String (ascii_of_nat 10) EmptyString.

(** Input files used below. *)
Definition demo_text : string :=
  ("0 1" ++ nl ++ "1 T ." ++ nl ++ "0 . ." ++ nl)%string.

Definition short_row_text : string :=
  ("1 0" ++ nl ++ "1 T" ++ nl ++ "0 . ." ++ nl)%string.

Definition extra_tokens_text : string :=
  ("1 0" ++ nl ++ "1 T . x y" ++ nl ++ "0 . ." ++ nl)%string.

Definition negative_target_text : string :=
  ("1" ++ nl ++ "-1 T" ++ nl)%string.

(** *** Vocabulary of the statements about placements *)

(** The subscript Python reads for [i] in a list of [n] items. *)
Definition wrap (n i : Z) : Z := if i <? 0 then i + n else i.

(** [i] is a subscript a list of [n] items accepts. *)
Definition subscript_ok (n i : Z) : bool := (- n <=? i) && (i <? n).

(** The 0-based cell of a 1-based tree coordinate. *)
Definition cell_of (t : Z * Z) : Z * Z := (fst t - 1, snd t - 1).

(** The model puts a tent on the 0-based cell [c]. *)
Definition tent (m : model) (c : Z * Z) : Prop :=
  m (var_name (fst c) (snd c)) = true.

(** The assertion of phase 1 for the constant of cell [c]. *)
Definition no_tent_on (c : Z * Z) : expr :=
  Eq (Bool (var_name (fst c) (snd c))) (BoolVal false).

(** The assertion of phase 4b for a tree whose neighbours are [ns]. *)
Definition some_tent_on (ns : list (Z * Z)) : expr :=
  Or (map (fun n => Bool (var_name (fst n) (snd n))) ns).

(** The rules listed in the docstring of [build_solver], read on cells:
    1) no tent on a tree cell, 2) exact row and column counts, 3) no two
    tents on surrounding cells, 4a) each tent next to a tree, 4b) each
    tree that has a neighbouring cell next to a tent. *)
Definition obeys_rules (nrows ncols : Z) (row_targets col_targets : list Z)
    (trees : list (Z * Z)) (m : model) : Prop :=
  (forall t, In t trees -> ~ tent m (cell_of t)) /\
  (forall i, 0 <= i < nrows ->
     tents_in_row m ncols i = nth (Z.to_nat i) row_targets 0) /\
  (forall j, 0 <= j < ncols ->
     tents_in_col m nrows j = nth (Z.to_nat j) col_targets 0) /\
  (forall a b, inside nrows ncols a -> inside nrows ncols b ->
     king_adjacent a b -> ~ (tent m a /\ tent m b)) /\
  (forall c, inside nrows ncols c -> tent m c ->
     exists t, In t trees /\ orth_adjacent c (cell_of t)) /\
  (forall t, In t trees ->
     (exists n, inside nrows ncols n /\ orth_adjacent (cell_of t) n) ->
     exists n, inside nrows ncols n /\ orth_adjacent (cell_of t) n /\ tent m n).

(** The sum of a list of integers. *)
Definition total (l : list Z) : Z := fold_right Z.add 0 l.

(** The trees whose coordinates [p[ti-1][tj-1]] accepts. *)
Definition tree_ok (nrows ncols : Z) (t : Z * Z) : bool :=
  subscript_ok nrows (fst t - 1) && subscript_ok ncols (snd t - 1).

(** The target of row (column) [i] is there and the bindings accept it. *)
Definition target_ok (targets : list Z) (i : Z) : bool :=
  (i <? len targets) && bound_ok (nth (Z.to_nat i) targets 0).

(** The first of [n] rows (columns) whose target is missing or refused. *)
Definition first_bad_target (targets : list Z) (n : Z) : option Z :=
  find (fun i => negb (target_ok targets i)) (range n).

(** What the loop over the rows (columns) raises there. *)
Definition target_error (targets : list Z) (i : Z) : exn :=
  if i <? len targets then Z3Exception else IndexError.

(** The exception that ends a run of [build_solver], if any, for a grid
    of at least one row and one column. *)
Definition refusal (nrows ncols : Z) (row_targets col_targets : list Z)
    (trees : list (Z * Z)) : option exn :=
  if forallb (tree_ok nrows ncols) trees then
    match first_bad_target row_targets nrows with
    | Some i => Some (target_error row_targets i)
    | None =>
        match first_bad_target col_targets ncols with
        | Some j => Some (target_error col_targets j)
        | None => None
        end
    end
  else Some IndexError.

(** What the solver then holds. *)
Definition encoding_wrapped (nrows ncols : Z) (row_targets col_targets : list Z)
    (trees : list (Z * Z)) : list expr :=
  map (fun t => no_tent_on (wrap nrows (fst t - 1), wrap ncols (snd t - 1)))
      trees ++
  row_clauses nrows ncols row_targets ++
  col_clauses nrows ncols col_targets ++
  adjacency_clauses nrows ncols ++
  pairing_clauses nrows ncols trees ++
  tree_tent_clauses nrows ncols trees.

(** *** Vocabulary of the statements about the loaded board *)

(** [board[i][j]] for subscripts in range. *)
Definition marker_at (board : list (list string)) (i j : Z) : string :=
  nth (Z.to_nat j) (nth (Z.to_nat i) board []) EmptyString.

(** The cell is marked as a tree. *)
Definition is_tree_marker (board : list (list string)) (c : Z * Z) : Prop :=
  marker_at board (fst c) (snd c) = tree_marker.

(** *** Vocabulary of the statements about text *)

(** A line that survives the filter of [read_lines]. *)
Definition nonblank (line : string) : bool := negb (is_empty (strip line)).

(** Every character is whitespace. *)
Fixpoint blank (s : string) : bool :=
  match s with
  | EmptyString => true
  | String c rest => isspace c && blank rest
  end.

(** No character is whitespace. *)
Fixpoint no_space (s : string) : bool :=
  match s with
  | EmptyString => true
  | String c rest => negb (isspace c) && no_space rest
  end.

(** The last character, if any, is not whitespace. *)
Fixpoint ends_ok (s : string) : bool :=
  match s with
  | EmptyString => true
  | String c rest =>
      match rest with
      | EmptyString => negb (isspace c)
      | _ => ends_ok rest
      end
  end.

(** A token as the loader expects it: not empty, no whitespace inside. *)
Definition proper_token (t : string) : Prop :=
  t <> EmptyString /\ no_space t = true.

(** *** Vocabulary of the statements about the printed board *)

(** The 4-character field of cell (i, j). *)
Definition cell_text (trees : list (Z * Z)) (m : model) (i j : Z) : string :=
  if mem (i + 1, j + 1) trees then " T  "
  else if m (var_name i j) then " X  " else " .  ".

(** The printed line of row [i]. *)
Definition row_text (trees : list (Z * Z)) (m : model) (ncols i : Z)
  : string :=
  ("r" ++ py_str (i + 1) ++ ": "
   ++ String.concat "" (map (cell_text trees m i) (range ncols)))%string.

(** The printed line of column labels. *)
Definition header_text (ncols : Z) : string :=
  ("      " ++ String.concat ""
     (map (fun j => center 4 ("c" ++ py_str (j + 1))) (range ncols)))%string.

(** What is printed after the status line. *)
Definition report (v : verdict) (trees : list (Z * Z)) (m : model)
    (nrows ncols : Z) : list string :=
  match v with
  | sat => header_text ncols :: map (row_text trees m ncols) (range nrows)
  | _ => [no_solution]
  end.

(** *** Vocabulary of the statements about the size of the encoding *)

(** How many of [i - 1], [i], [i + 1] are subscripts below [n], for a
    subscript [i] below [n]. *)
Definition span (n i : Z) : Z :=
  (if 1 <=? i then 1 else 0) + 1 + (if i + 1 <? n then 1 else 0).

(** *** Proof automation *)

Ltac pick_branch :=
  first [ split; [split; assumption | reflexivity]
        | left; pick_branch
        | right; pick_branch ].

(* ===================================================================== *)
(** ** The embedding on concrete inputs                                    *)
(* ===================================================================== *)

Example py_int_accepts :
  py_int "12" = Ok 12 /\ py_int "-3" = Ok (-3) /\ py_int "+7" = Ok 7 /\
  py_int "007" = Ok 7 /\ py_int "1_000" = Ok 1000.
Proof. repeat split. Qed.

Example py_int_rejects :
  Forall (fun t => py_int t = Raise ValueError)
         [""; "T"; "."; "3.5"; "1__0"; "_1"; "1_"; "-"; "- 1"; "0x10"]%string.
Proof. repeat constructor. Qed.

Example tokenize_demo :
  tokenize demo_text
  = [["0"; "1"]; ["1"; "T"; "."]; ["0"; "."; "."]]%string.
Proof. reflexivity. Qed.

Example tokenize_blank_lines_and_tabs :
  let cr := String (ascii_of_nat 13) EmptyString in
  let tab := String (ascii_of_nat 9) EmptyString in
  tokenize ("  0 1 " ++ cr ++ nl ++ nl ++ "   " ++ nl ++
            "1" ++ tab ++ tab ++ "T  ." ++ cr ++ "0 . .")%string
  = [["0"; "1"]; ["1"; "T"; "."]; ["0"; "."; "."]]%string.
Proof. reflexivity. Qed.

Example parse_demo :
  parse_puzzle demo_text
  = Ok (Puzzle 2 2 demo_rows demo_cols
               [["T"; "."]; ["."; "."]]%string demo_trees).
Proof. reflexivity. Qed.

Example parse_empty_text : parse_puzzle EmptyString = Raise IndexError.
Proof. reflexivity. Qed.

Example build_demo :
  build_solver 2 2 demo_rows demo_cols demo_trees
  = Ok (encoding 2 2 demo_rows demo_cols demo_trees, declare_vars 2 2).
Proof. vm_compute; reflexivity. Qed.

Example demo_model_satisfies :
  satisfiesb demo_model (encoding 2 2 demo_rows demo_cols demo_trees) = true.
Proof. vm_compute; reflexivity. Qed.

Example build_without_rows :
  build_solver 0 1 [] [0] [] = Raise Z3Exception.
Proof. reflexivity. Qed.

(** Bounds of the cardinality calls: 0 .. 2^31 - 1 pass unchanged, a
    negative bound and 2^31 are refused, 2^32 passes as 0. *)
Example bounds_of_cardinality_calls :
  AtMost [p_1_1] (2 ^ 31 - 1) = Ok (AtMostE [p_1_1] (2 ^ 31 - 1)) /\
  AtMost [p_1_1] (-1) = Raise Z3Exception /\
  AtLeast [p_1_1] (2 ^ 31) = Raise Z3Exception /\
  AtLeast [p_1_1] (2 ^ 32) = Ok (AtLeastE [p_1_1] 0) /\
  AtMost [] 0 = Raise Z3Exception.
Proof. repeat apply conj; vm_compute; reflexivity. Qed.

Example build_with_refused_targets :
  build_solver 2 2 [1; -1] [0; 1] [(1, 1)] = Raise Z3Exception /\
  build_solver 1 1 [2 ^ 31] [0] [] = Raise Z3Exception /\
  (exists pz, parse_puzzle negative_target_text = Ok pz /\
     build_solver pz.(nrows) pz.(ncols) pz.(row_targets) pz.(col_targets)
                  pz.(tree_positions) = Raise Z3Exception).
Proof.
  split; [vm_compute; reflexivity|]. split; [vm_compute; reflexivity|].
  exists (Puzzle 1 1 [-1] [1] [["T"%string]] [(1, 1)]).
  split; [vm_compute; reflexivity | vm_compute; reflexivity].
Qed.

Example build_with_wrapped_target :
  build_solver 1 1 [2 ^ 32] [0] []
  = Ok ([AtMostE [p_1_1] 0; AtLeastE [p_1_1] 0;
         AtMostE [p_1_1] 0; AtLeastE [p_1_1] 0;
         Implies p_1_1 (Or [])], [[p_1_1]]) /\
  satisfiesb (fun _ => false)
    [AtMostE [p_1_1] 0; AtLeastE [p_1_1] 0;
     AtMostE [p_1_1] 0; AtLeastE [p_1_1] 0;
     Implies p_1_1 (Or [])] = true.
Proof. split; vm_compute; reflexivity. Qed.

(** A tree coordinate 0 reaches the last row through [p[-1]]: Python's
    subscript accepts it, the checked one does not. *)
Example build_with_wrapping_subscript :
  (exists s p, build_solver 1 1 [0] [0] [(0, 1)] = Ok (s, p)) /\
  build_solver_strict 1 1 [0] [0] [(0, 1)] = Raise IndexError.
Proof. split; [eexists; eexists|]; vm_compute; reflexivity. Qed.

Example display_demo :
  solve_and_display (fun _ => sat) (fun _ => demo_model)
                    (fun _ => EmptyString) "0.0100" demo_text
  = Ok (["Z3 status: sat, time: 0.0100 sec";
         "       c1  c2 ";
         "r1:  T   X  ";
         "r2:  .   .  "]%string, EmptyString).
Proof. vm_compute; reflexivity. Qed.

(* ===================================================================== *)
(** ** Basic facts: error monad, ranges, subscripts                        *)
(* ===================================================================== *)

Lemma rbind_Ok_inv A B (r : result A) (k : A -> result B) b :
  rbind r k = Ok b -> exists a, r = Ok a /\ k a = Ok b.
Proof. destruct r as [a|e]; simpl; [eauto | discriminate]. Qed.

Lemma mapM_ext_in A B (f g : A -> result B) xs :
  (forall x, In x xs -> f x = g x) -> mapM f xs = mapM g xs.
Proof.
  induction xs as [|x xs IH]; intros H; simpl; [reflexivity|].
  rewrite (H x (or_introl eq_refl)), IH; auto using in_cons.
Qed.

Lemma mapM_pure A B (f : A -> result B) (g : A -> B) xs :
  (forall x, In x xs -> f x = Ok (g x)) -> mapM f xs = Ok (map g xs).
Proof.
  induction xs as [|x xs IH]; intros H; simpl; [reflexivity|].
  rewrite (H x (or_introl eq_refl)), IH; auto using in_cons.
Qed.




Lemma flat_mapM_ext_in A B (f g : A -> result (list B)) xs :
  (forall x, In x xs -> f x = g x) -> flat_mapM f xs = flat_mapM g xs.
Proof.
  induction xs as [|x xs IH]; intros H; simpl; [reflexivity|].
  rewrite (H x (or_introl eq_refl)), IH; auto using in_cons.
Qed.

Lemma flat_mapM_pure A B (f : A -> result (list B)) (g : A -> list B) xs :
  (forall x, In x xs -> f x = Ok (g x)) -> flat_mapM f xs = Ok (flat_map g xs).
Proof.
  induction xs as [|x xs IH]; intros H; simpl; [reflexivity|].
  rewrite (H x (or_introl eq_refl)), IH; auto using in_cons.
Qed.

Lemma flat_mapM_Ok_In A B (f : A -> result (list B)) xs l x :
  flat_mapM f xs = Ok l -> In x xs -> exists lx, f x = Ok lx /\ incl lx l.
Proof.
  revert l; induction xs as [|x0 xs IH]; simpl; intros l H Hin; [easy|].
  apply rbind_Ok_inv in H as (l0 & H0 & H).
  apply rbind_Ok_inv in H as (l' & Hl' & H).
  inversion H; subst; clear H.
  destruct Hin as [->|Hin].
  - exists l0; split; [assumption|]. apply incl_appl, incl_refl.
  - destruct (IH _ Hl' Hin) as (lx & Hx & Hincl).
    exists lx; split; [assumption|]. now apply incl_appr.
Qed.

Lemma flat_mapM_Ok_elem A B (f : A -> result (list B)) xs l b :
  flat_mapM f xs = Ok l -> In b l ->
  exists x lx, In x xs /\ f x = Ok lx /\ In b lx.
Proof.
  revert l; induction xs as [|x0 xs IH]; simpl; intros l H Hin.
  - inversion H; subst; easy.
  - apply rbind_Ok_inv in H as (l0 & H0 & H).
    apply rbind_Ok_inv in H as (l' & Hl' & H).
    inversion H; subst; clear H.
    apply in_app_or in Hin as [Hin|Hin].
    + exists x0, l0; auto.
    + destruct (IH _ Hl' Hin) as (x & lx & ? & ? & ?).
      exists x, lx; auto.
Qed.

Lemma flat_mapM_Raise A B (f : A -> result (list B)) xs e :
  flat_mapM f xs = Raise e -> exists x, In x xs /\ f x = Raise e.
Proof.
  induction xs as [|x xs IH]; simpl; [discriminate|].
  destruct (f x) as [y|e'] eqn:Hx; simpl.
  - destruct (flat_mapM f xs) as [ys|e'']; simpl; [discriminate|].
    intros H; inversion H; subst.
    destruct IH as (x' & Hin & Hx'); eauto.
  - intros H; inversion H; subst; eauto.
Qed.

Lemma flat_mapM_guard A B (f : A -> result (list B)) (c : A -> bool)
    (g : A -> list B) e xs :
  (forall x, In x xs -> f x = if c x then Ok (g x) else Raise e) ->
  flat_mapM f xs = if forallb c xs then Ok (flat_map g xs) else Raise e.
Proof.
  induction xs as [|x xs IH]; intros H; simpl; [reflexivity|].
  rewrite (H x (or_introl eq_refl)), IH by (intros y Hy; apply H; now right).
  destruct (c x); simpl; [|reflexivity].
  now destruct (forallb c xs).
Qed.

Lemma map_nth_seq A (l : list A) d :
  map (fun k => nth k l d) (seq 0 (List.length l)) = l.
Proof.
  induction l as [|a l IH]; simpl; [reflexivity|].
  f_equal. rewrite <- seq_shift, map_map. exact IH.
Qed.

Lemma map_nth_range A (l : list A) d :
  map (fun i => nth (Z.to_nat i) l d) (range (len l)) = l.
Proof.
  unfold range, len; rewrite map_map, Nat2Z.id.
  etransitivity; [|apply (map_nth_seq l d)].
  apply map_ext; intros k; now rewrite Nat2Z.id.
Qed.

Lemma forallb_map_in A B (c : B -> bool) (g : A -> B) l :
  forallb c (map g l) = forallb (fun x => c (g x)) l.
Proof. induction l as [|x l IH]; simpl; congruence. Qed.

Lemma forallb_nth_range A (c : A -> bool) (l : list A) d :
  forallb (fun i => c (nth (Z.to_nat i) l d)) (range (len l)) = forallb c l.
Proof. now rewrite <- forallb_map_in, map_nth_range. Qed.

Lemma flat_map_singleton A B (f : A -> B) l :
  flat_map (fun x => [f x]) l = map f l.
Proof. induction l; simpl; congruence. Qed.

Lemma len_nonneg A (l : list A) : 0 <= len l.
Proof. unfold len; lia. Qed.

Lemma len_map A B (f : A -> B) (l : list A) : len (map f l) = len l.
Proof. unfold len; now rewrite length_map. Qed.

Lemma len_range n : len (range n) = Z.max 0 n.
Proof. unfold len, range; rewrite length_map, length_seq; lia. Qed.

Lemma in_range i n : In i (range n) <-> 0 <= i < n.
Proof.
  unfold range; rewrite in_map_iff; split.
  - intros (k & <- & Hk); apply in_seq in Hk; lia.
  - intros H; exists (Z.to_nat i); split; [lia|]. apply in_seq; lia.
Qed.

Lemma range_nonempty n : 1 <= n -> range n <> [].
Proof.
  intros H E. assert (Hl : len (range n) = 0) by now rewrite E.
  rewrite len_range in Hl; lia.
Qed.

Lemma nth_error_range n i :
  0 <= i < n -> nth_error (range n) (Z.to_nat i) = Some i.
Proof.
  intros H; unfold range.
  rewrite nth_error_map, nth_error_seq.
  destruct (Nat.ltb_spec (Z.to_nat i) (Z.to_nat n)); simpl; [f_equal|]; lia.
Qed.

Lemma getitem_nonneg A (l : list A) i :
  0 <= i -> getitem l i = getitem_strict l i.
Proof.
  intros H; unfold getitem, getitem_strict.
  destruct (Z.ltb_spec i 0); [lia | reflexivity].
Qed.

Lemma getitem_strict_map_range A (f : Z -> A) n i :
  0 <= i < n -> getitem_strict (map f (range n)) i = Ok (f i).
Proof.
  intros H; unfold getitem_strict.
  rewrite len_map, len_range.
  destruct (Z.leb_spec 0 i); [|lia].
  destruct (Z.ltb_spec i (Z.max 0 n)); [|lia]; simpl.
  now rewrite nth_error_map, nth_error_range.
Qed.

Lemma getitem_strict_Ok A (l : list A) i :
  0 <= i < len l -> exists a, getitem_strict l i = Ok a.
Proof.
  intros H; unfold getitem_strict.
  destruct (Z.leb_spec 0 i); [|lia].
  destruct (Z.ltb_spec i (len l)); [|lia]; simpl.
  destruct (nth_error l (Z.to_nat i)) eqn:E; [eauto|].
  apply nth_error_None in E; unfold len in *; lia.
Qed.

Lemma getitem_strict_Ok_inv A (l : list A) i a :
  getitem_strict l i = Ok a ->
  0 <= i < len l /\ nth_error l (Z.to_nat i) = Some a.
Proof.
  unfold getitem_strict.
  destruct (Z.leb_spec 0 i); simpl; [|discriminate].
  destruct (Z.ltb_spec i (len l)); simpl; [|discriminate].
  destruct (nth_error l (Z.to_nat i)); [|discriminate].
  intros E; inversion E; subst; auto.
Qed.

(* ===================================================================== *)
(** ** The stateful encoder appends exactly [assertions]                   *)
(* ===================================================================== *)

Lemma emits_s_add e : emits (s_add e) (Ok [e]).
Proof. intros s; reflexivity. Qed.

Lemma emits_skip : emits (ret tt) (Ok []).
Proof. intros s; unfold ret; now rewrite app_nil_r. Qed.

Lemma emits_lift A (r : result A) (k : A -> M unit) g :
  (forall a, emits (k a) (g a)) -> emits (bind (lift r) k) (rbind r g).
Proof.
  intros H s; unfold bind, lift; destruct r as [a|e]; simpl; [apply H | reflexivity].
Qed.

Lemma emits_seq (m1 m2 : M unit) r1 r2 :
  emits m1 r1 -> emits m2 r2 ->
  emits (bind m1 (fun _ => m2)) (l1 <- r1; l2 <- r2; Ok (l1 ++ l2)).
Proof.
  intros H1 H2 s; unfold bind; rewrite H1.
  destruct r1 as [l1|e]; simpl; [|reflexivity].
  rewrite H2; destruct r2 as [l2|e]; simpl; [|reflexivity].
  now rewrite app_assoc.
Qed.

Lemma emits_for A (xs : list A) (body : A -> M unit) g :
  (forall x, emits (body x) (g x)) -> emits (for_ xs body) (flat_mapM g xs).
Proof.
  intros H; induction xs as [|x xs IH]; simpl.
  - apply emits_skip.
  - apply emits_seq; auto.
Qed.

Section Refinement.

Variable index : forall A : Type, list A -> Z -> result A.

Lemma emits_count (line : result (list expr)) targets i :
  emits
    (bind (lift line) (fun xs =>
     bind (lift (index targets i)) (fun k =>
     bind (lift (AtMost xs k)) (fun c =>
     bind (s_add c) (fun _ =>
     bind (lift line) (fun xs' =>
     bind (lift (index targets i)) (fun k' =>
     bind (lift (AtLeast xs' k')) (fun c' =>
     s_add c'))))))))
    (count_of index line targets i).
Proof.
  intros s; unfold count_of, bind, lift, s_add.
  destruct line as [xs|e]; simpl; [|reflexivity].
  destruct (index targets i) as [k|e]; simpl; [|reflexivity].
  destruct (AtMost xs k) as [c|e]; simpl; [|reflexivity].
  destruct (AtLeast xs k) as [c'|e]; simpl; [|reflexivity].
  now rewrite <- app_assoc.
Qed.

Lemma build_solver_assertions nrows ncols row_targets col_targets trees s :
  build_solver_with index nrows ncols row_targets col_targets trees s =
  match assertions index nrows ncols row_targets col_targets trees with
  | Ok l => Ok (declare_vars nrows ncols, s ++ l)
  | Raise e => Raise e
  end.
Proof.
  unfold build_solver_with, assertions.
  set (p := declare_vars nrows ncols).
  unfold bind at 1.
  rewrite (@emits_for _ trees _ (exclusion_of index p)).
  2:{ intros [ti tj]; apply emits_lift; intros v; apply emits_s_add. }
  destruct (flat_mapM (exclusion_of index p) trees) as [l1|e]; simpl; [|reflexivity].
  unfold bind at 1.
  rewrite (@emits_for _ (range nrows) _ (row_count_of index p ncols row_targets)).
  2:{ intros i; apply emits_count. }
  destruct (flat_mapM _ (range nrows)) as [l2|e]; simpl; [|reflexivity].
  unfold bind at 1.
  rewrite (@emits_for _ (range ncols) _ (col_count_of index p nrows col_targets)).
  2:{ intros j; apply emits_count. }
  destruct (flat_mapM _ (range ncols)) as [l3|e]; simpl; [|reflexivity].
  unfold bind at 1.
  rewrite (@emits_for _ (range nrows) _
             (fun i => flat_mapM (fun j => adjacency_of index p nrows ncols i j)
                                 (range ncols))).
  2:{ intros i; apply emits_for; intros j; apply emits_for; intros [ni nj].
      apply emits_lift; intros a; apply emits_lift; intros b; apply emits_s_add. }
  destruct (flat_mapM _ (range nrows)) as [l4|e]; simpl; [|reflexivity].
  unfold bind at 1.
  rewrite (@emits_for _ (range nrows) _
             (fun i => flat_mapM (fun j => tent_tree_of index p nrows ncols trees i j)
                                 (range ncols))).
  2:{ intros i; apply emits_for; intros j.
      apply emits_lift; intros a; apply emits_s_add. }
  destruct (flat_mapM _ (range nrows)) as [l5|e]; simpl; [|reflexivity].
  unfold bind at 1.
  rewrite (@emits_for _ trees _ (tree_tent_of index p nrows ncols)).
  2:{ intros [ti tj]; apply emits_lift; intros ns.
      destruct ns; [apply emits_skip | apply emits_s_add]. }
  destruct (flat_mapM _ trees) as [l6|e]; simpl; [|reflexivity].
  unfold ret; now rewrite <- !app_assoc.
Qed.

End Refinement.

Lemma build_solver_Ok nrows ncols row_targets col_targets trees s p :
  build_solver nrows ncols row_targets col_targets trees = Ok (s, p) <->
  assertions (@getitem) nrows ncols row_targets col_targets trees = Ok s /\
  p = declare_vars nrows ncols.
Proof.
  unfold build_solver; rewrite build_solver_assertions.
  destruct (assertions _ _ _ _ _ _) as [l|e]; simpl; split.
  - intros H; inversion H; auto.
  - intros [H ->]; inversion H; reflexivity.
  - discriminate.
  - intros [H _]; discriminate.
Qed.

(* ===================================================================== *)
(** ** Neighbour generators                                                *)
(* ===================================================================== *)

Lemma in_grid_true nrows ncols ni nj :
  in_grid nrows ncols ni nj = true <-> inside nrows ncols (ni, nj).
Proof.
  unfold in_grid, inside; simpl.
  rewrite !andb_true_iff, !Z.leb_le, !Z.ltb_lt; tauto.
Qed.

Lemma in_guarded A (b : bool) (x y : A) :
  In x (if b then [y] else []) <-> b = true /\ y = x.
Proof. destruct b; simpl; intuition discriminate. Qed.

Lemma in_all_neighbors nrows ncols i j n :
  In n (all_neighbors nrows ncols i j) <->
  inside nrows ncols n /\ king_adjacent (i, j) n.
Proof.
  destruct n as [ni nj].
  unfold all_neighbors, king_adjacent, inside; simpl.
  rewrite !in_app_iff, !in_guarded, !in_grid_true; unfold inside; simpl.
  split.
  - intros H.
    repeat match goal with
           | H : _ \/ _ |- _ => destruct H
           | H : _ /\ _ |- _ => destruct H
           | H : (_, _) = (_, _) |- _ => inversion H; subst; clear H
           | H : False |- _ => destruct H
           end; lia.
  - intros [[Hi Hj] Hk].
    assert (Hc : (ni = i + -1 \/ ni = i + 0 \/ ni = i + 1) /\
                 (nj = j + -1 \/ nj = j + 0 \/ nj = j + 1) /\
                 ~ (ni = i + 0 /\ nj = j + 0)) by lia.
    destruct Hc as ([->| [->| ->]] & [->| [->| ->]] & Hne);
      try (exfalso; apply Hne; split; reflexivity); pick_branch.
Qed.

Lemma in_orth_neighbors nrows ncols i j n :
  In n (orth_neighbors nrows ncols i j) <->
  inside nrows ncols n /\ orth_adjacent (i, j) n.
Proof.
  destruct n as [ni nj].
  unfold orth_neighbors, orth_adjacent, inside; simpl.
  rewrite !in_app_iff, !in_guarded, !in_grid_true; unfold inside; simpl.
  split.
  - intros H.
    repeat match goal with
           | H : _ \/ _ |- _ => destruct H
           | H : _ /\ _ |- _ => destruct H
           | H : (_, _) = (_, _) |- _ => inversion H; subst; clear H
           | H : False |- _ => destruct H
           end; lia.
  - intros [[Hi Hj] Hk].
    assert (Hc : (ni = i + -1 /\ nj = j + 0) \/ (ni = i + 1 /\ nj = j + 0) \/
                 (ni = i + 0 /\ nj = j + -1) \/ (ni = i + 0 /\ nj = j + 1)) by lia.
    destruct Hc as [[-> ->]| [[-> ->]| [[-> ->]| [-> ->]]]]; pick_branch.
Qed.

Lemma all_neighbors_at_most_8 nrows ncols i j :
  len (all_neighbors nrows ncols i j) <= 8.
Proof.
  unfold all_neighbors, len; simpl.
  repeat match goal with
         | |- context [if ?b then _ else _] => destruct b
         end; simpl; lia.
Qed.

Lemma orth_neighbors_at_most_4 nrows ncols i j :
  len (orth_neighbors nrows ncols i j) <= 4.
Proof.
  unfold orth_neighbors, len; simpl.
  repeat match goal with
         | |- context [if ?b then _ else _] => destruct b
         end; simpl; lia.
Qed.

Lemma all_neighbors_inside nrows ncols i j ni nj :
  In (ni, nj) (all_neighbors nrows ncols i j) ->
  0 <= ni < nrows /\ 0 <= nj < ncols.
Proof. intros H; apply in_all_neighbors in H as [H _]; exact H. Qed.

Lemma orth_neighbors_inside nrows ncols i j ni nj :
  In (ni, nj) (orth_neighbors nrows ncols i j) ->
  0 <= ni < nrows /\ 0 <= nj < ncols.
Proof. intros H; apply in_orth_neighbors in H as [H _]; exact H. Qed.

Lemma mem_true x trees : mem x trees = true <-> In x trees.
Proof.
  unfold mem; rewrite existsb_exists; split.
  - intros (y & Hy & H); apply andb_true_iff in H as [H1 H2].
    apply Z.eqb_eq in H1, H2. destruct x, y; simpl in *; subst; assumption.
  - intros H; exists x; split; [assumption|]. now rewrite !Z.eqb_refl.
Qed.

Lemma mem_Permutation x t1 t2 : Permutation t1 t2 -> mem x t1 = mem x t2.
Proof.
  intros HP.
  destruct (mem x t1) eqn:E1, (mem x t2) eqn:E2; try reflexivity.
  - apply mem_true in E1. apply (Permutation_in _ HP), mem_true in E1. congruence.
  - apply mem_true in E2.
    apply (Permutation_in _ (Permutation_sym HP)), mem_true in E2. congruence.
Qed.

(* ===================================================================== *)
(** ** Subscripts into the declared matrix                                 *)
(* ===================================================================== *)

Section Subscripts.

(** Holds of both [getitem] and [getitem_strict]. *)
Variable index : forall A : Type, list A -> Z -> result A.
Hypothesis index_nonneg :
  forall A (l : list A) i, 0 <= i -> index l i = getitem_strict l i.

Lemma cell_declared nrows ncols i j :
  0 <= i < nrows -> 0 <= j < ncols ->
  cell index (declare_vars nrows ncols) i j = Ok (Bool (var_name i j)).
Proof.
  intros Hi Hj; unfold cell, declare_vars.
  rewrite index_nonneg, getitem_strict_map_range by lia; simpl.
  now rewrite index_nonneg, getitem_strict_map_range by lia.
Qed.

Lemma row_line nrows ncols i :
  0 <= i < nrows ->
  mapM (fun j => cell index (declare_vars nrows ncols) i j) (range ncols)
  = Ok (row_vars ncols i).
Proof.
  intros Hi; apply mapM_pure; intros j Hj; apply in_range in Hj.
  now apply cell_declared.
Qed.

Lemma col_line nrows ncols j :
  0 <= j < ncols ->
  mapM (fun i => cell index (declare_vars nrows ncols) i j) (range nrows)
  = Ok (col_vars nrows j).
Proof.
  intros Hj; apply mapM_pure; intros i Hi; apply in_range in Hi.
  now apply cell_declared.
Qed.

Lemma adjacency_of_declared nrows ncols i j :
  0 <= i < nrows -> 0 <= j < ncols ->
  adjacency_of index (declare_vars nrows ncols) nrows ncols i j
  = Ok (map (not_both (i, j)) (all_neighbors nrows ncols i j)).
Proof.
  intros Hi Hj; unfold adjacency_of.
  rewrite flat_mapM_pure with (g := fun n => [not_both (i, j) n]).
  - now rewrite flat_map_singleton.
  - intros [ni nj] Hn; apply all_neighbors_inside in Hn as [Hni Hnj].
    now rewrite !cell_declared.
Qed.

Lemma tent_tree_of_declared nrows ncols trees i j :
  0 <= i < nrows -> 0 <= j < ncols ->
  tent_tree_of index (declare_vars nrows ncols) nrows ncols trees i j
  = Ok [Implies (Bool (var_name i j)) (Or (tree_consts_of nrows ncols trees i j))].
Proof. intros Hi Hj; unfold tent_tree_of; now rewrite cell_declared. Qed.

Lemma tree_tent_of_declared nrows ncols ti tj :
  tree_tent_of index (declare_vars nrows ncols) nrows ncols (ti, tj)
  = Ok match orth_neighbors nrows ncols (ti - 1) (tj - 1) with
       | [] => []
       | ns => [Or (map (fun n => Bool (var_name (fst n) (snd n))) ns)]
       end.
Proof.
  unfold tree_tent_of.
  rewrite mapM_pure with (g := fun n => Bool (var_name (fst n) (snd n))).
  - simpl. now destruct (orth_neighbors nrows ncols (ti - 1) (tj - 1)).
  - intros [ni nj] Hn; apply orth_neighbors_inside in Hn as [Hni Hnj].
    now apply cell_declared.
Qed.

Lemma exclusion_of_declared nrows ncols ti tj :
  1 <= ti <= nrows -> 1 <= tj <= ncols ->
  exclusion_of index (declare_vars nrows ncols) (ti, tj)
  = Ok [Eq (Bool (var_name (ti - 1) (tj - 1))) (BoolVal false)].
Proof. intros Hi Hj; unfold exclusion_of; now rewrite cell_declared by lia. Qed.

End Subscripts.

Lemma count_of_Ok_inv (index : forall A : Type, list A -> Z -> result A) xs targets i l :
  count_of index (Ok xs) targets i = Ok l ->
  exists k, index Z targets i = Ok k /\ xs <> [] /\ bound_ok k = true /\
            l = [AtMostE xs (c_uint k); AtLeastE xs (c_uint k)].
Proof.
  unfold count_of; simpl.
  destruct (index Z targets i) as [k|e]; simpl; [|discriminate].
  destruct xs as [|x xs]; simpl; [discriminate|].
  destruct (bound_ok k) eqn:Hk; simpl; [|discriminate].
  intros H; inversion H; subst. exists k; repeat split; congruence.
Qed.

Lemma count_of_nonempty (index : forall A : Type, list A -> Z -> result A) xs targets i k :
  index Z targets i = Ok k -> xs <> [] -> bound_ok k = true ->
  count_of index (Ok xs) targets i = Ok (count_clauses xs (c_uint k)).
Proof.
  intros Hk Hxs Hb; unfold count_of; simpl; rewrite Hk; simpl.
  destruct xs; [congruence|]. simpl; rewrite Hb; reflexivity.
Qed.

Lemma count_of_refused (index : forall A : Type, list A -> Z -> result A) xs targets i k :
  index Z targets i = Ok k -> bound_ok k = false ->
  count_of index (Ok xs) targets i = Raise Z3Exception.
Proof.
  intros Hk Hb; unfold count_of; simpl; rewrite Hk; simpl.
  destruct xs; [reflexivity|]. simpl; rewrite Hb; reflexivity.
Qed.

(** The six phases of a run that returns. *)
Lemma assertions_Ok_inv (index : forall A : Type, list A -> Z -> result A) nrows ncols row_targets col_targets trees s :
  assertions index nrows ncols row_targets col_targets trees = Ok s ->
  let p := declare_vars nrows ncols in
  exists l1 l2 l3 l4 l5 l6,
    flat_mapM (exclusion_of index p) trees = Ok l1 /\
    flat_mapM (row_count_of index p ncols row_targets) (range nrows) = Ok l2 /\
    flat_mapM (col_count_of index p nrows col_targets) (range ncols) = Ok l3 /\
    flat_mapM (fun i => flat_mapM (fun j => adjacency_of index p nrows ncols i j)
                                  (range ncols)) (range nrows) = Ok l4 /\
    flat_mapM (fun i => flat_mapM (fun j => tent_tree_of index p nrows ncols trees i j)
                                  (range ncols)) (range nrows) = Ok l5 /\
    flat_mapM (tree_tent_of index p nrows ncols) trees = Ok l6 /\
    s = l1 ++ l2 ++ l3 ++ l4 ++ l5 ++ l6.
Proof.
  intros H; unfold assertions in H; cbv zeta in *.
  apply rbind_Ok_inv in H as (l1 & H1 & H).
  apply rbind_Ok_inv in H as (l2 & H2 & H).
  apply rbind_Ok_inv in H as (l3 & H3 & H).
  apply rbind_Ok_inv in H as (l4 & H4 & H).
  apply rbind_Ok_inv in H as (l5 & H5 & H).
  apply rbind_Ok_inv in H as (l6 & H6 & H).
  inversion H; subst.
  exists l1, l2, l3, l4, l5, l6; repeat split; assumption.
Qed.

(* ===================================================================== *)
(** ** Models                                                              *)
(* ===================================================================== *)

Lemma satisfies_In m s e : satisfies m s -> In e s -> eval m e = true.
Proof. unfold satisfies; rewrite Forall_forall; auto. Qed.

Lemma satisfiesb_true m s : satisfiesb m s = true <-> satisfies m s.
Proof.
  unfold satisfiesb, satisfies; rewrite forallb_forall, Forall_forall; tauto.
Qed.

Lemma count_true_vars m (name : Z -> string) l :
  count_true (eval m) (map (fun x => Bool (name x)) l)
  = len (filter (fun x => m (name x)) l).
Proof.
  unfold count_true, len; f_equal.
  induction l as [|x l IH]; simpl; [reflexivity|].
  destruct (m (name x)); simpl; congruence.
Qed.

Lemma exactly_k m xs k :
  eval m (AtMostE xs k) = true -> eval m (AtLeastE xs k) = true ->
  count_true (eval m) xs = k.
Proof. simpl; rewrite !Z.leb_le; lia. Qed.

Lemma eval_not_both m a b :
  eval m (not_both a b) = true ->
  ~ (m (var_name (fst a) (snd a)) = true /\ m (var_name (fst b) (snd b)) = true).
Proof.
  unfold not_both; simpl; intros H [Ha Hb]; rewrite Ha, Hb in H; discriminate.
Qed.

Lemma king_adjacent_sym a b : king_adjacent a b -> king_adjacent b a.
Proof. unfold king_adjacent; lia. Qed.

Lemma in_parts A (x : A) l1 l2 l3 l4 l5 l6 :
  In x (l1 ++ l2 ++ l3 ++ l4 ++ l5 ++ l6) <->
  In x l1 \/ In x l2 \/ In x l3 \/ In x l4 \/ In x l5 \/ In x l6.
Proof. rewrite !in_app_iff; tauto. Qed.

Lemma tree_consts_of_eq nrows ncols trees i j :
  tree_consts_of nrows ncols trees i j
  = map (fun n => BoolVal (mem (fst n + 1, snd n + 1) trees))
        (orth_neighbors nrows ncols i j).
Proof. unfold tree_consts_of; apply map_ext; now intros [ni nj]. Qed.

Section Phases.

Variable index : forall A : Type, list A -> Z -> result A.
Hypothesis index_nonneg :
  forall A (l : list A) i, 0 <= i -> index l i = getitem_strict l i.

Lemma adjacency_phase nrows ncols :
  flat_mapM (fun i =>
      flat_mapM (fun j =>
          adjacency_of index (declare_vars nrows ncols) nrows ncols i j)
        (range ncols))
    (range nrows)
  = Ok (adjacency_clauses nrows ncols).
Proof.
  unfold adjacency_clauses.
  apply flat_mapM_pure; intros i Hi; apply in_range in Hi.
  apply flat_mapM_pure; intros j Hj; apply in_range in Hj.
  now apply adjacency_of_declared.
Qed.

Lemma pairing_phase nrows ncols trees :
  flat_mapM (fun i =>
      flat_mapM (fun j =>
          tent_tree_of index (declare_vars nrows ncols) nrows ncols trees i j)
        (range ncols))
    (range nrows)
  = Ok (flat_map (fun i =>
          flat_map (fun j => [pairing_clause nrows ncols trees i j])
                   (range ncols))
          (range nrows)).
Proof.
  apply flat_mapM_pure; intros i Hi; apply in_range in Hi.
  apply flat_mapM_pure; intros j Hj; apply in_range in Hj.
  rewrite tent_tree_of_declared by assumption.
  unfold pairing_clause; now rewrite tree_consts_of_eq.
Qed.

Lemma tree_tent_phase nrows ncols trees :
  flat_mapM (tree_tent_of index (declare_vars nrows ncols) nrows ncols) trees
  = Ok (flat_map (fun t =>
          match orth_neighbors nrows ncols (fst t - 1) (snd t - 1) with
          | [] => []
          | ns => [Or (map (fun n => Bool (var_name (fst n) (snd n))) ns)]
          end) trees).
Proof.
  apply flat_mapM_pure; intros [ti tj] _.
  now rewrite tree_tent_of_declared.
Qed.

End Phases.

(* ===================================================================== *)
(** ** Encoder: cardinality, adjacency, pairing                            *)
(* ===================================================================== *)

Lemma c_uint_small k : 0 <= k < 2 ^ 31 -> c_uint k = k.
Proof. intros H; unfold c_uint; apply Z.mod_small; lia. Qed.

Lemma bound_ok_true k : bound_ok k = true <-> c_uint k < 2 ^ 31.
Proof. unfold bound_ok; apply Z.ltb_lt. Qed.

Lemma bound_ok_small k : 0 <= k < 2 ^ 31 -> bound_ok k = true.
Proof. intros H; apply bound_ok_true; rewrite c_uint_small; lia. Qed.

(** An accepted target of 32-bit size is its own bound. *)
Lemma accepted_bound k :
  bound_ok k = true -> - 2 ^ 31 <= k < 2 ^ 32 -> c_uint k = k.
Proof.
  intros H Hk; apply bound_ok_true in H; unfold c_uint in *.
  destruct (Z_lt_le_dec k 0) as [Hneg|Hpos].
  - exfalso. replace k with (k + 2 ^ 32 + (-1) * 2 ^ 32) in H by lia.
    rewrite Z.mod_add in H by lia. rewrite Z.mod_small in H; lia.
  - apply Z.mod_small; lia.
Qed.

Lemma bound_ok_negative k : - 2 ^ 31 <= k < 0 -> bound_ok k = false.
Proof.
  intros H; unfold bound_ok, c_uint; apply Z.ltb_ge.
  replace k with (k + 2 ^ 32 + (-1) * 2 ^ 32) by lia.
  rewrite Z.mod_add by lia. rewrite Z.mod_small; lia.
Qed.

(** C1, as the code has it.  Whenever [build_solver] returns, every row
    target [row_targets[i]] reduced to the 32 bits of the bound parameter
    is below 2^31; the solver holds both [AtMost] and [AtLeast] over the
    constants of row [i] with that reduced bound; every model of the solver
    places exactly that many tents in row [i], which is [row_targets[i]]
    itself for a target from 0 to 2^31 - 1; likewise for every column [j]
    with [col_targets[j]]. *)
Theorem C1_exact_row_and_column_counts
    nrows ncols row_targets col_targets trees s p :
  build_solver nrows ncols row_targets col_targets trees = Ok (s, p) ->
  (forall i, 0 <= i < nrows ->
     exists k, getitem row_targets i = Ok k /\
       c_uint k < 2 ^ 31 /\
       In (AtMostE (row_vars ncols i) (c_uint k)) s /\
       In (AtLeastE (row_vars ncols i) (c_uint k)) s /\
       (forall m, satisfies m s -> tents_in_row m ncols i = c_uint k) /\
       (0 <= k < 2 ^ 31 ->
        forall m, satisfies m s -> tents_in_row m ncols i = k)) /\
  (forall j, 0 <= j < ncols ->
     exists k, getitem col_targets j = Ok k /\
       c_uint k < 2 ^ 31 /\
       In (AtMostE (col_vars nrows j) (c_uint k)) s /\
       In (AtLeastE (col_vars nrows j) (c_uint k)) s /\
       (forall m, satisfies m s -> tents_in_col m nrows j = c_uint k) /\
       (0 <= k < 2 ^ 31 ->
        forall m, satisfies m s -> tents_in_col m nrows j = k)).
Proof.
  intros H; apply build_solver_Ok in H as [H ->].
  apply assertions_Ok_inv in H
    as (l1 & l2 & l3 & l4 & l5 & l6 & _ & H2 & H3 & _ & _ & _ & ->).
  split.
  - intros i Hi.
    destruct (flat_mapM_Ok_In _ _ i H2) as (lx & Hx & Hincl);
      [now apply in_range|].
    unfold row_count_of in Hx.
    rewrite (@row_line (@getitem) (@getitem_nonneg)) in Hx by assumption.
    apply count_of_Ok_inv in Hx as (k & Hk & _ & Hb & ->).
    assert (Hmost : In (AtMostE (row_vars ncols i) (c_uint k))
                       (l1 ++ l2 ++ l3 ++ l4 ++ l5 ++ l6)).
    { apply in_parts; right; left; apply Hincl; simpl; auto. }
    assert (Hleast : In (AtLeastE (row_vars ncols i) (c_uint k))
                        (l1 ++ l2 ++ l3 ++ l4 ++ l5 ++ l6)).
    { apply in_parts; right; left; apply Hincl; simpl; auto. }
    assert (Hcount : forall m, satisfies m (l1 ++ l2 ++ l3 ++ l4 ++ l5 ++ l6) ->
                               tents_in_row m ncols i = c_uint k).
    { intros m Hm; unfold tents_in_row.
      rewrite <- (count_true_vars m (fun j => var_name i j)).
      apply exactly_k; eapply satisfies_In; eassumption. }
    exists k; repeat split; try assumption.
    + now apply bound_ok_true.
    + intros Hsmall m Hm; rewrite (Hcount m Hm); now apply c_uint_small.
  - intros j Hj.
    destruct (flat_mapM_Ok_In _ _ j H3) as (lx & Hx & Hincl);
      [now apply in_range|].
    unfold col_count_of in Hx.
    rewrite (@col_line (@getitem) (@getitem_nonneg)) in Hx by assumption.
    apply count_of_Ok_inv in Hx as (k & Hk & _ & Hb & ->).
    assert (Hmost : In (AtMostE (col_vars nrows j) (c_uint k))
                       (l1 ++ l2 ++ l3 ++ l4 ++ l5 ++ l6)).
    { apply in_parts; right; right; left; apply Hincl; simpl; auto. }
    assert (Hleast : In (AtLeastE (col_vars nrows j) (c_uint k))
                        (l1 ++ l2 ++ l3 ++ l4 ++ l5 ++ l6)).
    { apply in_parts; right; right; left; apply Hincl; simpl; auto. }
    assert (Hcount : forall m, satisfies m (l1 ++ l2 ++ l3 ++ l4 ++ l5 ++ l6) ->
                               tents_in_col m nrows j = c_uint k).
    { intros m Hm; unfold tents_in_col.
      rewrite <- (count_true_vars m (fun i => var_name i j)).
      apply exactly_k; eapply satisfies_In; eassumption. }
    exists k; repeat split; try assumption.
    + now apply bound_ok_true.
    + intros Hsmall m Hm; rewrite (Hcount m Hm); now apply c_uint_small.
Qed.

Lemma C1_witness :
  exists s p,
    build_solver 2 2 demo_rows demo_cols demo_trees = Ok (s, p) /\
    satisfies demo_model s /\
    tents_in_row demo_model 2 0 = 1 /\ tents_in_row demo_model 2 1 = 0 /\
    tents_in_col demo_model 2 0 = 0 /\ tents_in_col demo_model 2 1 = 1.
Proof.
  eexists; eexists; split; [vm_compute; reflexivity|].
  match goal with |- satisfies _ ?s /\ _ =>
    assert (Hm : satisfies demo_model s)
      by (apply satisfiesb_true; vm_compute; reflexivity)
  end.
  split; [exact Hm|].
  destruct (@C1_exact_row_and_column_counts 2 2 demo_rows demo_cols demo_trees
              _ _ eq_refl) as [Hr Hc].
  destruct (Hr 0 ltac:(lia)) as (k0 & E0 & _ & _ & _ & _ & R0).
  destruct (Hr 1 ltac:(lia)) as (k1 & E1 & _ & _ & _ & _ & R1).
  destruct (Hc 0 ltac:(lia)) as (c0 & F0 & _ & _ & _ & _ & C0).
  destruct (Hc 1 ltac:(lia)) as (c1 & F1 & _ & _ & _ & _ & C1).
  vm_compute in E0, E1, F0, F1.
  inversion E0; inversion E1; inversion F0; inversion F1; subst.
  split; [|split; [|split]]; [apply R0 | apply R1 | apply C0 | apply C1];
    solve [lia | exact Hm].
Defined.

(** The 1x1 grid with no tree and both targets 2^32: the bound parameter
    keeps 0, the solver that [build_solver] returns has the model with no
    tent, and that model does not place 2^32 tents in the row and in the
    column. *)
Lemma C1_counterexample :
  exists s p,
    build_solver 1 1 [2 ^ 32] [2 ^ 32] [] = Ok (s, p) /\
    getitem [2 ^ 32] 0 = Ok (2 ^ 32) /\
    satisfies (fun _ => false) s /\
    tents_in_row (fun _ => false) 1 0 <> 2 ^ 32 /\
    tents_in_col (fun _ => false) 1 0 <> 2 ^ 32.
Proof.
  eexists; eexists; split; [vm_compute; reflexivity|].
  split; [reflexivity|].
  split; [apply satisfiesb_true; vm_compute; reflexivity|].
  split; vm_compute; discriminate.
Qed.

(** C4.  Whenever [build_solver] returns: the generator [all_neighbors]
    yields exactly the king-adjacent cells inside the grid, at most 8 of
    them; for any two king-adjacent cells of the grid the solver holds the
    clause [Or(Not p_a, Not p_b)] in both orientations; no model of the
    solver makes both constants true; and phase 3 contributes exactly one
    clause per cell and neighbour the generator yields. *)
Theorem C4_no_adjacent_tents nrows ncols row_targets col_targets trees s p :
  build_solver nrows ncols row_targets col_targets trees = Ok (s, p) ->
  (forall i j n, In n (all_neighbors nrows ncols i j) <->
                 inside nrows ncols n /\ king_adjacent (i, j) n) /\
  (forall i j, len (all_neighbors nrows ncols i j) <= 8) /\
  (forall a b,
     inside nrows ncols a -> inside nrows ncols b -> king_adjacent a b ->
     In (not_both a b) s /\ In (not_both b a) s /\
     forall m, satisfies m s ->
       ~ (m (var_name (fst a) (snd a)) = true /\
          m (var_name (fst b) (snd b)) = true)) /\
  (exists before after,
     s = before ++ adjacency_clauses nrows ncols ++ after).
Proof.
  intros H; apply build_solver_Ok in H as [H ->].
  apply assertions_Ok_inv in H
    as (l1 & l2 & l3 & l4 & l5 & l6 & _ & _ & _ & H4 & _ & _ & ->).
  rewrite (@adjacency_phase (@getitem) (@getitem_nonneg)) in H4.
  inversion H4; subst l4; clear H4.
  assert (Hin : forall a b,
             inside nrows ncols a -> inside nrows ncols b -> king_adjacent a b ->
             In (not_both a b)
                (l1 ++ l2 ++ l3 ++ adjacency_clauses nrows ncols ++ l5 ++ l6)).
  { intros [i j] b [Hi Hj] Hb Hk; simpl in Hi, Hj.
    apply in_parts; do 3 right; left.
    unfold adjacency_clauses.
    apply in_flat_map; exists i; split; [now apply in_range|].
    apply in_flat_map; exists j; split; [now apply in_range|].
    apply in_map, in_all_neighbors; auto. }
  split; [|split; [|split]].
  - intros i j n; apply in_all_neighbors.
  - intros i j; apply all_neighbors_at_most_8.
  - intros a b Ha Hb Hk; split; [|split].
    + now apply Hin.
    + apply Hin; auto using king_adjacent_sym.
    + intros m Hm; apply eval_not_both.
      eapply satisfies_In; [eassumption|]. now apply Hin.
  - exists (l1 ++ l2 ++ l3), (l5 ++ l6). now rewrite <- !app_assoc.
Qed.

Lemma C4_witness :
  exists s p,
    build_solver 2 2 demo_rows demo_cols demo_trees = Ok (s, p) /\
    In (not_both (0, 1) (1, 0)) s /\ In (not_both (1, 0) (0, 1)) s /\
    forall m, satisfies m s ->
      ~ (m (var_name 0 1) = true /\ m (var_name 1 0) = true).
Proof.
  eexists; eexists; split; [vm_compute; reflexivity|].
  destruct (@C4_no_adjacent_tents 2 2 demo_rows demo_cols demo_trees
              _ _ eq_refl) as (_ & _ & H & _).
  apply (H (0, 1) (1, 0)); unfold inside, king_adjacent; simpl; lia.
Defined.

(** C5.  Whenever [build_solver] returns: for every cell (i, j) of the
    grid the solver holds [Implies(p_i_j, Or(consts))] with one constant
    per cell [orth_neighbors] yields, the constant being true iff the
    1-based coordinate of that neighbour is among the trees; the generator
    yields exactly the cells inside the grid that share an edge with
    (i, j), at most 4 of them; in every model of the solver a true
    constant has a tree on one of those cells, and a cell none of whose
    edge neighbours is a tree has its constant false. *)
Theorem C5_tent_needs_adjacent_tree
    nrows ncols row_targets col_targets trees s p :
  build_solver nrows ncols row_targets col_targets trees = Ok (s, p) ->
  (forall i j n, In n (orth_neighbors nrows ncols i j) <->
                 inside nrows ncols n /\ orth_adjacent (i, j) n) /\
  (forall i j, len (orth_neighbors nrows ncols i j) <= 4) /\
  (forall x, mem x trees = true <-> In x trees) /\
  (forall i j, inside nrows ncols (i, j) ->
     In (pairing_clause nrows ncols trees i j) s /\
     forall m, satisfies m s ->
       (m (var_name i j) = true ->
        exists t, In t trees /\
                  In (fst t - 1, snd t - 1) (orth_neighbors nrows ncols i j)) /\
       ((forall t, In t trees ->
                   ~ orth_adjacent (i, j) (fst t - 1, snd t - 1)) ->
        m (var_name i j) = false)).
Proof.
  intros H; apply build_solver_Ok in H as [H ->].
  apply assertions_Ok_inv in H
    as (l1 & l2 & l3 & l4 & l5 & l6 & _ & _ & _ & _ & H5 & _ & ->).
  rewrite (@pairing_phase (@getitem) (@getitem_nonneg)) in H5.
  inversion H5; subst l5; clear H5.
  split; [|split; [|split]].
  - intros i j n; apply in_orth_neighbors.
  - intros i j; apply orth_neighbors_at_most_4.
  - intros x; apply mem_true.
  - intros i j [Hi Hj]; simpl in Hi, Hj.
    match goal with |- In ?c ?l /\ _ => assert (Hin : In c l) end.
    { apply in_parts; do 4 right; left.
      apply in_flat_map; exists i; split; [now apply in_range|].
      apply in_flat_map; exists j; split; [now apply in_range|].
      simpl; auto. }
    split; [exact Hin|].
    intros m Hm.
    pose proof (@satisfies_In m _ _ Hm Hin) as E; unfold pairing_clause in E; simpl in E.
    assert (Htree : m (var_name i j) = true ->
              exists t, In t trees /\
                In (fst t - 1, snd t - 1) (orth_neighbors nrows ncols i j)).
    { intros Hp; rewrite Hp in E; simpl in E.
      apply existsb_exists in E as (c & Hc & Ec).
      apply in_map_iff in Hc as ([ni nj] & <- & Hn); simpl in Ec.
      apply mem_true in Ec.
      exists (ni + 1, nj + 1); split; [exact Ec|]; simpl.
      replace (ni + 1 - 1) with ni by lia; replace (nj + 1 - 1) with nj by lia.
      exact Hn. }
    split; [exact Htree|].
    intros Hfree.
    destruct (m (var_name i j)); [|reflexivity].
    destruct (Htree eq_refl) as (t & Ht & Hn).
    apply in_orth_neighbors in Hn as [_ Hadj].
    exfalso; exact (Hfree t Ht Hadj).
Qed.

Lemma C5_witness :
  exists s p,
    build_solver 2 2 demo_rows demo_cols demo_trees = Ok (s, p) /\
    In (pairing_clause 2 2 demo_trees 1 1) s /\
    forall m, satisfies m s -> m (var_name 1 1) = false.
Proof.
  eexists; eexists; split; [vm_compute; reflexivity|].
  destruct (@C5_tent_needs_adjacent_tree 2 2 demo_rows demo_cols demo_trees
              _ _ eq_refl) as (_ & _ & _ & H).
  destruct (H 1 1) as [Hin Hfalse]; [unfold inside; simpl; lia|].
  split; [exact Hin|].
  intros m Hm; apply (Hfalse m Hm).
  intros t [<-|[]]; unfold orth_adjacent; simpl; lia.
Defined.

(* ===================================================================== *)
(** ** Encoder on a well-formed grid                                       *)
(* ===================================================================== *)

Lemma getitem_strict_nth A (l : list A) i d :
  0 <= i < len l -> getitem_strict l i = Ok (nth (Z.to_nat i) l d).
Proof.
  intros H; destruct (getitem_strict_Ok l H) as (a & Ha).
  rewrite Ha; f_equal.
  apply getitem_strict_Ok_inv in Ha as [_ Ha].
  symmetry; now apply nth_error_nth.
Qed.

Lemma getitem_nth_cases A (l : list A) i d :
  0 <= i ->
  getitem l i = if i <? len l then Ok (nth (Z.to_nat i) l d)
                else Raise IndexError.
Proof.
  intros Hi; rewrite getitem_nonneg by assumption.
  destruct (Z.ltb_spec i (len l)) as [Hlt|Hge].
  - apply getitem_strict_nth; lia.
  - unfold getitem_strict.
    destruct (Z.leb_spec 0 i); [|lia].
    destruct (Z.ltb_spec i (len l)); [lia | reflexivity].
Qed.

Lemma row_vars_nonempty ncols i : 1 <= ncols -> row_vars ncols i <> [].
Proof.
  intros H E; apply (range_nonempty H).
  unfold row_vars in E; now apply map_eq_nil in E.
Qed.

Lemma col_vars_nonempty nrows j : 1 <= nrows -> col_vars nrows j <> [].
Proof.
  intros H E; apply (range_nonempty H).
  unfold col_vars in E; now apply map_eq_nil in E.
Qed.

Lemma nth_map_c_uint n targets :
  nth n (map c_uint targets) 0 = c_uint (nth n targets 0).
Proof. exact (map_nth c_uint targets 0 n). Qed.

Section WellFormed.

Variable index : forall A : Type, list A -> Z -> result A.
Hypothesis index_nonneg :
  forall A (l : list A) i, 0 <= i -> index l i = getitem_strict l i.

(** The row (column) loop when there is one target per row (column): it
    stops at the first bound the bindings refuse. *)
Lemma count_phase (line : Z -> list expr) targets n
    (f : Z -> result (list expr)) :
  len targets = n ->
  (forall i, 0 <= i < n -> line i <> []) ->
  (forall i, 0 <= i < n -> f i = count_of index (Ok (line i)) targets i) ->
  flat_mapM f (range n)
  = if bounds_ok targets
    then Ok (flat_map (fun i => count_clauses (line i)
                                  (nth (Z.to_nat i) (map c_uint targets) 0))
                      (range n))
    else Raise Z3Exception.
Proof.
  intros Hlen Hne Hf; unfold bounds_ok.
  rewrite <- (forallb_nth_range bound_ok targets 0), Hlen.
  apply flat_mapM_guard; intros i Hi; apply in_range in Hi.
  rewrite (Hf i Hi), nth_map_c_uint.
  assert (Hk : index targets i = Ok (nth (Z.to_nat i) targets 0)).
  { rewrite index_nonneg by lia. apply getitem_strict_nth; lia. }
  destruct (bound_ok (nth (Z.to_nat i) targets 0)) eqn:Hb.
  - now apply count_of_nonempty; [|apply Hne|].
  - now apply count_of_refused with (k := nth (Z.to_nat i) targets 0).
Qed.

Lemma assertions_well_formed nrows ncols row_targets col_targets trees :
  well_formed nrows ncols row_targets col_targets trees ->
  assertions index nrows ncols row_targets col_targets trees
  = if bounds_ok row_targets && bounds_ok col_targets
    then Ok (encoding nrows ncols (map c_uint row_targets)
                      (map c_uint col_targets) trees)
    else Raise Z3Exception.
Proof.
  intros (Hr & Hc & Hlr & Hlc & Ht); unfold assertions, encoding.
  rewrite flat_mapM_pure with
    (g := fun t => [Eq (Bool (var_name (fst t - 1) (snd t - 1))) (BoolVal false)]).
  2:{ intros [ti tj] Hin. rewrite Forall_forall in Ht.
      destruct (Ht _ Hin) as [Hi Hj]; simpl in Hi, Hj.
      now apply exclusion_of_declared. }
  rewrite flat_map_singleton; cbn [rbind].
  rewrite (@count_phase (row_vars ncols) row_targets nrows _ Hlr).
  2:{ intros i _; now apply row_vars_nonempty. }
  2:{ intros i Hi; unfold row_count_of.
      now rewrite (@row_line index index_nonneg). }
  destruct (bounds_ok row_targets); cbn [rbind andb]; [|reflexivity].
  rewrite (@count_phase (col_vars nrows) col_targets ncols _ Hlc).
  2:{ intros j _; now apply col_vars_nonempty. }
  2:{ intros j Hj; unfold col_count_of.
      now rewrite (@col_line index index_nonneg). }
  destruct (bounds_ok col_targets); cbn [rbind]; [|reflexivity].
  rewrite (@adjacency_phase index index_nonneg); cbn [rbind].
  rewrite (@pairing_phase index index_nonneg); cbn [rbind].
  rewrite (@tree_tent_phase index index_nonneg); cbn [rbind].
  reflexivity.
Qed.

End WellFormed.

Lemma build_solver_well_formed_cases
    nrows ncols row_targets col_targets trees :
  well_formed nrows ncols row_targets col_targets trees ->
  build_solver nrows ncols row_targets col_targets trees
  = if bounds_ok row_targets && bounds_ok col_targets
    then Ok (encoding nrows ncols (map c_uint row_targets)
                      (map c_uint col_targets) trees,
             declare_vars nrows ncols)
    else Raise Z3Exception.
Proof.
  intros H; unfold build_solver.
  rewrite build_solver_assertions.
  rewrite (@assertions_well_formed (@getitem) (@getitem_nonneg) _ _ _ _ _ H).
  now destruct (bounds_ok row_targets && bounds_ok col_targets).
Qed.

Lemma build_solver_well_formed nrows ncols row_targets col_targets trees :
  well_formed nrows ncols row_targets col_targets trees ->
  bounds_ok row_targets = true -> bounds_ok col_targets = true ->
  build_solver nrows ncols row_targets col_targets trees
  = Ok (encoding nrows ncols (map c_uint row_targets) (map c_uint col_targets)
                 trees,
        declare_vars nrows ncols).
Proof.
  intros H Hbr Hbc.
  now rewrite (build_solver_well_formed_cases H), Hbr, Hbc.
Qed.

Lemma build_solver_well_formed_inv
    nrows ncols row_targets col_targets trees s p :
  well_formed nrows ncols row_targets col_targets trees ->
  build_solver nrows ncols row_targets col_targets trees = Ok (s, p) ->
  bounds_ok row_targets = true /\ bounds_ok col_targets = true /\
  s = encoding nrows ncols (map c_uint row_targets) (map c_uint col_targets)
               trees /\
  p = declare_vars nrows ncols.
Proof.
  intros H E; rewrite (build_solver_well_formed_cases H) in E.
  destruct (bounds_ok row_targets), (bounds_ok col_targets);
    cbn [andb] in E; try discriminate.
  inversion E; auto.
Qed.

Lemma bounds_ok_refused targets k :
  In k targets -> bound_ok k = false -> bounds_ok targets = false.
Proof.
  intros Hk Hb; unfold bounds_ok.
  destruct (forallb bound_ok targets) eqn:E; [|reflexivity].
  rewrite forallb_forall in E; rewrite (E k Hk) in Hb; discriminate.
Qed.

Lemma bounds_ok_small targets :
  Forall (fun k => 0 <= k < 2 ^ 31) targets -> bounds_ok targets = true.
Proof.
  intros H; unfold bounds_ok; apply forallb_forall; intros k Hk.
  rewrite Forall_forall in H; apply bound_ok_small; auto.
Qed.

Lemma map_c_uint_small targets :
  Forall (fun k => 0 <= k < 2 ^ 31) targets -> map c_uint targets = targets.
Proof.
  induction 1 as [|k l Hk _ IH]; simpl; [reflexivity|].
  now rewrite IH, c_uint_small.
Qed.

(* ===================================================================== *)
(** ** A tree with no neighbour inside the grid                            *)
(* ===================================================================== *)

Lemma orth_neighbors_nil_1x1 nrows ncols i j :
  inside nrows ncols (i, j) -> orth_neighbors nrows ncols i j = [] ->
  nrows = 1 /\ ncols = 1.
Proof.
  intros [Hi Hj] E; simpl in Hi, Hj.
  assert (Hnone : forall n, ~ (inside nrows ncols n /\ orth_adjacent (i, j) n)).
  { intros n Hn; apply in_orth_neighbors in Hn; rewrite E in Hn; exact Hn. }
  split.
  - destruct (Z.eq_dec nrows 1) as [|Hne]; [assumption|exfalso].
    destruct (Z_le_gt_dec 1 i).
    + apply (Hnone (i - 1, j)); unfold inside, orth_adjacent; simpl; lia.
    + apply (Hnone (i + 1, j)); unfold inside, orth_adjacent; simpl; lia.
  - destruct (Z.eq_dec ncols 1) as [|Hne]; [assumption|exfalso].
    destruct (Z_le_gt_dec 1 j).
    + apply (Hnone (i, j - 1)); unfold inside, orth_adjacent; simpl; lia.
    + apply (Hnone (i, j + 1)); unfold inside, orth_adjacent; simpl; lia.
Qed.

Lemma len_1_inv A (l : list A) : len l = 1 -> exists a, l = [a].
Proof.
  destruct l as [|a [|b l]]; unfold len; simpl; intros H; try lia; eauto.
Qed.

Lemma NoDup_constant A (a t : A) l :
  NoDup l -> In t l -> (forall x, In x l -> x = a) -> l = [a].
Proof.
  intros Hnd Hin Hall.
  destruct l as [|x [|y l]]; [easy | |].
  - now rewrite (Hall x (or_introl eq_refl)).
  - exfalso. inversion Hnd as [|? ? Hx _]; subst. apply Hx.
    rewrite (Hall x), <- (Hall y); simpl; auto.
Qed.

Lemma single_tree_solver_sat r c :
  (exists m, satisfies m (single_tree_solver r c)) <-> r = 0 /\ c = 0.
Proof.
  split.
  - intros (m & Hm); unfold satisfies, single_tree_solver in Hm.
    repeat rewrite Forall_cons_iff in Hm.
    destruct Hm as (E & R1 & R2 & C1 & C2 & _).
    simpl in E. apply Bool.eqb_prop in E.
    simpl in R1, R2, C1, C2; unfold count_true in *; simpl in *.
    rewrite E in *; simpl in *.
    apply Z.leb_le in R1, R2, C1, C2. unfold len in *; simpl in *. lia.
  - intros [-> ->]; exists (fun _ => false).
    apply satisfiesb_true; reflexivity.
Qed.

Lemma encoding_single_tree r c :
  encoding 1 1 [r] [c] [(1, 1)] = single_tree_solver r c.
Proof. reflexivity. Qed.

Lemma bounds_ok_one k : bounds_ok [k] = bound_ok k.
Proof. unfold bounds_ok; simpl; apply andb_true_r. Qed.

(** C2, as the code has it.  A tree none of whose four neighbours lies
    inside the grid occurs only on the 1x1 grid; there [build_solver] has
    no error of its own and adds no tree-to-tent assertion for that tree.
    When the bindings accept both targets it returns a solver that holds
    the exclusion, the four cardinality assertions and the implication
    with the empty disjunction, and that has a model exactly when both
    bounds are 0; when they refuse a target, the cardinality call raises.
    Targets from 0 to 2^31 - 1 are accepted and are their own bounds. *)
Theorem C2_isolated_tree_adds_no_pairing
    nrows ncols row_targets col_targets trees t :
  well_formed nrows ncols row_targets col_targets trees ->
  NoDup trees -> In t trees ->
  orth_neighbors nrows ncols (fst t - 1) (snd t - 1) = [] ->
  nrows = 1 /\ ncols = 1 /\
  exists r c,
    row_targets = [r] /\ col_targets = [c] /\ trees = [(1, 1)] /\
    build_solver nrows ncols row_targets col_targets trees
    = (if bound_ok r && bound_ok c
       then Ok (single_tree_solver (c_uint r) (c_uint c), [[p_1_1]])
       else Raise Z3Exception) /\
    ((exists m, satisfies m (single_tree_solver (c_uint r) (c_uint c))) <->
     c_uint r = 0 /\ c_uint c = 0) /\
    (0 <= r < 2 ^ 31 -> 0 <= c < 2 ^ 31 ->
     build_solver nrows ncols row_targets col_targets trees
     = Ok (single_tree_solver r c, [[p_1_1]]) /\
     ((exists m, satisfies m (single_tree_solver r c)) <-> r = 0 /\ c = 0)).
Proof.
  intros Hwf Hnd Hin E.
  pose proof Hwf as (Hr & Hc & Hlr & Hlc & Ht).
  rewrite Forall_forall in Ht.
  assert (Hdim : nrows = 1 /\ ncols = 1).
  { apply (@orth_neighbors_nil_1x1 nrows ncols (fst t - 1) (snd t - 1));
      [|exact E].
    destruct (Ht _ Hin); unfold inside; simpl; lia. }
  destruct Hdim as [-> ->]; split; [reflexivity|split; [reflexivity|]].
  destruct (@len_1_inv _ _ Hlr) as (r & ->).
  destruct (@len_1_inv _ _ Hlc) as (c & ->).
  exists r, c.
  assert (Etrees : trees = [(1, 1)]).
  { apply (@NoDup_constant _ (1, 1) t trees Hnd Hin).
    intros [xi xj] Hx; destruct (Ht _ Hx) as [Hi Hj]; simpl in Hi, Hj.
    f_equal; lia. }
  subst trees.
  assert (Erun : build_solver 1 1 [r] [c] [(1, 1)]
                 = if bound_ok r && bound_ok c
                   then Ok (single_tree_solver (c_uint r) (c_uint c), [[p_1_1]])
                   else Raise Z3Exception).
  { rewrite (build_solver_well_formed_cases Hwf), !bounds_ok_one.
    destruct (bound_ok r && bound_ok c); [|reflexivity].
    cbn [map]; now rewrite encoding_single_tree. }
  split; [reflexivity|]. split; [reflexivity|]. split; [reflexivity|].
  split; [exact Erun|].
  split; [apply single_tree_solver_sat|].
  intros Hsr Hsc; split; [|apply single_tree_solver_sat].
  rewrite Erun, !bound_ok_small by assumption.
  now rewrite !c_uint_small by assumption.
Qed.

Lemma C2_witness :
  build_solver 1 1 [0] [0] [(1, 1)] = Ok (single_tree_solver 0 0, [[p_1_1]]) /\
  exists m, satisfies m (single_tree_solver 0 0).
Proof.
  assert (Hwf : well_formed 1 1 [0] [0] [(1, 1)]).
  { unfold well_formed; repeat split; try reflexivity; try lia.
    repeat constructor; simpl; lia. }
  assert (Hnd : NoDup [(1, 1)]).
  { constructor; [simpl; tauto | constructor]. }
  destruct (@C2_isolated_tree_adds_no_pairing 1 1 [0] [0] [(1, 1)] (1, 1)
              Hwf Hnd (or_introl eq_refl) eq_refl)
    as (_ & _ & r & c & Er & Ec & _ & _ & _ & Hsmall).
  inversion Er; inversion Ec; subst.
  destruct Hsmall as [Hrun Hsat]; [lia | lia |].
  split; [exact Hrun|].
  apply Hsat; split; reflexivity.
Defined.

(** The 1x1 grid whose cell is a tree, with targets 0 and 0: the encoder
    raises nothing and the solver it returns has a model, so no sound
    solver reports it unsatisfiable. *)
Lemma C2_counterexample :
  orth_neighbors 1 1 0 0 = [] /\
  exists s p,
    build_solver 1 1 [0] [0] [(1, 1)] = Ok (s, p) /\
    satisfies (fun _ => false) s.
Proof.
  split; [reflexivity|].
  eexists; eexists; split; [vm_compute; reflexivity|].
  apply satisfiesb_true; reflexivity.
Qed.

(* ===================================================================== *)
(** ** Names of the declared constants                                     *)
(* ===================================================================== *)

Lemma to_int_not_nil n : Z.to_int n <> Decimal.Pos Decimal.Nil /\
                         Z.to_int n <> Decimal.Neg Decimal.Nil.
Proof.
  split; intros E; pose proof E as E0;
    apply (f_equal Z.of_int) in E0; rewrite DecimalZ.of_to in E0;
    simpl in E0; subst n; vm_compute in E; discriminate.
Qed.

Lemma py_str_inj n n' : py_str n = py_str n' -> n = n'.
Proof.
  unfold py_str; intros H; apply DecimalZ.to_int_inj.
  destruct (to_int_not_nil n) as [Hp Hn], (to_int_not_nil n') as [Hp' Hn'].
  pose proof (@NilZero.isi _ Hp Hn) as E; rewrite H, (@NilZero.isi _ Hp' Hn') in E.
  now inversion E.
Qed.

Lemma string_of_uint_no_underscore d :
  contains "_" (NilEmpty.string_of_uint d) = false.
Proof. induction d; simpl; auto. Qed.

Lemma py_str_no_underscore n : contains "_" (py_str n) = false.
Proof.
  unfold py_str, NilZero.string_of_int, NilZero.string_of_uint.
  destruct (Z.to_int n) as [d|d]; destruct d; simpl;
    auto using string_of_uint_no_underscore.
Qed.

Lemma split_at_underscore a a' b b' :
  contains "_" a = false -> contains "_" a' = false ->
  (a ++ String "_" b)%string = (a' ++ String "_" b')%string ->
  a = a' /\ b = b'.
Proof.
  revert a'; induction a as [|x a IH]; intros [|x' a'] Ha Ha' E;
    simpl in E; cbn [contains] in Ha, Ha'.
  - injection E as Erest; auto.
  - injection E as Ex Erest.
    subst x'; rewrite Ascii.eqb_refl in Ha'; discriminate.
  - injection E as Ex Erest.
    subst x; rewrite Ascii.eqb_refl in Ha; discriminate.
  - injection E as Ex Erest; subst x'.
    destruct (Ascii.eqb "_" x); [discriminate|].
    destruct (IH a' Ha Ha' Erest) as [-> ->]; auto.
Qed.

Lemma var_name_inj i j i' j' :
  var_name i j = var_name i' j' -> i = i' /\ j = j'.
Proof.
  unfold var_name; simpl; intros E; inversion E as [E'].
  apply split_at_underscore in E' as [Ei Ej];
    try apply py_str_no_underscore.
  apply py_str_inj in Ei, Ej; lia.
Qed.

Lemma NoDup_map_inj A B (f : A -> B) l :
  (forall x y, f x = f y -> x = y) -> NoDup l -> NoDup (map f l).
Proof.
  intros Hinj; induction 1 as [|x l Hx _ IH]; simpl; constructor; [|exact IH].
  intros Hin; apply in_map_iff in Hin as (y & Hy & Hin).
  apply Hinj in Hy; subst; contradiction.
Qed.

Lemma NoDup_range n : NoDup (range n).
Proof.
  unfold range; apply NoDup_map_inj; [intros; lia | apply seq_NoDup].
Qed.

Lemma NoDup_grid A B C (f : A -> B -> C) l1 l2 :
  (forall a b a' b', f a b = f a' b' -> a = a' /\ b = b') ->
  NoDup l1 -> NoDup l2 ->
  NoDup (List.concat (map (fun a => map (f a) l2) l1)).
Proof.
  intros Hinj H1 H2; induction H1 as [|x l1 Hx _ IH]; simpl; [constructor|].
  apply NoDup_app; [|exact IH|].
  - apply NoDup_map_inj; [|exact H2]. intros b b' E; now apply Hinj in E.
  - intros c Hc Hc'.
    apply in_map_iff in Hc as (b & <- & _).
    apply in_concat in Hc' as (l & Hl & Hin).
    apply in_map_iff in Hl as (a' & <- & Ha').
    apply in_map_iff in Hin as (b' & E & _).
    apply Hinj in E as [-> _]; contradiction.
Qed.

Lemma declared_distinct nrows ncols : NoDup (List.concat (declare_vars nrows ncols)).
Proof.
  unfold declare_vars.
  apply (@NoDup_grid _ _ _ (fun i j => Bool (var_name i j)));
    auto using NoDup_range.
  intros a b a' b' E; apply var_name_inj; congruence.
Qed.

Lemma length_grid A B C (f : A -> B -> C) l1 l2 :
  List.length (List.concat (map (fun a => map (f a) l2) l1))
  = (List.length l1 * List.length l2)%nat.
Proof.
  induction l1 as [|x l1 IH]; simpl; [reflexivity|].
  now rewrite length_app, length_map, IH.
Qed.

Lemma declared_count nrows ncols :
  len (List.concat (declare_vars nrows ncols)) = Z.max 0 nrows * Z.max 0 ncols.
Proof.
  unfold declare_vars, len.
  rewrite (@length_grid _ _ _ (fun i j => Bool (var_name i j))).
  rewrite Nat2Z.inj_mul; fold (len (range nrows)); fold (len (range ncols)).
  now rewrite !len_range.
Qed.

(* ===================================================================== *)
(** ** Two runs on one grid                                                *)
(* ===================================================================== *)

Lemma flat_mapM_Permutation A B (f : A -> result (list B)) xs ys :
  Permutation xs ys ->
  forall l, flat_mapM f xs = Ok l ->
            exists l', flat_mapM f ys = Ok l' /\ Permutation l l'.
Proof.
  induction 1 as [|x xs ys _ IH|x y xs|xs ys zs _ IH1 _ IH2]; intros l H.
  - exists l; auto.
  - simpl in H.
    apply rbind_Ok_inv in H as (lx & Hx & H).
    apply rbind_Ok_inv in H as (l0 & H0 & H); inversion H; subst.
    destruct (IH _ H0) as (l0' & H0' & HP).
    exists (lx ++ l0'); simpl; rewrite Hx, H0'; simpl.
    split; [reflexivity | now apply Permutation_app_head].
  - simpl in H.
    apply rbind_Ok_inv in H as (ly & Hy & H).
    apply rbind_Ok_inv in H as (l1 & H1 & H); inversion H; subst; clear H.
    apply rbind_Ok_inv in H1 as (lx & Hx & H).
    apply rbind_Ok_inv in H as (l0 & H0 & H); inversion H; subst; clear H.
    exists (lx ++ ly ++ l0); simpl; rewrite Hx, Hy, H0; simpl.
    split; [reflexivity | apply Permutation_app_swap_app].
  - destruct (IH1 _ H) as (l1 & H1 & HP1).
    destruct (IH2 _ H1) as (l2 & H2 & HP2).
    exists l2; split; [assumption | now transitivity l1].
Qed.

Lemma tree_consts_of_Permutation nrows ncols i j trees trees' :
  Permutation trees trees' ->
  tree_consts_of nrows ncols trees i j = tree_consts_of nrows ncols trees' i j.
Proof.
  intros HP; unfold tree_consts_of; apply map_ext; intros [ni nj].
  now rewrite (mem_Permutation _ HP).
Qed.

(** C8.  Two runs of [build_solver] on one grid, the set of trees being
    enumerated in any two orders: if one returns, so does the other, with
    the same matrix of rows x cols pairwise distinct constants and with
    the same assertions up to order, hence equally many. *)
Theorem C8_reencoding_same_structure
    nrows ncols row_targets col_targets trees trees' s p :
  Permutation trees trees' ->
  build_solver nrows ncols row_targets col_targets trees = Ok (s, p) ->
  exists s',
    build_solver nrows ncols row_targets col_targets trees' = Ok (s', p) /\
    len (List.concat p) = Z.max 0 nrows * Z.max 0 ncols /\
    NoDup (List.concat p) /\
    Permutation s s' /\
    len s' = len s.
Proof.
  intros HP H; apply build_solver_Ok in H as [H ->].
  apply assertions_Ok_inv in H
    as (l1 & l2 & l3 & l4 & l5 & l6 & H1 & H2 & H3 & H4 & H5 & H6 & ->).
  destruct (flat_mapM_Permutation _ HP H1) as (l1' & H1' & P1).
  destruct (flat_mapM_Permutation _ HP H6) as (l6' & H6' & P6).
  assert (H5' :
    flat_mapM (fun i =>
        flat_mapM (fun j =>
            tent_tree_of (@getitem) (declare_vars nrows ncols) nrows ncols
                         trees' i j) (range ncols)) (range nrows) = Ok l5).
  { rewrite <- H5. apply flat_mapM_ext_in; intros i _.
    apply flat_mapM_ext_in; intros j _.
    unfold tent_tree_of.
    now rewrite (tree_consts_of_Permutation nrows ncols i j HP). }
  exists (l1' ++ l2 ++ l3 ++ l4 ++ l5 ++ l6').
  assert (P : Permutation (l1 ++ l2 ++ l3 ++ l4 ++ l5 ++ l6)
                          (l1' ++ l2 ++ l3 ++ l4 ++ l5 ++ l6')).
  { apply Permutation_app; [exact P1|].
    repeat apply Permutation_app_head. exact P6. }
  split; [|split; [|split; [|split]]].
  - apply build_solver_Ok; split; [|reflexivity].
    unfold assertions; cbv zeta.
    rewrite H1'; simpl. rewrite H2; simpl. rewrite H3; simpl.
    rewrite H4; simpl. rewrite H5'; simpl. rewrite H6'; reflexivity.
  - apply declared_count.
  - apply declared_distinct.
  - exact P.
  - unfold len; f_equal; symmetry; now apply Permutation_length.
Qed.

Lemma C8_witness :
  exists s s' p,
    build_solver 2 2 [1; 1] [1; 1] [(1, 1); (2, 2)] = Ok (s, p) /\
    build_solver 2 2 [1; 1] [1; 1] [(2, 2); (1, 1)] = Ok (s', p) /\
    len (List.concat p) = 4 /\ len s' = len s.
Proof.
  destruct (@C8_reencoding_same_structure 2 2 [1; 1] [1; 1]
              [(1, 1); (2, 2)] [(2, 2); (1, 1)] _ _
              (perm_swap _ _ _) eq_refl)
    as (s' & Hrun & Hcount & _ & _ & Hlen).
  eexists; exists s'; eexists.
  split; [vm_compute; reflexivity|].
  split; [exact Hrun|]. split; [exact Hcount | exact Hlen].
Defined.

(* ===================================================================== *)
(** ** Loader                                                              *)
(* ===================================================================== *)

Lemma getitem_head A (a : A) l : getitem (a :: l) 0 = Ok a.
Proof.
  rewrite getitem_nonneg by lia.
  rewrite (@getitem_strict_nth _ _ 0 a); [reflexivity|].
  unfold len; simpl; lia.
Qed.

Lemma slice_tail A (a : A) l : slice (a :: l) 1 (len (a :: l)) = l.
Proof.
  unfold slice.
  assert (Hl : len (a :: l) = 1 + len l) by (unfold len; cbn [List.length]; lia).
  pose proof (len_nonneg l).
  rewrite Hl.
  destruct (Z.ltb_spec 1 0); [lia|].
  destruct (Z.ltb_spec (1 + len l) 0); [lia|].
  rewrite !Z.min_l by lia.
  replace (Z.to_nat 1) with 1%nat by reflexivity; simpl skipn.
  replace (Z.to_nat (1 + len l - 1)) with (List.length l) by (unfold len; lia).
  apply firstn_all.
Qed.

Lemma slice_markers A (row : list A) ncols :
  0 <= ncols -> ncols + 1 <= len row ->
  slice row 1 (1 + ncols) = firstn (Z.to_nat ncols) (tl row).
Proof.
  intros Hn Hl; unfold slice.
  destruct (Z.ltb_spec 1 0); [lia|].
  destruct (Z.ltb_spec (1 + ncols) 0); [lia|].
  rewrite !Z.min_l by lia.
  replace (Z.to_nat 1) with 1%nat by reflexivity.
  replace (1 + ncols - 1) with ncols by lia.
  now destruct row.
Qed.

Lemma len_markers ncols row :
  0 <= ncols -> ncols + 1 <= len row -> len (markers ncols row) = ncols.
Proof.
  intros Hn Hl; unfold markers, len in *.
  rewrite length_firstn. destruct row; simpl in *; lia.
Qed.

Lemma ints_spec (ts : list string) :
  (exists ns, Forall2 (fun t n => int_literal t = Some n) ts ns /\
              mapM py_int ts = Ok ns) \/
  (Exists (fun t => int_literal t = None) ts /\
   mapM py_int ts = Raise ValueError).
Proof.
  induction ts as [|t ts IH]; simpl.
  - left; exists []; auto.
  - unfold py_int at 1 3.
    destruct (int_literal t) as [n|] eqn:Et; simpl.
    + destruct IH as [(ns & HF & ->)|(HE & ->)]; simpl.
      * left; exists (n :: ns); auto.
      * right; auto.
    + right; auto.
Qed.

Lemma Forall2_len A B (R : A -> B -> Prop) xs ys :
  Forall2 R xs ys -> len ys = len xs.
Proof. intros H; unfold len; f_equal; symmetry; eapply Forall2_length; eauto. Qed.

Lemma rows_loop_spec ncols rows : 0 <= ncols ->
  forall rts bd,
  (exists ns,
      Forall (fun r => ncols + 1 <= len r) rows /\
      Forall2 row_target_is rows ns /\
      rows_loop ncols rows rts bd
      = Ok (rts ++ ns, bd ++ map (markers ncols) rows)) \/
  (Exists (rejected_row ncols) rows /\
   rows_loop ncols rows rts bd = Raise ValueError).
Proof.
  intros Hn; induction rows as [|row rows IH]; intros rts bd;
    cbn [rows_loop map].
  - left; exists []; rewrite !app_nil_r; auto.
  - destruct (Z.ltb_spec (len row) (ncols + 1)) as [Hshort|Hlong].
    + right; split; [left; left; assumption | reflexivity].
    + destruct row as [|t row'];
        [unfold len in Hlong; cbn [List.length] in Hlong; lia|].
      rewrite getitem_head; cbn [rbind].
      unfold py_int.
      destruct (int_literal t) as [n|] eqn:Et; cbn [rbind].
      * rewrite slice_markers by assumption.
        fold (markers ncols (t :: row')).
        destruct (IH (rts ++ [n]) (bd ++ [markers ncols (t :: row')]))
          as [(ns & HF & HF2 & ->)|(HE & ->)].
        -- left; exists (n :: ns); split; [|split].
           ++ constructor; assumption.
           ++ constructor; [exact Et | assumption].
           ++ now rewrite <- !app_assoc.
        -- right; split; [right; assumption | reflexivity].
      * right; split; [left; right; exact Et | reflexivity].
Qed.

Lemma board_shape ncols rows :
  0 <= ncols -> Forall (fun r => ncols + 1 <= len r) rows ->
  Forall (fun r => len r = ncols) (map (markers ncols) rows).
Proof.
  intros Hn HF; apply Forall_map.
  eapply Forall_impl; [|exact HF]. intros r Hr; now apply len_markers.
Qed.

Lemma collect_trees_Ok nrows ncols bd :
  len bd = nrows -> Forall (fun r => len r = ncols) bd ->
  exists trees, collect_trees nrows ncols bd = Ok trees.
Proof.
  intros Hb Hr; unfold collect_trees.
  eexists.
  apply flat_mapM_pure with
    (g := fun i => flat_map (fun j =>
            if String.eqb (nth (Z.to_nat j) (nth (Z.to_nat i) bd []) EmptyString)
                          tree_marker
            then [(i + 1, j + 1)] else []) (range ncols)).
  intros i Hi; apply in_range in Hi.
  apply flat_mapM_pure; intros j Hj; apply in_range in Hj.
  rewrite getitem_nonneg, (@getitem_strict_nth _ bd i []) by lia; simpl.
  assert (Hrow : len (nth (Z.to_nat i) bd []) = ncols).
  { rewrite Forall_forall in Hr; apply Hr, nth_In; unfold len in *; lia. }
  now rewrite getitem_nonneg, (@getitem_strict_nth _ _ j EmptyString) by lia.
Qed.

Lemma collect_trees_bounds nrows ncols bd trees :
  collect_trees nrows ncols bd = Ok trees ->
  Forall (fun t => 1 <= fst t <= nrows /\ 1 <= snd t <= ncols) trees.
Proof.
  intros H; apply Forall_forall; intros t Ht.
  destruct (flat_mapM_Ok_elem _ _ _ H Ht) as (i & li & Hi & Hli & Hti).
  destruct (flat_mapM_Ok_elem _ _ _ Hli Hti) as (j & lj & Hj & Hlj & Htj).
  apply in_range in Hi, Hj.
  apply rbind_Ok_inv in Hlj as (r & _ & Hlj).
  apply rbind_Ok_inv in Hlj as (c & _ & Hlj).
  inversion Hlj; subst lj.
  destruct (String.eqb c tree_marker); [|destruct Htj].
  destruct Htj as [<-|[]]; simpl; lia.
Qed.

(** What [parse_tokens] does with a table of tokens. *)
Lemma parse_tokens_spec hdr rows :
  (exists cts rts trees,
      Forall2 (fun t n => int_literal t = Some n) hdr cts /\
      Forall (fun r => len hdr + 1 <= len r) rows /\
      Forall2 row_target_is rows rts /\
      collect_trees (len rows) (len hdr) (map (markers (len hdr)) rows)
      = Ok trees /\
      parse_tokens (hdr :: rows)
      = Ok (Puzzle (len rows) (len hdr) rts cts
                   (map (markers (len hdr)) rows) trees)) \/
  ((Exists (fun t => int_literal t = None) hdr \/
    Exists (rejected_row (len hdr)) rows) /\
   parse_tokens (hdr :: rows) = Raise ValueError).
Proof.
  unfold parse_tokens; rewrite getitem_head, slice_tail; simpl.
  destruct (ints_spec hdr) as [(cts & Hc & ->)|(HE & ->)]; simpl;
    [|right; auto].
  rewrite (Forall2_len Hc).
  destruct (@rows_loop_spec (len hdr) rows (len_nonneg hdr) [] [])
    as [(rts & Hlong & Hr & ->)|(HE & ->)]; simpl; [|right; auto].
  rewrite len_map.
  destruct (@collect_trees_Ok (len rows) (len hdr) (map (markers (len hdr)) rows))
    as (trees & Ht).
  { apply len_map. }
  { apply board_shape; [apply len_nonneg | assumption]. }
  rewrite Ht; simpl.
  left; exists cts, rts, trees; auto.
Qed.

Lemma Forall2_Some_unique A B (g : A -> option B) xs ys ys' :
  Forall2 (fun x y => g x = Some y) xs ys ->
  Forall2 (fun x y => g x = Some y) xs ys' -> ys = ys'.
Proof.
  intros H; revert ys'; induction H as [|x y xs ys Hxy _ IH]; intros ys' H'.
  - now inversion H'.
  - inversion H' as [|? y' ? ys0 Hxy' H0]; subst.
    f_equal; [congruence | now apply IH].
Qed.

Lemma Forall2_Some_not_None A B (g : A -> option B) xs ys :
  Forall2 (fun x y => g x = Some y) xs ys ->
  ~ Exists (fun x => g x = None) xs.
Proof.
  induction 1 as [|x y xs ys Hxy _ IH]; intros HE; inversion HE; subst.
  - congruence.
  - now apply IH.
Qed.

Lemma accepted_rows_not_rejected ncols rows rts :
  Forall (fun r => ncols + 1 <= len r) rows ->
  Forall2 row_target_is rows rts ->
  ~ Exists (rejected_row ncols) rows.
Proof.
  intros HF HF2 HE; apply Exists_exists in HE as (r & Hr & [Hshort|Hbad]).
  - rewrite Forall_forall in HF; specialize (HF _ Hr); lia.
  - apply (@Forall2_Some_not_None _ _ (fun r => int_literal (hd EmptyString r)) _ _ HF2).
    apply Exists_exists; eauto.
Qed.

(** C3, as the code has it.  For a text with at least one non-blank line,
    [parse_puzzle] raises ValueError exactly when a header token is not an
    integer literal, or some data row has fewer than cols+1 tokens or a
    first token that is not an integer literal; it raises nothing else.
    Signed literals are integer literals, and longer rows are accepted. *)
Theorem C3_loader_rejections text hdr rows :
  tokenize text = hdr :: rows ->
  (parse_puzzle text = Raise ValueError <->
   Exists (fun t => int_literal t = None) hdr \/
   Exists (rejected_row (len hdr)) rows) /\
  (forall e, parse_puzzle text = Raise e -> e = ValueError).
Proof.
  intros Htok; unfold parse_puzzle; rewrite Htok.
  destruct (parse_tokens_spec hdr rows)
    as [(cts & rts & trees & Hc & Hlong & Hr & _ & ->)|(Hbad & ->)].
  - split; [split; [discriminate|] | discriminate].
    intros [HE|HE]; exfalso.
    + exact (@Forall2_Some_not_None _ _ _ _ _ Hc HE).
    + exact (@accepted_rows_not_rejected _ _ _ Hlong Hr HE).
  - split; [tauto|]. intros e E; now inversion E.
Qed.

Lemma C3_witness : parse_puzzle short_row_text = Raise ValueError.
Proof.
  assert (Htok : tokenize short_row_text
                 = (["1"; "0"] :: [["1"; "T"]; ["0"; "."; "."]])%string)
    by (vm_compute; reflexivity).
  apply (proj1 (C3_loader_rejections _ Htok)).
  right; left; left; vm_compute; reflexivity.
Defined.

(** A data row with cols+3 tokens is accepted, and so is the row target
    -1: neither input makes [parse_puzzle] raise. *)
Lemma C3_counterexample :
  (exists hdr row rows pz,
      tokenize extra_tokens_text = hdr :: row :: rows /\
      len row <> len hdr + 1 /\
      parse_puzzle extra_tokens_text = Ok pz) /\
  (exists pz,
      parse_puzzle negative_target_text = Ok pz /\
      pz.(row_targets) = [-1]).
Proof.
  split.
  - do 4 eexists; split; [vm_compute; reflexivity|].
    split; [vm_compute; discriminate | vm_compute; reflexivity].
  - eexists; split; vm_compute; reflexivity.
Qed.

(** C9.  When the header and every row target read as integers and every
    data row has at least cols+1 tokens, [parse_puzzle] returns: the row
    target is the first token, the markers are the next cols tokens, and
    whatever follows them in a row does not enter the result. *)
Theorem C9_extra_tokens_ignored text hdr rows cts rts :
  tokenize text = hdr :: rows ->
  Forall2 (fun t n => int_literal t = Some n) hdr cts ->
  Forall2 row_target_is rows rts ->
  Forall (fun r => len hdr + 1 <= len r) rows ->
  exists trees,
    collect_trees (len rows) (len hdr) (map (markers (len hdr)) rows)
    = Ok trees /\
    parse_puzzle text
    = Ok (Puzzle (len rows) (len hdr) rts cts
                 (map (fun r => firstn (Z.to_nat (len hdr)) (tl r)) rows)
                 trees).
Proof.
  intros Htok Hc Hr Hlong; unfold parse_puzzle; rewrite Htok.
  destruct (parse_tokens_spec hdr rows)
    as [(cts' & rts' & trees & Hc' & _ & Hr' & Ht & ->)|([HE|HE] & _)].
  - exists trees; split; [exact Ht|].
    rewrite (@Forall2_Some_unique _ _ _ _ _ _ Hc Hc').
    now rewrite (@Forall2_Some_unique _ _ (fun r => int_literal (hd EmptyString r)) _ _ _ Hr Hr').
  - exfalso; exact (@Forall2_Some_not_None _ _ _ _ _ Hc HE).
  - exfalso; exact (@accepted_rows_not_rejected _ _ _ Hlong Hr HE).
Qed.

Lemma C9_witness :
  parse_puzzle extra_tokens_text
  = Ok (Puzzle 2 2 [1; 0] [1; 0] [["T"; "."]; ["."; "."]]%string [(1, 1)]).
Proof.
  assert (Htok : tokenize extra_tokens_text
                 = (["1"; "0"]
                    :: [["1"; "T"; "."; "x"; "y"]; ["0"; "."; "."]])%string)
    by (vm_compute; reflexivity).
  destruct (@C9_extra_tokens_ignored extra_tokens_text _ _ [1; 0] [1; 0] Htok)
    as (trees & Ht & Hp).
  - repeat constructor.
  - repeat constructor.
  - repeat constructor; vm_compute; discriminate.
  - vm_compute in Ht; inversion Ht; subst trees. exact Hp.
Defined.

(* ===================================================================== *)
(** ** Every subscript of the encoder is in range                          *)
(* ===================================================================== *)

Lemma cell_agree p i j :
  0 <= i -> 0 <= j -> cell (@getitem_strict) p i j = cell (@getitem) p i j.
Proof.
  intros Hi Hj; unfold cell; rewrite getitem_nonneg by lia.
  destruct (getitem_strict p i); simpl; [|reflexivity].
  now rewrite getitem_nonneg by lia.
Qed.

Lemma count_of_agree line targets i :
  0 <= i ->
  count_of (@getitem_strict) line targets i = count_of (@getitem) line targets i.
Proof. intros Hi; unfold count_of; now rewrite getitem_nonneg. Qed.

Lemma getitem_strict_nonneg A (l : list A) i :
  0 <= i -> getitem_strict l i = getitem_strict l i.
Proof. reflexivity. Qed.

Lemma assertions_agree nrows ncols row_targets col_targets trees :
  Forall (fun t => 1 <= fst t /\ 1 <= snd t) trees ->
  assertions (@getitem_strict) nrows ncols row_targets col_targets trees
  = assertions (@getitem) nrows ncols row_targets col_targets trees.
Proof.
  intros Ht; unfold assertions; cbv zeta.
  set (p := declare_vars nrows ncols).
  assert (E1 : flat_mapM (exclusion_of (@getitem_strict) p) trees
               = flat_mapM (exclusion_of (@getitem) p) trees).
  { apply flat_mapM_ext_in; intros [ti tj] Hin.
    rewrite Forall_forall in Ht; destruct (Ht _ Hin) as [Hi Hj]; simpl in *.
    unfold exclusion_of; now rewrite cell_agree by lia. }
  assert (E2 : flat_mapM (row_count_of (@getitem_strict) p ncols row_targets)
                         (range nrows)
               = flat_mapM (row_count_of (@getitem) p ncols row_targets)
                           (range nrows)).
  { apply flat_mapM_ext_in; intros i Hi; apply in_range in Hi.
    unfold row_count_of; rewrite count_of_agree by lia; f_equal.
    apply mapM_ext_in; intros j Hj; apply in_range in Hj.
    apply cell_agree; lia. }
  assert (E3 : flat_mapM (col_count_of (@getitem_strict) p nrows col_targets)
                         (range ncols)
               = flat_mapM (col_count_of (@getitem) p nrows col_targets)
                           (range ncols)).
  { apply flat_mapM_ext_in; intros j Hj; apply in_range in Hj.
    unfold col_count_of; rewrite count_of_agree by lia; f_equal.
    apply mapM_ext_in; intros i Hi; apply in_range in Hi.
    apply cell_agree; lia. }
  rewrite E1, E2, E3; subst p.
  rewrite (@adjacency_phase (@getitem_strict) getitem_strict_nonneg),
          (@adjacency_phase (@getitem) (@getitem_nonneg)),
          (@pairing_phase (@getitem_strict) getitem_strict_nonneg),
          (@pairing_phase (@getitem) (@getitem_nonneg)),
          (@tree_tent_phase (@getitem_strict) getitem_strict_nonneg),
          (@tree_tent_phase (@getitem) (@getitem_nonneg)).
  reflexivity.
Qed.

Section NoIndexError.

Variable index : forall A : Type, list A -> Z -> result A.
Hypothesis index_nonneg :
  forall A (l : list A) i, 0 <= i -> index l i = getitem_strict l i.

Lemma count_of_raises xs targets i e :
  0 <= i < len targets ->
  count_of index (Ok xs) targets i = Raise e -> e = Z3Exception.
Proof.
  intros Hi; unfold count_of; simpl.
  rewrite index_nonneg by lia.
  destruct (getitem_strict_Ok targets Hi) as (k & ->); simpl.
  destruct xs; simpl; [intros E; now inversion E|].
  destruct (bound_ok k); simpl; intros E; now inversion E.
Qed.

Lemma assertions_no_index_error nrows ncols row_targets col_targets trees :
  len row_targets = nrows -> len col_targets = ncols ->
  Forall (fun t => 1 <= fst t <= nrows /\ 1 <= snd t <= ncols) trees ->
  assertions index nrows ncols row_targets col_targets trees
  <> Raise IndexError.
Proof.
  intros Hlr Hlc Ht; unfold assertions; cbv zeta.
  rewrite flat_mapM_pure with
    (g := fun t => [Eq (Bool (var_name (fst t - 1) (snd t - 1))) (BoolVal false)]).
  2:{ intros [ti tj] Hin. rewrite Forall_forall in Ht.
      destruct (Ht _ Hin) as [Hi Hj]; simpl in Hi, Hj.
      now apply exclusion_of_declared. }
  simpl.
  destruct (flat_mapM _ (range nrows)) as [l2|e] eqn:E2; simpl.
  2:{ apply flat_mapM_Raise in E2 as (i & Hi & E2); apply in_range in Hi.
      unfold row_count_of in E2.
      rewrite (@row_line index index_nonneg) in E2 by assumption.
      apply count_of_raises in E2; [subst; discriminate | lia]. }
  destruct (flat_mapM _ (range ncols)) as [l3|e] eqn:E3; simpl.
  2:{ apply flat_mapM_Raise in E3 as (j & Hj & E3); apply in_range in Hj.
      unfold col_count_of in E3.
      rewrite (@col_line index index_nonneg) in E3 by assumption.
      apply count_of_raises in E3; [subst; discriminate | lia]. }
  rewrite (@adjacency_phase index index_nonneg); simpl.
  rewrite (@pairing_phase index index_nonneg); simpl.
  rewrite (@tree_tent_phase index index_nonneg); simpl.
  discriminate.
Qed.

End NoIndexError.

(** Shape of what [parse_puzzle] returns. *)
Lemma parse_puzzle_Ok_inv text pz :
  parse_puzzle text = Ok pz ->
  exists hdr rows,
    tokenize text = hdr :: rows /\
    pz.(nrows) = len rows /\ pz.(ncols) = len hdr /\
    len pz.(row_targets) = len rows /\ len pz.(col_targets) = len hdr /\
    pz.(board) = map (markers (len hdr)) rows /\
    Forall (fun r => len hdr + 1 <= len r) rows /\
    Forall (fun t => 1 <= fst t <= len rows /\ 1 <= snd t <= len hdr)
           pz.(tree_positions).
Proof.
  unfold parse_puzzle; intros H.
  destruct (tokenize text) as [|hdr rows]; [discriminate|].
  destruct (parse_tokens_spec hdr rows)
    as [(cts & rts & trees & Hc & Hlong & Hr & Ht & E)|(_ & E)];
    rewrite E in H; [|discriminate].
  inversion H; subst pz; clear H E.
  exists hdr, rows; cbn [nrows ncols row_targets col_targets board tree_positions].
  repeat match goal with |- _ /\ _ => split end; try reflexivity.
  - exact (Forall2_len Hr).
  - exact (Forall2_len Hc).
  - exact Hlong.
  - exact (collect_trees_bounds _ _ _ Ht).
Qed.

(** C10.  For the grid [parse_puzzle] returns: every tree lies in
    [1,rows] x [1,cols]; there is one target per row and per column; the
    board has [rows] rows of exactly [cols] markers; both neighbour
    generators yield only cells inside the grid; and [build_solver] behaves
    the same when every subscript is checked against [0, len), without
    IndexError: no subscript leaves its range or wraps around. *)
Theorem C10_subscripts_in_range text pz :
  parse_puzzle text = Ok pz ->
  let nr := pz.(nrows) in
  let nc := pz.(ncols) in
  Forall (fun t => 1 <= fst t <= nr /\ 1 <= snd t <= nc) pz.(tree_positions) /\
  len pz.(row_targets) = nr /\ len pz.(col_targets) = nc /\
  len pz.(board) = nr /\ Forall (fun r => len r = nc) pz.(board) /\
  (forall i j ni nj, In (ni, nj) (all_neighbors nr nc i j) ->
                     0 <= ni < nr /\ 0 <= nj < nc) /\
  (forall i j ni nj, In (ni, nj) (orth_neighbors nr nc i j) ->
                     0 <= ni < nr /\ 0 <= nj < nc) /\
  build_solver_strict nr nc pz.(row_targets) pz.(col_targets) pz.(tree_positions)
  = build_solver nr nc pz.(row_targets) pz.(col_targets) pz.(tree_positions) /\
  build_solver nr nc pz.(row_targets) pz.(col_targets) pz.(tree_positions)
  <> Raise IndexError.
Proof.
  intros H.
  destruct (parse_puzzle_Ok_inv _ H)
    as (hdr & rows & _ & Enr & Enc & Hlr & Hlc & Eb & Hlong & Hb).
  cbv zeta; rewrite Enr, Enc, Eb.
  repeat match goal with |- _ /\ _ => split end.
  - exact Hb.
  - exact Hlr.
  - exact Hlc.
  - apply len_map.
  - apply board_shape; [apply len_nonneg | exact Hlong].
  - intros i j ni nj; apply all_neighbors_inside.
  - intros i j ni nj; apply orth_neighbors_inside.
  - unfold build_solver_strict, build_solver.
    rewrite !build_solver_assertions, assertions_agree; [reflexivity|].
    eapply Forall_impl; [|exact Hb]. simpl; intros t; lia.
  - unfold build_solver; rewrite build_solver_assertions.
    pose proof (@assertions_no_index_error (@getitem) (@getitem_nonneg)
                  _ _ _ _ _ Hlr Hlc Hb) as Hn.
    destruct (assertions _ _ _ _ _ _) as [l|e]; [discriminate|].
    intros E; apply Hn; now inversion E.
Qed.

Lemma C10_witness :
  exists pz,
    parse_puzzle demo_text = Ok pz /\
    build_solver_strict pz.(nrows) pz.(ncols) pz.(row_targets)
                        pz.(col_targets) pz.(tree_positions)
    = build_solver pz.(nrows) pz.(ncols) pz.(row_targets)
                   pz.(col_targets) pz.(tree_positions).
Proof.
  eexists; split; [vm_compute; reflexivity|].
  apply (@C10_subscripts_in_range demo_text _ eq_refl).
Defined.

(** *** From loader to encoder *)

Lemma re_split_ws_from_nonempty s cur in_ws :
  re_split_ws_from s cur in_ws <> [].
Proof.
  revert cur in_ws; induction s as [|c s IH]; intros cur in_ws; simpl.
  - discriminate.
  - destruct (isspace c); [destruct in_ws|]; try apply IH; discriminate.
Qed.

Lemma tokenize_rows_nonempty text : Forall (fun r => r <> []) (tokenize text).
Proof.
  unfold tokenize; apply Forall_map, Forall_forall.
  intros line _; apply re_split_ws_from_nonempty.
Qed.

(** A loaded file with at least one data row is a well-formed grid. *)
Lemma loaded_grid_well_formed text pz :
  parse_puzzle text = Ok pz -> 1 <= pz.(nrows) ->
  well_formed pz.(nrows) pz.(ncols) pz.(row_targets) pz.(col_targets)
              pz.(tree_positions).
Proof.
  intros H Hrows.
  destruct (parse_puzzle_Ok_inv _ H)
    as (hdr & rows & Htok & Enr & Enc & Hlr & Hlc & _ & _ & Hb).
  pose proof (tokenize_rows_nonempty text) as Hne.
  rewrite Htok in Hne; apply Forall_inv in Hne.
  unfold well_formed; rewrite Enc, Enr in *.
  repeat split; try assumption.
  destruct hdr; [congruence|]. unfold len; cbn [List.length]; lia.
Qed.

Lemma range_head n : 1 <= n -> exists rest, range n = 0 :: rest.
Proof.
  intros H; unfold range.
  destruct (Z.to_nat n) as [|k] eqn:E; [lia|].
  simpl; eauto.
Qed.

Lemma build_solver_without_rows ncols row_targets col_targets :
  1 <= ncols -> 1 <= len col_targets ->
  build_solver 0 ncols row_targets col_targets [] = Raise Z3Exception.
Proof.
  intros Hc Hl; unfold build_solver; rewrite build_solver_assertions.
  unfold assertions; cbv zeta; cbn [flat_mapM rbind range Z.to_nat seq map].
  destruct (range_head Hc) as (rest & ->); cbn [flat_mapM].
  unfold col_count_of at 1; cbn [range Z.to_nat seq map mapM].
  unfold count_of; cbn [rbind].
  rewrite (@getitem_nth_cases _ col_targets 0 0) by lia.
  destruct (Z.ltb_spec 0 (len col_targets)); [|lia].
  reflexivity.
Qed.

(** What the loader guarantees about the shape of the grid. *)
Lemma loaded_shape text pz :
  parse_puzzle text = Ok pz ->
  0 <= pz.(nrows) /\ 1 <= pz.(ncols) /\
  len pz.(row_targets) = pz.(nrows) /\ len pz.(col_targets) = pz.(ncols) /\
  (pz.(nrows) = 0 -> pz.(tree_positions) = []).
Proof.
  intros Hp.
  destruct (parse_puzzle_Ok_inv _ Hp)
    as (hdr & rows & Htok & Enr & Enc & Hlr & Hlc & _ & _ & Hb).
  pose proof (tokenize_rows_nonempty text) as Hne.
  rewrite Htok in Hne; apply Forall_inv in Hne.
  rewrite Enr, Enc; repeat split; try assumption.
  - apply len_nonneg.
  - destruct hdr; [congruence|]. unfold len; cbn [List.length]; lia.
  - intros Hz; destruct pz.(tree_positions) as [|t ts]; [reflexivity|].
    apply Forall_inv in Hb; lia.
Qed.

(** The encoder on a loaded file: it returns when there is a data row and
    the bindings accept every target, and the bindings raise otherwise. *)
Lemma build_solver_loaded text pz :
  parse_puzzle text = Ok pz ->
  build_solver pz.(nrows) pz.(ncols) pz.(row_targets) pz.(col_targets)
               pz.(tree_positions)
  = if (1 <=? pz.(nrows)) && bounds_ok pz.(row_targets)
       && bounds_ok pz.(col_targets)
    then Ok (encoding pz.(nrows) pz.(ncols) (map c_uint pz.(row_targets))
                      (map c_uint pz.(col_targets)) pz.(tree_positions),
             declare_vars pz.(nrows) pz.(ncols))
    else Raise Z3Exception.
Proof.
  intros Hp.
  destruct (loaded_shape _ Hp) as (Hnn & Hcols & _ & Hlc & Hnone).
  destruct (Z.leb_spec 1 pz.(nrows)) as [Hrows|Hz]; cbn [andb].
  - rewrite (build_solver_well_formed_cases
               (loaded_grid_well_formed _ Hp Hrows)).
    reflexivity.
  - assert (E : pz.(nrows) = 0) by lia.
    rewrite (Hnone E), E.
    apply build_solver_without_rows; [exact Hcols | lia].
Qed.

(** C6, as the code has it.  On a well-formed grid (at least 1x1, one
    target per row and per column, trees inside the grid) no subscript
    fails: [build_solver] returns exactly when the bindings accept every
    target, which they do for all targets from 0 to 2^31 - 1 and do not
    for a target from -2^31 to -1, and the only exception it raises is
    theirs.  The loader checks neither the sign nor
    the size of a target, nor that the file has a data row: on a file it
    accepts, [build_solver] returns exactly when there is a data row and
    the bindings accept every target, and otherwise the failure is raised
    while encoding. *)
Theorem C6_encoder_total_on_well_formed :
  (forall nrows ncols row_targets col_targets trees,
     well_formed nrows ncols row_targets col_targets trees ->
     ((exists s p,
         build_solver nrows ncols row_targets col_targets trees = Ok (s, p)) <->
      bounds_ok row_targets = true /\ bounds_ok col_targets = true) /\
     (Forall (fun k => 0 <= k < 2 ^ 31) row_targets ->
      Forall (fun k => 0 <= k < 2 ^ 31) col_targets ->
      exists s p,
        build_solver nrows ncols row_targets col_targets trees = Ok (s, p)) /\
     (forall k, In k row_targets \/ In k col_targets -> - 2 ^ 31 <= k < 0 ->
        build_solver nrows ncols row_targets col_targets trees
        = Raise Z3Exception) /\
     (forall e,
        build_solver nrows ncols row_targets col_targets trees = Raise e ->
        e = Z3Exception)) /\
  (forall text pz,
     parse_puzzle text = Ok pz ->
     ((exists s p,
         build_solver pz.(nrows) pz.(ncols) pz.(row_targets) pz.(col_targets)
                      pz.(tree_positions) = Ok (s, p)) <->
      1 <= pz.(nrows) /\
      bounds_ok pz.(row_targets) = true /\ bounds_ok pz.(col_targets) = true) /\
     (forall e,
        build_solver pz.(nrows) pz.(ncols) pz.(row_targets) pz.(col_targets)
                     pz.(tree_positions) = Raise e ->
        e = Z3Exception)).
Proof.
  split.
  - intros nrows ncols row_targets col_targets trees Hwf.
    rewrite (build_solver_well_formed_cases Hwf).
    split; [|split; [|split]].
    + destruct (bounds_ok row_targets), (bounds_ok col_targets); cbn [andb];
        split; try (intros (s & p & E); discriminate);
        try (intros [E1 E2]; discriminate); eauto.
    + intros Hr Hc; rewrite !bounds_ok_small by assumption; cbn [andb]; eauto.
    + intros k Hk Hneg; apply bound_ok_negative in Hneg.
      destruct Hk as [Hk|Hk]; rewrite (@bounds_ok_refused _ _ Hk Hneg);
        [reflexivity | now rewrite andb_false_r].
    + intros e.
      destruct (bounds_ok row_targets && bounds_ok col_targets);
        intros E; now inversion E.
  - intros text pz Hp; rewrite (build_solver_loaded _ Hp).
    split.
    + destruct (Z.leb_spec 1 pz.(nrows)), (bounds_ok pz.(row_targets)),
        (bounds_ok pz.(col_targets)); cbn [andb];
        split; try (intros (s & p & E); discriminate);
        try (intros (E0 & E1 & E2); first [discriminate | lia]); eauto.
    + intros e.
      destruct ((1 <=? pz.(nrows)) && bounds_ok pz.(row_targets)
                && bounds_ok pz.(col_targets));
        intros E; now inversion E.
Qed.

Lemma C6_witness :
  well_formed 2 2 demo_rows demo_cols demo_trees /\
  exists s p, build_solver 2 2 demo_rows demo_cols demo_trees = Ok (s, p).
Proof.
  assert (H : well_formed 2 2 demo_rows demo_cols demo_trees).
  { unfold well_formed; repeat split; try reflexivity; try lia.
    repeat constructor; simpl; lia. }
  split; [exact H|].
  apply (proj1 (proj2 (proj1 C6_encoder_total_on_well_formed _ _ _ _ _ H)));
    repeat constructor; lia.
Defined.

(** A well-formed grid with a negative target, and a file the loader
    accepts with a negative target: on both [build_solver] raises. *)
Lemma C6_counterexample :
  well_formed 2 2 [1; -1] [0; 1] [(1, 1)] /\
  build_solver 2 2 [1; -1] [0; 1] [(1, 1)] = Raise Z3Exception /\
  exists pz,
    parse_puzzle negative_target_text = Ok pz /\
    well_formed pz.(nrows) pz.(ncols) pz.(row_targets) pz.(col_targets)
                pz.(tree_positions) /\
    build_solver pz.(nrows) pz.(ncols) pz.(row_targets) pz.(col_targets)
                 pz.(tree_positions) = Raise Z3Exception.
Proof.
  split; [|split; [vm_compute; reflexivity|]].
  - unfold well_formed; repeat split; try reflexivity; try lia.
    repeat constructor; simpl; lia.
  - eexists; split; [vm_compute; reflexivity|].
    split; [|vm_compute; reflexivity].
    unfold well_formed; simpl; repeat split; try reflexivity; try lia.
    repeat constructor; simpl; lia.
Qed.

(* ===================================================================== *)
(** ** Driver: how a verdict is reported                                   *)
(* ===================================================================== *)

(** C7, as the code has it.  In a run that reaches the solver, the
    verdict [unsat] makes [solve_and_display] return (nothing is raised)
    after printing the status line and "No solution found.".  The verdict
    [unknown] takes the same branch: the run returns, prints the same
    closing line and exports the same text, so that the two runs differ in
    nothing but the name of the verdict inside the status line. *)
Theorem C7_verdict_reporting
    check check' get_model get_model' to_smt2 duration text pz s p :
  parse_puzzle text = Ok pz ->
  build_solver pz.(nrows) pz.(ncols) pz.(row_targets) pz.(col_targets)
               pz.(tree_positions) = Ok (s, p) ->
  check s = unsat -> check' s = unknown ->
  solve_and_display check get_model to_smt2 duration text
  = Ok ([status_line unsat duration; no_solution], to_smt2 s) /\
  solve_and_display check' get_model' to_smt2 duration text
  = Ok ([status_line unknown duration; no_solution], to_smt2 s) /\
  (forall out out' smt smt',
     solve_and_display check get_model to_smt2 duration text = Ok (out, smt) ->
     solve_and_display check' get_model' to_smt2 duration text
     = Ok (out', smt') ->
     tl out' = tl out /\ tl out' = [no_solution] /\ smt' = smt).
Proof.
  intros Hp Hb Hunsat Hunknown.
  assert (E : solve_and_display check get_model to_smt2 duration text
              = Ok ([status_line unsat duration; no_solution], to_smt2 s)).
  { unfold solve_and_display; rewrite Hp; cbn [rbind].
    rewrite Hb; cbn [rbind]. now rewrite Hunsat. }
  assert (E' : solve_and_display check' get_model' to_smt2 duration text
               = Ok ([status_line unknown duration; no_solution], to_smt2 s)).
  { unfold solve_and_display; rewrite Hp; cbn [rbind].
    rewrite Hb; cbn [rbind]. now rewrite Hunknown. }
  split; [exact E|]. split; [exact E'|].
  intros out out' smt smt' H H'; rewrite E in H; rewrite E' in H'.
  inversion H; inversion H'; subst; auto.
Qed.

Lemma C7_witness :
  solve_and_display (fun _ => unsat) (fun _ _ => false)
                    (fun _ => EmptyString) "0.0100" demo_text
  = Ok (["Z3 status: unsat, time: 0.0100 sec"; "No solution found."]%string,
        EmptyString) /\
  solve_and_display (fun _ => unknown) (fun _ _ => false)
                    (fun _ => EmptyString) "0.0100" demo_text
  = Ok (["Z3 status: unknown, time: 0.0100 sec"; "No solution found."]%string,
        EmptyString).
Proof.
  destruct (@C7_verdict_reporting (fun _ => unsat) (fun _ => unknown)
              (fun _ _ => false) (fun _ _ => false)
              (fun _ => EmptyString) "0.0100" demo_text _ _ _
              parse_demo build_demo eq_refl eq_refl) as (E & E' & _).
  split; [exact E | exact E'].
Defined.

(** On the sample file, with a solver that answers [unknown] and with one
    that answers [unsat]: after the status line both runs print the very
    same report, "No solution found.". *)
Lemma C7_counterexample :
  exists out out' smt,
    solve_and_display (fun _ => unsat) (fun _ _ => false)
                      (fun _ => EmptyString) "0.0100" demo_text
    = Ok (out, smt) /\
    solve_and_display (fun _ => unknown) (fun _ _ => false)
                      (fun _ => EmptyString) "0.0100" demo_text
    = Ok (out', smt) /\
    tl out' = tl out /\ tl out' = ["No solution found."]%string.
Proof.
  eexists; eexists; eexists.
  split; [vm_compute; reflexivity|].
  split; [vm_compute; reflexivity|].
  split; reflexivity.
Qed.

(* ===================================================================== *)
(** ** Further properties of the encoder                                   *)
(* ===================================================================== *)

(** *** Python subscripts into the declared matrix *)

Lemma getitem_map_range A (f : Z -> A) n i :
  getitem (map f (range n)) i
  = if subscript_ok n i then Ok (f (wrap n i)) else Raise IndexError.
Proof.
  unfold getitem, subscript_ok, wrap; rewrite len_map, len_range.
  destruct (Z.ltb_spec i 0) as [Hneg|Hpos].
  - destruct (Z.leb_spec (- n) i) as [Hlo|Hlo]; simpl.
    + destruct (Z.ltb_spec i n); [|lia].
      destruct (Z.leb_spec 0 (i + Z.max 0 n)); [|lia].
      destruct (Z.ltb_spec (i + Z.max 0 n) (Z.max 0 n)); [|lia]; simpl.
      replace (i + Z.max 0 n) with (i + n) by lia.
      now rewrite nth_error_map, nth_error_range by lia.
    + destruct (Z.leb_spec 0 (i + Z.max 0 n)); [lia | reflexivity].
  - destruct (Z.leb_spec (- n) i) as [Hlo|Hlo]; simpl.
    + destruct (Z.leb_spec 0 i); [|lia].
      destruct (Z.ltb_spec i n), (Z.ltb_spec i (Z.max 0 n)); try lia; simpl.
      * now rewrite nth_error_map, nth_error_range by lia.
      * reflexivity.
    + destruct (Z.leb_spec 0 i); [|lia].
      destruct (Z.ltb_spec i (Z.max 0 n)); [lia | reflexivity].
Qed.

Lemma wrap_inside n i : subscript_ok n i = true -> 0 <= wrap n i < n.
Proof.
  unfold subscript_ok, wrap; intros H; apply andb_true_iff in H as [H1 H2].
  apply Z.leb_le in H1; apply Z.ltb_lt in H2.
  destruct (Z.ltb_spec i 0); lia.
Qed.

Lemma wrap_nonneg n i : 0 <= i -> wrap n i = i.
Proof. unfold wrap; intros H; destruct (Z.ltb_spec i 0); lia. Qed.

Lemma subscript_ok_inside n i : 0 <= i < n -> subscript_ok n i = true.
Proof.
  unfold subscript_ok; intros H; apply andb_true_iff.
  rewrite Z.leb_le, Z.ltb_lt; lia.
Qed.

Lemma cell_getitem nrows ncols i j :
  cell (@getitem) (declare_vars nrows ncols) i j
  = if subscript_ok nrows i && subscript_ok ncols j
    then Ok (Bool (var_name (wrap nrows i) (wrap ncols j)))
    else Raise IndexError.
Proof.
  unfold cell, declare_vars; rewrite getitem_map_range.
  destruct (subscript_ok nrows i); simpl; [|reflexivity].
  now rewrite getitem_map_range.
Qed.

Lemma exclusion_of_getitem nrows ncols t :
  exclusion_of (@getitem) (declare_vars nrows ncols) t
  = if subscript_ok nrows (fst t - 1) && subscript_ok ncols (snd t - 1)
    then Ok [no_tent_on (wrap nrows (fst t - 1), wrap ncols (snd t - 1))]
    else Raise IndexError.
Proof.
  destruct t as [ti tj]; unfold exclusion_of; simpl; rewrite cell_getitem.
  now destruct (subscript_ok nrows (ti - 1) && subscript_ok ncols (tj - 1)).
Qed.

Lemma eval_no_tent_on m c : eval m (no_tent_on c) = true <-> ~ tent m c.
Proof.
  unfold no_tent_on, tent; simpl.
  destruct (m (var_name (fst c) (snd c))); simpl; split; congruence.
Qed.

Lemma eval_some_tent_on m ns :
  eval m (some_tent_on ns) = true <-> exists n, In n ns /\ tent m n.
Proof.
  unfold some_tent_on, tent; simpl; rewrite existsb_exists; split.
  - intros (e & He & Hm); apply in_map_iff in He as (n & <- & Hn); eauto.
  - intros (n & Hn & Hm); exists (Bool (var_name (fst n) (snd n))); split;
      [apply in_map_iff; eauto | exact Hm].
Qed.

(** X1.  Whenever [build_solver] returns, every tree coordinate was an
    accepted subscript pair, the solver holds [p == False] for the
    constant that subscript pair reads (the tree's own cell when the
    coordinate is inside the grid, the cell counted from the end when a
    coordinate is 0 or negative), and no model of the solver puts a tent
    there. *)
Theorem X1_no_tent_on_tree nrows ncols row_targets col_targets trees s p :
  build_solver nrows ncols row_targets col_targets trees = Ok (s, p) ->
  forall t, In t trees ->
    let c := (wrap nrows (fst t - 1), wrap ncols (snd t - 1)) in
    inside nrows ncols c /\
    (1 <= fst t -> 1 <= snd t -> c = cell_of t) /\
    In (no_tent_on c) s /\
    forall m, satisfies m s -> ~ tent m c.
Proof.
  intros H t Ht; apply build_solver_Ok in H as [H ->].
  apply assertions_Ok_inv in H
    as (l1 & l2 & l3 & l4 & l5 & l6 & H1 & _ & _ & _ & _ & _ & ->).
  destruct (flat_mapM_Ok_In _ _ t H1 Ht) as (lx & Hx & Hincl).
  rewrite exclusion_of_getitem in Hx.
  destruct (subscript_ok nrows (fst t - 1)) eqn:Ei; simpl in Hx;
    [|discriminate].
  destruct (subscript_ok ncols (snd t - 1)) eqn:Ej; simpl in Hx;
    [|discriminate].
  inversion Hx; subst lx; clear Hx.
  cbv zeta.
  match goal with |- _ /\ _ /\ In ?e ?l /\ _ => assert (Hin : In e l) end.
  { apply in_parts; left; apply Hincl; simpl; auto. }
  split; [|split; [|split]].
  - split; simpl; now apply wrap_inside.
  - intros Hi Hj; unfold cell_of; now rewrite !wrap_nonneg by lia.
  - exact Hin.
  - intros m Hm; apply eval_no_tent_on.
    eapply satisfies_In; eassumption.
Qed.

Lemma X1_witness :
  exists s p,
    build_solver 2 2 demo_rows demo_cols demo_trees = Ok (s, p) /\
    In (no_tent_on (0, 0)) s /\
    forall m, satisfies m s -> ~ tent m (0, 0).
Proof.
  eexists; eexists; split; [vm_compute; reflexivity|].
  destruct (@X1_no_tent_on_tree 2 2 demo_rows demo_cols demo_trees _ _ eq_refl
              (1, 1) (or_introl eq_refl)) as (_ & _ & Hin & Hm).
  split; [exact Hin | exact Hm].
Defined.

(** X2.  Whenever [build_solver] returns, for every tree whose cell lies
    inside a grid larger than 1x1 the solver holds the disjunction of the
    constants of the tree's neighbours inside the grid, so every model of
    the solver puts a tent on a cell sharing an edge with the tree. *)
Theorem X2_tree_has_adjacent_tent
    nrows ncols row_targets col_targets trees s p :
  build_solver nrows ncols row_targets col_targets trees = Ok (s, p) ->
  forall t, In t trees -> inside nrows ncols (cell_of t) ->
    nrows <> 1 \/ ncols <> 1 ->
    In (some_tent_on (orth_neighbors nrows ncols (fst t - 1) (snd t - 1))) s /\
    forall m, satisfies m s ->
      exists n, inside nrows ncols n /\ orth_adjacent (cell_of t) n /\ tent m n.
Proof.
  intros H t Ht Hinside Hdim; apply build_solver_Ok in H as [H ->].
  apply assertions_Ok_inv in H
    as (l1 & l2 & l3 & l4 & l5 & l6 & _ & _ & _ & _ & _ & H6 & ->).
  destruct (flat_mapM_Ok_In _ _ t H6 Ht) as (lx & Hx & Hincl).
  destruct t as [ti tj]; unfold cell_of in *; simpl fst in *; simpl snd in *.
  rewrite (@tree_tent_of_declared (@getitem) (@getitem_nonneg)) in Hx.
  destruct (orth_neighbors nrows ncols (ti - 1) (tj - 1)) as [|n0 ns] eqn:En.
  { exfalso. apply orth_neighbors_nil_1x1 in En; [lia | exact Hinside]. }
  inversion Hx; subst lx; clear Hx.
  match goal with |- In ?e ?l /\ _ => assert (Hin : In e l) end.
  { apply in_parts; do 5 right; apply Hincl; simpl; auto. }
  split; [exact Hin|].
  intros m Hm.
  pose proof (@satisfies_In m _ _ Hm Hin) as E.
  apply (eval_some_tent_on m (n0 :: ns)) in E as (n & Hn & Htent).
  rewrite <- En in Hn; apply in_orth_neighbors in Hn as [Hn Hadj].
  exists n; auto.
Qed.

Lemma X2_witness :
  exists s p,
    build_solver 2 2 demo_rows demo_cols demo_trees = Ok (s, p) /\
    In (some_tent_on [(1, 0); (0, 1)]) s /\
    forall m, satisfies m s ->
      exists n, inside 2 2 n /\ orth_adjacent (0, 0) n /\ tent m n.
Proof.
  eexists; eexists; split; [vm_compute; reflexivity|].
  apply (@X2_tree_has_adjacent_tent 2 2 demo_rows demo_cols demo_trees _ _
           eq_refl (1, 1) (or_introl eq_refl)).
  - unfold inside; simpl; lia.
  - left; lia.
Defined.

(** *** The solver's models are the placements that obey the rules *)

Lemma satisfies_app m s1 s2 :
  satisfies m (s1 ++ s2) <-> satisfies m s1 /\ satisfies m s2.
Proof. unfold satisfies; apply Forall_app. Qed.

Lemma satisfies_flat_map A m (f : A -> list expr) l :
  satisfies m (flat_map f l) <-> forall x, In x l -> satisfies m (f x).
Proof.
  unfold satisfies; rewrite Forall_forall; split.
  - intros H x Hx; apply Forall_forall; intros e He.
    apply H, in_flat_map; eauto.
  - intros H e He; apply in_flat_map in He as (x & Hx & He).
    specialize (H x Hx); rewrite Forall_forall in H; auto.
Qed.

Lemma satisfies_map A m (f : A -> expr) l :
  satisfies m (map f l) <-> forall x, In x l -> eval m (f x) = true.
Proof.
  unfold satisfies; rewrite Forall_forall; split.
  - intros H x Hx; apply H, in_map; exact Hx.
  - intros H e He; apply in_map_iff in He as (x & <- & Hx); auto.
Qed.

Lemma satisfies_count_clauses m xs k :
  satisfies m (count_clauses xs k) <-> count_true (eval m) xs = k.
Proof.
  unfold satisfies, count_clauses; split.
  - intros H; inversion H as [|? ? E1 H']; subst.
    inversion H' as [|? ? E2 _]; subst. now apply exactly_k.
  - intros <-; repeat constructor; simpl; apply Z.leb_refl.
Qed.

Lemma satisfies_exclusion m trees :
  satisfies m (exclusion_clauses trees) <->
  forall t, In t trees -> ~ tent m (cell_of t).
Proof.
  unfold exclusion_clauses; rewrite satisfies_map.
  split; intros H t Ht; apply (eval_no_tent_on m (cell_of t)), H, Ht.
Qed.

Lemma satisfies_rows m nrows ncols row_targets :
  satisfies m (row_clauses nrows ncols row_targets) <->
  forall i, 0 <= i < nrows ->
    tents_in_row m ncols i = nth (Z.to_nat i) row_targets 0.
Proof.
  unfold row_clauses; rewrite satisfies_flat_map.
  split; intros H i Hi.
  - apply in_range in Hi; apply H, satisfies_count_clauses in Hi.
    unfold tents_in_row; now rewrite <- (count_true_vars m (fun j => var_name i j)).
  - apply in_range in Hi; apply satisfies_count_clauses.
    unfold row_vars; rewrite (count_true_vars m (fun j => var_name i j)).
    now apply H.
Qed.

Lemma satisfies_cols m nrows ncols col_targets :
  satisfies m (col_clauses nrows ncols col_targets) <->
  forall j, 0 <= j < ncols ->
    tents_in_col m nrows j = nth (Z.to_nat j) col_targets 0.
Proof.
  unfold col_clauses; rewrite satisfies_flat_map.
  split; intros H j Hj.
  - apply in_range in Hj; apply H, satisfies_count_clauses in Hj.
    unfold tents_in_col; now rewrite <- (count_true_vars m (fun i => var_name i j)).
  - apply in_range in Hj; apply satisfies_count_clauses.
    unfold col_vars; rewrite (count_true_vars m (fun i => var_name i j)).
    now apply H.
Qed.

Lemma eval_not_both_iff m a b :
  eval m (not_both a b) = true <-> ~ (tent m a /\ tent m b).
Proof.
  unfold not_both, tent; simpl.
  destruct (m (var_name (fst a) (snd a))), (m (var_name (fst b) (snd b)));
    simpl; split; intros H; try reflexivity; try discriminate;
    try (intros [? ?]; discriminate).
  exfalso; apply H; auto.
Qed.

Lemma satisfies_adjacency m nrows ncols :
  satisfies m (adjacency_clauses nrows ncols) <->
  forall a b, inside nrows ncols a -> inside nrows ncols b ->
    king_adjacent a b -> ~ (tent m a /\ tent m b).
Proof.
  unfold adjacency_clauses; rewrite satisfies_flat_map; split.
  - intros H [i j] b [Hi Hj] Hb Hk; simpl in Hi, Hj.
    specialize (H i (proj2 (in_range i nrows) Hi)).
    rewrite satisfies_flat_map in H.
    specialize (H j (proj2 (in_range j ncols) Hj)).
    rewrite satisfies_map in H.
    apply eval_not_both_iff, H, in_all_neighbors; auto.
  - intros H i Hi; apply in_range in Hi.
    apply satisfies_flat_map; intros j Hj; apply in_range in Hj.
    apply satisfies_map; intros n Hn.
    apply in_all_neighbors in Hn as [Hn Hk].
    apply eval_not_both_iff, H; auto. split; assumption.
Qed.

Lemma eval_pairing_clause m nrows ncols trees i j :
  eval m (pairing_clause nrows ncols trees i j) = true <->
  (tent m (i, j) ->
   exists n, In n (orth_neighbors nrows ncols i j) /\
             In (fst n + 1, snd n + 1) trees).
Proof.
  unfold pairing_clause, tent; simpl.
  destruct (m (var_name i j)); simpl.
  - rewrite existsb_exists; split.
    + intros (e & He & Hv) _; apply in_map_iff in He as (n & <- & Hn).
      simpl in Hv; apply mem_true in Hv; eauto.
    + intros H; destruct (H eq_refl) as (n & Hn & Ht).
      exists (BoolVal (mem (fst n + 1, snd n + 1) trees)); split.
      * apply in_map_iff; eauto.
      * simpl; now apply mem_true.
  - split; [discriminate | reflexivity].
Qed.

Lemma satisfies_pairing m nrows ncols trees :
  Forall (fun t => inside nrows ncols (cell_of t)) trees ->
  (satisfies m (pairing_clauses nrows ncols trees) <->
   forall c, inside nrows ncols c -> tent m c ->
     exists t, In t trees /\ orth_adjacent c (cell_of t)).
Proof.
  intros Hwf; rewrite Forall_forall in Hwf.
  unfold pairing_clauses; rewrite satisfies_flat_map; split.
  - intros H [i j] [Hi Hj] Htent; simpl in Hi, Hj.
    specialize (H i (proj2 (in_range i nrows) Hi)).
    rewrite satisfies_flat_map in H.
    specialize (H j (proj2 (in_range j ncols) Hj)).
    unfold satisfies in H; apply Forall_inv in H.
    destruct (proj1 (eval_pairing_clause m nrows ncols trees i j) H Htent)
      as ([ni nj] & Hn & Ht).
    apply in_orth_neighbors in Hn as [_ Hadj].
    exists (ni + 1, nj + 1); split; [exact Ht|].
    unfold orth_adjacent, cell_of in *; simpl in *.
    replace (ni + 1 - 1) with ni by lia; replace (nj + 1 - 1) with nj by lia.
    exact Hadj.
  - intros H i Hi; apply in_range in Hi.
    apply satisfies_flat_map; intros j Hj; apply in_range in Hj.
    constructor; [|constructor].
    apply eval_pairing_clause; intros Htent.
    destruct (H (i, j) (conj Hi Hj) Htent) as (t & Ht & Hadj).
    exists (cell_of t); split.
    + destruct t as [ti tj]; apply in_orth_neighbors; split; [|exact Hadj].
      exact (Hwf _ Ht).
    + destruct t as [ti tj]; unfold cell_of; simpl.
      replace (ti - 1 + 1) with ti by lia; replace (tj - 1 + 1) with tj by lia.
      exact Ht.
Qed.

Lemma satisfies_tree_tent m nrows ncols trees :
  satisfies m (tree_tent_clauses nrows ncols trees) <->
  forall t, In t trees ->
    (exists n, inside nrows ncols n /\ orth_adjacent (cell_of t) n) ->
    exists n, inside nrows ncols n /\ orth_adjacent (cell_of t) n /\ tent m n.
Proof.
  unfold tree_tent_clauses; rewrite satisfies_flat_map; split.
  - intros H t Ht (n0 & Hn0); specialize (H t Ht).
    apply in_orth_neighbors in Hn0; unfold cell_of in *; simpl in *.
    destruct (orth_neighbors nrows ncols (fst t - 1) (snd t - 1))
      as [|n1 ns] eqn:En; [destruct Hn0|].
    unfold satisfies in H; apply Forall_inv in H.
    apply (eval_some_tent_on m (n1 :: ns)) in H as (n & Hn & Htent).
    rewrite <- En in Hn; apply in_orth_neighbors in Hn as [Hn Hadj].
    exists n; auto.
  - intros H t Ht.
    destruct (orth_neighbors nrows ncols (fst t - 1) (snd t - 1))
      as [|n1 ns] eqn:En; [constructor|].
    constructor; [|constructor].
    apply (eval_some_tent_on m (n1 :: ns)).
    destruct (H t Ht) as (n & Hn & Hadj & Htent).
    + exists n1; apply in_orth_neighbors.
      unfold cell_of; simpl; rewrite En; simpl; auto.
    + exists n; split; [|exact Htent].
      rewrite <- En; apply in_orth_neighbors; auto.
Qed.

Lemma well_formed_trees_inside nrows ncols row_targets col_targets trees :
  well_formed nrows ncols row_targets col_targets trees ->
  Forall (fun t => inside nrows ncols (cell_of t)) trees.
Proof.
  intros (_ & _ & _ & _ & Ht); eapply Forall_impl; [|exact Ht].
  intros t [Hi Hj]; unfold inside, cell_of; simpl; lia.
Qed.

Lemma encoding_models nrows ncols row_targets col_targets trees m :
  Forall (fun t => inside nrows ncols (cell_of t)) trees ->
  (satisfies m (encoding nrows ncols row_targets col_targets trees) <->
   obeys_rules nrows ncols row_targets col_targets trees m).
Proof.
  intros Hwf; unfold encoding, obeys_rules.
  rewrite !satisfies_app, satisfies_exclusion, satisfies_rows, satisfies_cols,
          satisfies_adjacency, (satisfies_pairing m Hwf), satisfies_tree_tent.
  tauto.
Qed.

(** X3.  On a well-formed grid whose targets the bindings accept,
    [build_solver] returns a solver whose models are exactly the
    placements that obey the rules of its docstring, the counts being the
    bounds the solver received: no tent on a tree, exact row and column
    counts, no two tents on surrounding cells, every tent beside a tree,
    and every tree that has a neighbouring cell beside a tent.  For
    targets from 0 to 2^31 - 1 the counts are the targets themselves. *)
Theorem X3_models_are_rule_abiding_placements
    nrows ncols row_targets col_targets trees :
  well_formed nrows ncols row_targets col_targets trees ->
  bounds_ok row_targets = true -> bounds_ok col_targets = true ->
  exists s p,
    build_solver nrows ncols row_targets col_targets trees = Ok (s, p) /\
    (forall m, satisfies m s <->
               obeys_rules nrows ncols (map c_uint row_targets)
                           (map c_uint col_targets) trees m) /\
    (Forall (fun k => 0 <= k < 2 ^ 31) row_targets ->
     Forall (fun k => 0 <= k < 2 ^ 31) col_targets ->
     forall m, satisfies m s <->
               obeys_rules nrows ncols row_targets col_targets trees m).
Proof.
  intros Hwf Hbr Hbc; rewrite (build_solver_well_formed Hwf Hbr Hbc).
  eexists; eexists; split; [reflexivity|].
  assert (H : forall m,
             satisfies m (encoding nrows ncols (map c_uint row_targets)
                                   (map c_uint col_targets) trees) <->
             obeys_rules nrows ncols (map c_uint row_targets)
                         (map c_uint col_targets) trees m).
  { intros m; apply encoding_models.
    exact (well_formed_trees_inside Hwf). }
  split; [exact H|].
  intros Hr Hc m.
  rewrite <- (map_c_uint_small Hr) at 2; rewrite <- (map_c_uint_small Hc) at 2.
  apply H.
Qed.

Lemma demo_well_formed : well_formed 2 2 demo_rows demo_cols demo_trees.
Proof.
  unfold well_formed; repeat split; try reflexivity; try lia.
  repeat constructor; simpl; lia.
Qed.

Lemma X3_witness :
  exists s p,
    build_solver 2 2 demo_rows demo_cols demo_trees = Ok (s, p) /\
    obeys_rules 2 2 demo_rows demo_cols demo_trees demo_model.
Proof.
  destruct (@X3_models_are_rule_abiding_placements 2 2 demo_rows demo_cols
              demo_trees demo_well_formed eq_refl eq_refl)
    as (s & p & Hrun & _ & Hiff).
  exists s, p; split; [exact Hrun|].
  apply Hiff; [repeat constructor; lia | repeat constructor; lia |].
  vm_compute in Hrun; inversion Hrun; subst.
  apply satisfiesb_true; vm_compute; reflexivity.
Defined.

(** *** Targets that cannot be met *)

Lemma total_map_add A (g h : A -> Z) l :
  total (map (fun x => g x + h x) l) = total (map g l) + total (map h l).
Proof. induction l as [|x l IH]; simpl; lia. Qed.

Lemma total_indicator A (c : A -> bool) l :
  total (map (fun x => if c x then 1 else 0) l) = len (filter c l).
Proof.
  unfold len; induction l as [|x l IH]; simpl; [reflexivity|].
  destruct (c x); simpl List.length; lia.
Qed.

Lemma len_filter_cons A (c : A -> bool) x l :
  len (filter c (x :: l)) = (if c x then 1 else 0) + len (filter c l).
Proof. unfold len; simpl; destruct (c x); simpl List.length; lia. Qed.

(** Counting the marked cells of a grid by rows or by columns. *)
Lemma double_counting A B (f : A -> B -> bool) l1 l2 :
  total (map (fun a => len (filter (f a) l2)) l1)
  = total (map (fun b => len (filter (fun a => f a b) l1)) l2).
Proof.
  induction l1 as [|x l1 IH]; cbn [map total fold_right].
  - induction l2 as [|y l2 IH2]; simpl in *; lia.
  - fold (total (map (fun a => len (filter (f a) l2)) l1)); rewrite IH.
    rewrite (map_ext (fun b => len (filter (fun a => f a b) (x :: l1)))
                     (fun b => (if f x b then 1 else 0)
                               + len (filter (fun a => f a b) l1)))
      by (intros b; apply len_filter_cons).
    now rewrite total_map_add, total_indicator.
Qed.

Lemma rows_and_columns_agree m nrows ncols :
  total (map (tents_in_row m ncols) (range nrows))
  = total (map (tents_in_col m nrows) (range ncols)).
Proof.
  unfold tents_in_row, tents_in_col.
  apply (double_counting (fun i j => m (var_name i j))).
Qed.

(** The tents of a model of a returned solver, row by row and column by
    column. *)
Lemma counts_of_a_model nrows ncols row_targets col_targets trees s p m :
  well_formed nrows ncols row_targets col_targets trees ->
  build_solver nrows ncols row_targets col_targets trees = Ok (s, p) ->
  satisfies m s ->
  map (tents_in_row m ncols) (range nrows) = map c_uint row_targets /\
  map (tents_in_col m nrows) (range ncols) = map c_uint col_targets.
Proof.
  intros Hwf Hrun Hm.
  destruct (build_solver_well_formed_inv Hwf Hrun) as (_ & _ & -> & _).
  unfold encoding in Hm; rewrite !satisfies_app in Hm.
  destruct Hm as (_ & Hr & Hc & _).
  rewrite satisfies_rows in Hr; rewrite satisfies_cols in Hc.
  destruct Hwf as (_ & _ & Hlr & Hlc & _).
  split.
  - rewrite <- (map_nth_range (map c_uint row_targets) 0), len_map, Hlr.
    apply map_ext_in; intros i Hi; apply in_range in Hi. now apply Hr.
  - rewrite <- (map_nth_range (map c_uint col_targets) 0), len_map, Hlc.
    apply map_ext_in; intros j Hj; apply in_range in Hj. now apply Hc.
Qed.

(** X4.  On a well-formed grid, a solver returned by [build_solver] has a
    model only if the bounds of the rows and the bounds of the columns
    have the same sum: both count the tents of the model.  For targets
    from 0 to 2^31 - 1 the bounds are the targets. *)
Theorem X4_satisfiable_needs_equal_sums
    nrows ncols row_targets col_targets trees s p m :
  well_formed nrows ncols row_targets col_targets trees ->
  build_solver nrows ncols row_targets col_targets trees = Ok (s, p) ->
  satisfies m s ->
  total (map c_uint row_targets) = total (map c_uint col_targets) /\
  total (map c_uint row_targets)
  = total (map (tents_in_row m ncols) (range nrows)) /\
  (Forall (fun k => 0 <= k < 2 ^ 31) row_targets ->
   Forall (fun k => 0 <= k < 2 ^ 31) col_targets ->
   total row_targets = total col_targets).
Proof.
  intros Hwf Hrun Hm.
  destruct (counts_of_a_model Hwf Hrun Hm) as [Er Ec].
  assert (E : total (map c_uint row_targets) = total (map c_uint col_targets)).
  { rewrite <- Er, <- Ec; apply rows_and_columns_agree. }
  split; [exact E|]. split; [now rewrite Er|].
  intros Hr Hc.
  now rewrite <- (map_c_uint_small Hr), <- (map_c_uint_small Hc).
Qed.

Lemma X4_witness :
  total demo_rows = total demo_cols /\
  total demo_rows = total (map (tents_in_row demo_model 2) (range 2)).
Proof.
  assert (Hm : satisfies demo_model
                 (encoding 2 2 demo_rows demo_cols demo_trees))
    by (apply satisfiesb_true; vm_compute; reflexivity).
  destruct (@X4_satisfiable_needs_equal_sums 2 2 demo_rows demo_cols
              demo_trees _ _ demo_model demo_well_formed build_demo Hm)
    as (_ & E & Hsmall).
  split; [apply Hsmall; repeat constructor; lia | exact E].
Defined.

(** *** The inputs on which the encoder returns *)

Lemma flat_mapM_outcome A B (f : A -> result (list B)) (c : A -> bool)
    (g : A -> list B) (bad : A -> exn) xs :
  (forall x, In x xs -> f x = if c x then Ok (g x) else Raise (bad x)) ->
  flat_mapM f xs = match find (fun x => negb (c x)) xs with
                   | Some x => Raise (bad x)
                   | None => Ok (flat_map g xs)
                   end.
Proof.
  induction xs as [|x xs IH]; intros H; simpl; [reflexivity|].
  rewrite (H x (or_introl eq_refl)), IH by (intros y Hy; apply H; now right).
  destruct (c x); simpl; [|reflexivity].
  now destruct (find (fun x => negb (c x)) xs).
Qed.

Lemma count_phase_getitem (line : Z -> list expr) targets n
    (f : Z -> result (list expr)) :
  (forall i, 0 <= i < n -> line i <> []) ->
  (forall i, 0 <= i < n -> f i = count_of (@getitem) (Ok (line i)) targets i) ->
  flat_mapM f (range n)
  = match first_bad_target targets n with
    | Some i => Raise (target_error targets i)
    | None =>
        Ok (flat_map (fun i => count_clauses (line i)
                                 (nth (Z.to_nat i) (map c_uint targets) 0))
                     (range n))
    end.
Proof.
  intros Hne Hf; unfold first_bad_target.
  apply flat_mapM_outcome; intros i Hi; apply in_range in Hi.
  rewrite (Hf i Hi), nth_map_c_uint; unfold target_ok, target_error.
  pose proof (@getitem_nth_cases _ targets i 0 ltac:(lia)) as Hk.
  destruct (i <? len targets); cbn [andb].
  - destruct (bound_ok (nth (Z.to_nat i) targets 0)) eqn:Hb.
    + now apply count_of_nonempty; [|apply Hne|].
    + now apply count_of_refused with (k := nth (Z.to_nat i) targets 0).
  - unfold count_of; cbn [rbind]; now rewrite Hk.
Qed.

Lemma assertions_getitem nrows ncols row_targets col_targets trees :
  1 <= nrows -> 1 <= ncols ->
  assertions (@getitem) nrows ncols row_targets col_targets trees
  = match refusal nrows ncols row_targets col_targets trees with
    | Some e => Raise e
    | None => Ok (encoding_wrapped nrows ncols (map c_uint row_targets)
                                   (map c_uint col_targets) trees)
    end.
Proof.
  intros Hr Hc; unfold assertions, refusal, encoding_wrapped; cbv zeta.
  rewrite (@flat_mapM_guard _ _ _ (tree_ok nrows ncols)
             (fun t => [no_tent_on (wrap nrows (fst t - 1),
                                    wrap ncols (snd t - 1))]) IndexError)
    by (intros t _; apply exclusion_of_getitem).
  destruct (forallb (tree_ok nrows ncols) trees); cbn [rbind];
    [|reflexivity].
  rewrite (@count_phase_getitem (row_vars ncols) row_targets nrows).
  2:{ intros i _; now apply row_vars_nonempty. }
  2:{ intros i Hi; unfold row_count_of.
      now rewrite (@row_line (@getitem) (@getitem_nonneg)). }
  destruct (first_bad_target row_targets nrows); cbn [rbind]; [reflexivity|].
  rewrite (@count_phase_getitem (col_vars nrows) col_targets ncols).
  2:{ intros j _; now apply col_vars_nonempty. }
  2:{ intros j Hj; unfold col_count_of.
      now rewrite (@col_line (@getitem) (@getitem_nonneg)). }
  destruct (first_bad_target col_targets ncols); cbn [rbind]; [reflexivity|].
  rewrite (@adjacency_phase (@getitem) (@getitem_nonneg)); cbn [rbind].
  rewrite (@pairing_phase (@getitem) (@getitem_nonneg)); cbn [rbind].
  rewrite (@tree_tent_phase (@getitem) (@getitem_nonneg)); cbn [rbind].
  now rewrite flat_map_singleton.
Qed.

Lemma build_solver_cases nrows ncols row_targets col_targets trees :
  1 <= nrows -> 1 <= ncols ->
  build_solver nrows ncols row_targets col_targets trees
  = match refusal nrows ncols row_targets col_targets trees with
    | Some e => Raise e
    | None => Ok (encoding_wrapped nrows ncols (map c_uint row_targets)
                                   (map c_uint col_targets) trees,
                  declare_vars nrows ncols)
    end.
Proof.
  intros Hr Hc; unfold build_solver.
  rewrite build_solver_assertions, assertions_getitem by assumption.
  now destruct (refusal nrows ncols row_targets col_targets trees).
Qed.

Lemma trees_ok_true nrows ncols trees :
  forallb (tree_ok nrows ncols) trees = true <->
  forall t, In t trees ->
    - nrows <= fst t - 1 < nrows /\ - ncols <= snd t - 1 < ncols.
Proof.
  unfold tree_ok, subscript_ok; rewrite forallb_forall.
  split; intros H t Ht; specialize (H t Ht).
  - rewrite !andb_true_iff, !Z.leb_le, !Z.ltb_lt in H; lia.
  - rewrite !andb_true_iff, !Z.leb_le, !Z.ltb_lt; lia.
Qed.

Lemma target_ok_true targets i :
  target_ok targets i = true <->
  i < len targets /\ c_uint (nth (Z.to_nat i) targets 0) < 2 ^ 31.
Proof.
  unfold target_ok; now rewrite andb_true_iff, Z.ltb_lt, bound_ok_true.
Qed.

(** No row (column) is bad: every target is there and accepted. *)
Lemma first_bad_target_None targets n :
  first_bad_target targets n = None <->
  n <= len targets /\
  forall i, 0 <= i < n -> c_uint (nth (Z.to_nat i) targets 0) < 2 ^ 31.
Proof.
  unfold first_bad_target; split.
  - intros H.
    assert (Hall : forall i, 0 <= i < n -> target_ok targets i = true).
    { intros i Hi; apply in_range in Hi.
      pose proof (find_none _ _ H i Hi) as E; now apply negb_false_iff in E. }
    split.
    + destruct (Z_le_gt_dec n (len targets)) as [|Hgt]; [assumption|].
      pose proof (len_nonneg targets).
      assert (E : target_ok targets (len targets) = true) by (apply Hall; lia).
      apply target_ok_true in E; lia.
    + intros i Hi; now apply target_ok_true, Hall.
  - intros [Hlen Hall].
    destruct (find _ (range n)) as [i|] eqn:E; [|reflexivity].
    apply find_some in E as [Hi E]; apply in_range in Hi.
    apply negb_true_iff in E.
    assert (E' : target_ok targets i = true)
      by (apply target_ok_true; split; [lia | now apply Hall]).
    congruence.
Qed.

(** The first bad row (column) and what is wrong with it. *)
Lemma first_bad_target_Some targets n i :
  first_bad_target targets n = Some i ->
  0 <= i < n /\
  (target_error targets i = IndexError /\ len targets <= i \/
   target_error targets i = Z3Exception /\ i < len targets /\
   2 ^ 31 <= c_uint (nth (Z.to_nat i) targets 0)).
Proof.
  unfold first_bad_target; intros E.
  apply find_some in E as [Hi E]; apply in_range in Hi.
  split; [exact Hi|].
  apply negb_true_iff in E; unfold target_ok, target_error in *.
  destruct (Z.ltb_spec i (len targets)); cbn [andb] in E.
  - right; repeat split; try assumption.
    unfold bound_ok in E; now apply Z.ltb_ge in E.
  - left; split; [reflexivity | assumption].
Qed.

Lemma refusal_None nrows ncols row_targets col_targets trees :
  refusal nrows ncols row_targets col_targets trees = None <->
  (forall t, In t trees ->
     - nrows <= fst t - 1 < nrows /\ - ncols <= snd t - 1 < ncols) /\
  nrows <= len row_targets /\ ncols <= len col_targets /\
  (forall i, 0 <= i < nrows ->
     c_uint (nth (Z.to_nat i) row_targets 0) < 2 ^ 31) /\
  (forall j, 0 <= j < ncols ->
     c_uint (nth (Z.to_nat j) col_targets 0) < 2 ^ 31).
Proof.
  rewrite <- trees_ok_true; unfold refusal.
  pose proof (first_bad_target_None row_targets nrows) as Hr.
  pose proof (first_bad_target_None col_targets ncols) as Hc.
  destruct (forallb (tree_ok nrows ncols) trees);
    [|split; [discriminate | intros (E & _); discriminate]].
  destruct (first_bad_target row_targets nrows) as [i|].
  { split; [discriminate|].
    intros (_ & H1 & _ & H2 & _).
    destruct Hr as [_ Hr]; specialize (Hr (conj H1 H2)); discriminate. }
  destruct (first_bad_target col_targets ncols) as [j|].
  { split; [discriminate|].
    intros (_ & _ & H1 & _ & H2).
    destruct Hc as [_ Hc]; specialize (Hc (conj H1 H2)); discriminate. }
  destruct (proj1 Hr eq_refl), (proj1 Hc eq_refl).
  split; [intros _; auto | reflexivity].
Qed.

Lemma refusal_Some nrows ncols row_targets col_targets trees e :
  refusal nrows ncols row_targets col_targets trees = Some e ->
  (e = IndexError /\
   ~ ((forall t, In t trees ->
         - nrows <= fst t - 1 < nrows /\ - ncols <= snd t - 1 < ncols) /\
      nrows <= len row_targets /\ ncols <= len col_targets)) \/
  (e = Z3Exception /\
   ((exists i, 0 <= i < nrows /\ i < len row_targets /\
               2 ^ 31 <= c_uint (nth (Z.to_nat i) row_targets 0)) \/
    (exists j, 0 <= j < ncols /\ j < len col_targets /\
               2 ^ 31 <= c_uint (nth (Z.to_nat j) col_targets 0)))).
Proof.
  rewrite <- trees_ok_true; unfold refusal.
  destruct (forallb (tree_ok nrows ncols) trees).
  2:{ intros E; inversion E; left; split; [reflexivity|].
      intros (H & _); discriminate. }
  destruct (first_bad_target row_targets nrows) as [i|] eqn:Er.
  { intros E; inversion E; subst e; clear E.
    apply first_bad_target_Some in Er as (Hi & [[-> Hlen]|(-> & Hlen & Hb)]).
    - left; split; [reflexivity|]. intros (_ & Hl & _); lia.
    - right; split; [reflexivity|]. left; exists i; auto. }
  destruct (first_bad_target col_targets ncols) as [j|] eqn:Ec;
    [|discriminate].
  intros E; inversion E; subst e; clear E.
  apply first_bad_target_Some in Ec as (Hj & [[-> Hlen]|(-> & Hlen & Hb)]).
  - left; split; [reflexivity|]. intros (_ & _ & Hl); lia.
  - right; split; [reflexivity|]. right; exists j; auto.
Qed.

(** X5.  For a grid of at least one row and one column, [build_solver]
    returns exactly when every tree coordinate is a subscript [p] accepts
    (from 1 - rows to rows, from 1 - cols to cols), there are at least
    rows row targets and cols column targets, and each of the first rows
    row targets and of the first cols column targets, reduced to the 32
    bits of the bound parameter, is below 2^31.  Otherwise it raises
    IndexError or the exception of the bindings and nothing else:
    IndexError only when a tree coordinate is refused or targets are
    missing, the exception of the bindings only when a target that was
    read is refused. *)
Theorem X5_encoder_domain nrows ncols row_targets col_targets trees :
  1 <= nrows -> 1 <= ncols ->
  ((exists s p,
       build_solver nrows ncols row_targets col_targets trees = Ok (s, p)) <->
   (forall t, In t trees ->
      - nrows <= fst t - 1 < nrows /\ - ncols <= snd t - 1 < ncols) /\
   nrows <= len row_targets /\ ncols <= len col_targets /\
   (forall i, 0 <= i < nrows ->
      c_uint (nth (Z.to_nat i) row_targets 0) < 2 ^ 31) /\
   (forall j, 0 <= j < ncols ->
      c_uint (nth (Z.to_nat j) col_targets 0) < 2 ^ 31)) /\
  (forall e, build_solver nrows ncols row_targets col_targets trees = Raise e ->
             e = IndexError \/ e = Z3Exception) /\
  (build_solver nrows ncols row_targets col_targets trees = Raise IndexError ->
   ~ ((forall t, In t trees ->
         - nrows <= fst t - 1 < nrows /\ - ncols <= snd t - 1 < ncols) /\
      nrows <= len row_targets /\ ncols <= len col_targets)) /\
  (build_solver nrows ncols row_targets col_targets trees = Raise Z3Exception ->
   (exists i, 0 <= i < nrows /\ i < len row_targets /\
              2 ^ 31 <= c_uint (nth (Z.to_nat i) row_targets 0)) \/
   (exists j, 0 <= j < ncols /\ j < len col_targets /\
              2 ^ 31 <= c_uint (nth (Z.to_nat j) col_targets 0))).
Proof.
  intros Hr Hc; rewrite (build_solver_cases _ _ _ Hr Hc).
  rewrite <- refusal_None.
  destruct (refusal nrows ncols row_targets col_targets trees) as [e0|] eqn:E.
  - apply refusal_Some in E.
    split; [|split; [|split]].
    + split; [intros (s & p & H); discriminate | discriminate].
    + intros e H; inversion H; subst e0.
      destruct E as [[-> _]|[-> _]]; auto.
    + intros H; inversion H; subst e0.
      destruct E as [[_ E]|[E _]]; [exact E | discriminate].
    + intros H; inversion H; subst e0.
      destruct E as [[E _]|[_ E]]; [discriminate | exact E].
  - split; [|split; [|split]]; try discriminate.
    split; [reflexivity | eauto].
Qed.

Lemma X5_witness :
  (exists s p, build_solver 2 2 demo_rows demo_cols [(0, -1)] = Ok (s, p)) /\
  ~ (exists s p, build_solver 2 2 demo_rows demo_cols [(3, 1)] = Ok (s, p)) /\
  ~ (exists s p, build_solver 2 2 [1] demo_cols demo_trees = Ok (s, p)) /\
  ~ (exists s p, build_solver 2 2 [1; -1] demo_cols demo_trees = Ok (s, p)).
Proof.
  pose proof (@X5_encoder_domain 2 2 demo_rows demo_cols [(0, -1)]
                ltac:(lia) ltac:(lia)) as [H1 _].
  pose proof (@X5_encoder_domain 2 2 demo_rows demo_cols [(3, 1)]
                ltac:(lia) ltac:(lia)) as [H2 _].
  pose proof (@X5_encoder_domain 2 2 [1] demo_cols demo_trees
                ltac:(lia) ltac:(lia)) as [H3 _].
  pose proof (@X5_encoder_domain 2 2 [1; -1] demo_cols demo_trees
                ltac:(lia) ltac:(lia)) as [H4 _].
  split; [|split; [|split]].
  - apply H1; split; [|split; [|split; [|split]]].
    + intros t [<-|[]]; simpl; lia.
    + vm_compute; discriminate.
    + vm_compute; discriminate.
    + intros i Hi; assert (Ei : i = 0 \/ i = 1) by lia.
      destruct Ei as [-> | ->]; vm_compute; reflexivity.
    + intros j Hj; assert (Ej : j = 0 \/ j = 1) by lia.
      destruct Ej as [-> | ->]; vm_compute; reflexivity.
  - intros H; apply H2 in H as (H & _).
    specialize (H (3, 1) (or_introl eq_refl)); simpl in H; lia.
  - intros H; apply H3 in H as (_ & H & _). vm_compute in H; now apply H.
  - intros H; apply H4 in H as (_ & _ & _ & H & _).
    specialize (H 1 ltac:(lia)); vm_compute in H; discriminate.
Defined.

Lemma getitem_firstn (l : list Z) n i :
  0 <= i < n -> n <= len l ->
  getitem (firstn (Z.to_nat n) l) i = getitem l i.
Proof.
  intros Hi Hn.
  assert (El : len (firstn (Z.to_nat n) l) = n)
    by (unfold len in *; rewrite length_firstn; lia).
  rewrite !(@getitem_nth_cases _ _ i 0) by lia; rewrite El.
  destruct (Z.ltb_spec i n), (Z.ltb_spec i (len l)); try lia.
  rewrite nth_firstn.
  destruct (Nat.ltb_spec (Z.to_nat i) (Z.to_nat n)); [reflexivity | lia].
Qed.

Lemma count_of_firstn line targets n i :
  0 <= i < n -> n <= len targets ->
  count_of (@getitem) line (firstn (Z.to_nat n) targets) i
  = count_of (@getitem) line targets i.
Proof. intros Hi Hn; unfold count_of; now rewrite getitem_firstn. Qed.

(** X6.  [build_solver] reads only the first rows row targets and the
    first cols column targets: further targets change nothing. *)
Theorem X6_surplus_targets_ignored nrows ncols row_targets col_targets trees :
  1 <= nrows -> 1 <= ncols ->
  nrows <= len row_targets -> ncols <= len col_targets ->
  build_solver nrows ncols row_targets col_targets trees
  = build_solver nrows ncols (firstn (Z.to_nat nrows) row_targets)
                 (firstn (Z.to_nat ncols) col_targets) trees.
Proof.
  intros Hr Hc Hlr Hlc; unfold build_solver.
  rewrite !build_solver_assertions.
  assert (E : assertions (@getitem) nrows ncols
                (firstn (Z.to_nat nrows) row_targets)
                (firstn (Z.to_nat ncols) col_targets) trees
              = assertions (@getitem) nrows ncols row_targets col_targets
                           trees).
  { unfold assertions; cbv zeta.
    rewrite (@flat_mapM_ext_in _ _
               (row_count_of (@getitem) (declare_vars nrows ncols) ncols
                             (firstn (Z.to_nat nrows) row_targets))
               (row_count_of (@getitem) (declare_vars nrows ncols) ncols
                             row_targets))
      by (intros i Hi; apply in_range in Hi; unfold row_count_of;
          now apply count_of_firstn).
    rewrite (@flat_mapM_ext_in _ _
               (col_count_of (@getitem) (declare_vars nrows ncols) nrows
                             (firstn (Z.to_nat ncols) col_targets))
               (col_count_of (@getitem) (declare_vars nrows ncols) nrows
                             col_targets))
      by (intros j Hj; apply in_range in Hj; unfold col_count_of;
          now apply count_of_firstn).
    reflexivity. }
  now rewrite E.
Qed.

Lemma X6_witness :
  build_solver 2 2 [1; 0; 7; 7] [0; 1; 9] demo_trees
  = build_solver 2 2 demo_rows demo_cols demo_trees.
Proof.
  apply (@X6_surplus_targets_ignored 2 2 [1; 0; 7; 7] [0; 1; 9] demo_trees);
    vm_compute; discriminate.
Defined.

(* ===================================================================== *)
(** ** Further properties of the loader                                    *)
(* ===================================================================== *)

(** *** The trees of the board *)

Lemma flat_map_guarded A B (c : A -> bool) (g : A -> B) l :
  flat_map (fun x => if c x then [g x] else []) l = map g (filter c l).
Proof.
  induction l as [|x l IH]; simpl; [reflexivity|].
  destruct (c x); simpl; now rewrite IH.
Qed.

Lemma in_guarded_grid A B C (c : A -> B -> bool) (f : A -> B -> C) l1 l2 e :
  In e (flat_map (fun a =>
          flat_map (fun b => if c a b then [f a b] else []) l2) l1) <->
  exists a b, In a l1 /\ In b l2 /\ c a b = true /\ e = f a b.
Proof.
  rewrite in_flat_map; split.
  - intros (a & Ha & He); rewrite flat_map_guarded in He.
    apply in_map_iff in He as (b & <- & Hb); apply filter_In in Hb as [Hb Hc].
    exists a, b; auto.
  - intros (a & b & Ha & Hb & Hc & ->); exists a; split; [exact Ha|].
    rewrite flat_map_guarded; apply in_map, filter_In; auto.
Qed.

Lemma NoDup_guarded_grid A B C (c : A -> B -> bool) (f : A -> B -> C) l1 l2 :
  (forall a b a' b', f a b = f a' b' -> a = a' /\ b = b') ->
  NoDup l1 -> NoDup l2 ->
  NoDup (flat_map (fun a =>
           flat_map (fun b => if c a b then [f a b] else []) l2) l1).
Proof.
  intros Hinj H1 H2; induction H1 as [|x l1 Hx _ IH]; simpl; [constructor|].
  apply NoDup_app; [|exact IH|].
  - rewrite flat_map_guarded; apply NoDup_map_inj.
    + intros b b' E; now apply Hinj in E.
    + now apply NoDup_filter.
  - intros e He He'; rewrite flat_map_guarded in He.
    apply in_map_iff in He as (b & <- & _).
    apply in_guarded_grid in He' as (a' & b' & Ha' & _ & _ & E).
    apply Hinj in E as [-> _]; contradiction.
Qed.

Lemma collect_trees_eq nrows ncols bd :
  len bd = nrows -> Forall (fun r => len r = ncols) bd ->
  collect_trees nrows ncols bd
  = Ok (flat_map (fun i =>
          flat_map (fun j =>
              if String.eqb (marker_at bd i j) tree_marker
              then [(i + 1, j + 1)] else [])
            (range ncols))
          (range nrows)).
Proof.
  intros Hb Hr; unfold collect_trees.
  apply flat_mapM_pure; intros i Hi; apply in_range in Hi.
  apply flat_mapM_pure; intros j Hj; apply in_range in Hj.
  rewrite getitem_nonneg, (@getitem_strict_nth _ bd i []) by lia;
    cbn [rbind].
  assert (Hrow : len (nth (Z.to_nat i) bd []) = ncols).
  { rewrite Forall_forall in Hr; apply Hr, nth_In; unfold len in *; lia. }
  now rewrite getitem_nonneg, (@getitem_strict_nth _ _ j EmptyString) by lia.
Qed.

(** The trees [parse_puzzle] returns, in terms of the board it returns. *)
Lemma parsed_trees text pz :
  parse_puzzle text = Ok pz ->
  pz.(tree_positions)
  = flat_map (fun i =>
      flat_map (fun j =>
          if String.eqb (marker_at pz.(board) i j) tree_marker
          then [(i + 1, j + 1)] else [])
        (range pz.(ncols)))
      (range pz.(nrows)).
Proof.
  unfold parse_puzzle; intros H.
  destruct (tokenize text) as [|hdr rows]; [discriminate|].
  destruct (parse_tokens_spec hdr rows)
    as [(cts & rts & trees & Hc & Hlong & Hr & Ht & E)|(_ & E)];
    rewrite E in H; [|discriminate].
  inversion H; subst pz; clear H E;
    cbn [nrows ncols board tree_positions].
  rewrite collect_trees_eq in Ht.
  - now inversion Ht.
  - apply len_map.
  - apply board_shape; [apply len_nonneg | exact Hlong].
Qed.

Lemma in_parsed_trees text pz t :
  parse_puzzle text = Ok pz ->
  (In t pz.(tree_positions) <->
   inside pz.(nrows) pz.(ncols) (cell_of t) /\
   is_tree_marker pz.(board) (cell_of t)).
Proof.
  intros H; rewrite (@parsed_trees text pz H), in_guarded_grid.
  unfold inside, is_tree_marker, cell_of; simpl; split.
  - intros (i & j & Hi & Hj & Hc & ->); apply in_range in Hi, Hj; simpl.
    replace (i + 1 - 1) with i by lia; replace (j + 1 - 1) with j by lia.
    apply String.eqb_eq in Hc; auto.
  - intros ([Hi Hj] & Hc); exists (fst t - 1), (snd t - 1).
    repeat split; try (apply in_range; assumption).
    + now apply String.eqb_eq.
    + destruct t as [ti tj]; simpl; f_equal; lia.
Qed.

(** X7.  The trees [parse_puzzle] returns are exactly the cells of the
    board whose marker is the string "T", in 1-based coordinates, each
    listed once; every other marker is an open cell. *)
Theorem X7_trees_are_the_T_cells text pz :
  parse_puzzle text = Ok pz ->
  NoDup pz.(tree_positions) /\
  forall t, In t pz.(tree_positions) <->
            inside pz.(nrows) pz.(ncols) (cell_of t) /\
            is_tree_marker pz.(board) (cell_of t).
Proof.
  intros H; split; [|intros t; exact (@in_parsed_trees text pz t H)].
  rewrite (@parsed_trees text pz H).
  apply (@NoDup_guarded_grid _ _ _
           (fun i j => String.eqb (marker_at pz.(board) i j) tree_marker)
           (fun i j => (i + 1, j + 1))); auto using NoDup_range.
  intros a b a' b' E; inversion E; lia.
Qed.

Lemma X7_witness :
  exists pz,
    parse_puzzle demo_text = Ok pz /\
    NoDup pz.(tree_positions) /\
    In (1, 1) pz.(tree_positions) /\ ~ In (1, 2) pz.(tree_positions).
Proof.
  eexists; split; [vm_compute; reflexivity|].
  destruct (@X7_trees_are_the_T_cells demo_text _ eq_refl) as [Hnd Hin].
  split; [exact Hnd|]. split.
  - apply Hin; split; [unfold inside, cell_of; cbn; lia | reflexivity].
  - intros H; apply Hin in H as [_ H]; vm_compute in H; discriminate.
Defined.

(** X8.  In every model of the solver built for a loaded file, no tent
    stands on a cell marked "T", and every tent shares an edge with a
    cell of the board marked "T". *)
Theorem X8_tents_beside_T_cells_only text pz s p m :
  parse_puzzle text = Ok pz ->
  build_solver pz.(nrows) pz.(ncols) pz.(row_targets) pz.(col_targets)
               pz.(tree_positions) = Ok (s, p) ->
  satisfies m s ->
  forall c, inside pz.(nrows) pz.(ncols) c ->
    (is_tree_marker pz.(board) c -> ~ tent m c) /\
    (tent m c ->
     exists n, inside pz.(nrows) pz.(ncols) n /\ orth_adjacent c n /\
               is_tree_marker pz.(board) n).
Proof.
  intros Hp Hrun Hm c Hc.
  assert (Hrows : 1 <= pz.(nrows)) by (destruct Hc; simpl in *; lia).
  pose proof (@loaded_grid_well_formed _ _ Hp Hrows) as Hwf.
  destruct (build_solver_well_formed_inv Hwf Hrun) as (_ & _ & -> & _).
  apply (@encoding_models _ _ _ _ _ m (well_formed_trees_inside Hwf)) in Hm.
  destruct Hm as (Hexcl & _ & _ & _ & Hpair & _).
  split.
  - intros Hmark.
    assert (Ht : In (fst c + 1, snd c + 1) pz.(tree_positions)).
    { apply (@in_parsed_trees text pz _ Hp); unfold cell_of; simpl.
      replace (fst c + 1 - 1) with (fst c) by lia.
      replace (snd c + 1 - 1) with (snd c) by lia.
      destruct c; split; assumption. }
    specialize (Hexcl _ Ht); unfold cell_of in Hexcl; simpl in Hexcl.
    replace (fst c + 1 - 1) with (fst c) in Hexcl by lia.
    replace (snd c + 1 - 1) with (snd c) in Hexcl by lia.
    destruct c; exact Hexcl.
  - intros Htent; destruct (Hpair c Hc Htent) as (t & Ht & Hadj).
    apply (@in_parsed_trees text pz _ Hp) in Ht as [Hin Hmark].
    exists (cell_of t); auto.
Qed.

Lemma X8_witness :
  exists pz s p,
    parse_puzzle demo_text = Ok pz /\
    build_solver pz.(nrows) pz.(ncols) pz.(row_targets) pz.(col_targets)
                 pz.(tree_positions) = Ok (s, p) /\
    satisfies demo_model s /\
    ~ tent demo_model (0, 0) /\
    exists n, inside 2 2 n /\ orth_adjacent (0, 1) n /\
              is_tree_marker pz.(board) n.
Proof.
  exists (Puzzle 2 2 demo_rows demo_cols
                 [["T"; "."]; ["."; "."]]%string demo_trees).
  exists (encoding 2 2 demo_rows demo_cols demo_trees), (declare_vars 2 2).
  assert (Hm : satisfies demo_model (encoding 2 2 demo_rows demo_cols demo_trees))
    by (apply satisfiesb_true; vm_compute; reflexivity).
  split; [exact parse_demo|]. split; [exact build_demo|].
  split; [exact Hm|].
  split.
  - refine (proj1 (@X8_tents_beside_T_cells_only demo_text _ _ _ demo_model
                     parse_demo build_demo Hm (0, 0) _) _).
    + unfold inside; simpl; lia.
    + reflexivity.
  - refine (proj2 (@X8_tents_beside_T_cells_only demo_text _ _ _ demo_model
                     parse_demo build_demo Hm (0, 1) _) _).
    + unfold inside; simpl; lia.
    + reflexivity.
Defined.

(** *** Lines *)

Lemma splitlines_from_nl t cur :
  splitlines_from (nl ++ t) cur = cur :: splitlines t.
Proof. unfold splitlines; now destruct t. Qed.

Lemma filter_nonblank_cons cur ls :
  filter nonblank (cur :: ls)
  = filter nonblank [cur] ++ filter nonblank ls.
Proof. simpl; now destruct (nonblank cur). Qed.

Lemma splitlines_from_join t2 n :
  forall t1 cur, (String.length t1 <= n)%nat ->
    filter nonblank (splitlines_from (t1 ++ nl ++ t2) cur)
    = filter nonblank (splitlines_from t1 cur)
      ++ filter nonblank (splitlines t2).
Proof.
  induction n as [|n IH]; intros [|c r] cur Hlen;
    try (simpl in Hlen; lia).
  - cbn [append]; rewrite splitlines_from_nl.
    destruct cur; [reflexivity | apply filter_nonblank_cons].
  - cbn [append]; rewrite splitlines_from_nl.
    destruct cur; [reflexivity | apply filter_nonblank_cons].
  - simpl in Hlen.
    cbn [append splitlines_from].
    destruct (is_linebreak c) eqn:Eb.
    + rewrite filter_nonblank_cons,
        (filter_nonblank_cons cur (match r with
                                   | EmptyString => _
                                   | String _ _ => _
                                   end)).
      rewrite <- app_assoc; f_equal.
      destruct r as [|c' r'].
      * cbn [append]. change (String (ascii_of_nat 10) t2) with (nl ++ t2)%string.
        unfold nl at 1; cbn [append].
        change (code (ascii_of_nat 10) =? 10)%nat with true.
        rewrite andb_true_r.
        destruct (code c =? 13)%nat; [reflexivity|].
        change (String (ascii_of_nat 10) t2) with (nl ++ t2)%string.
        now rewrite splitlines_from_nl.
      * cbn [append].
        destruct ((code c =? 13)%nat && (code c' =? 10)%nat).
        -- apply IH; simpl in Hlen; lia.
        -- apply (IH (String c' r')); lia.
    + apply IH; lia.
Qed.

Lemma read_lines_join t1 t2 :
  read_lines (t1 ++ nl ++ t2) = read_lines t1 ++ read_lines t2.
Proof.
  unfold read_lines, splitlines.
  change (fun line => negb (is_empty (strip line))) with nonblank.
  rewrite (@splitlines_from_join t2 (String.length t1)) by lia.
  apply map_app.
Qed.

(** X9.  The token table of two texts joined by a newline is the token
    table of the first followed by that of the second: the loader sees a
    file as the sequence of its non-blank lines, wherever the blank lines
    and the final newline are. *)
Theorem X9_tokenize_line_by_line t1 t2 :
  tokenize (t1 ++ nl ++ t2) = tokenize t1 ++ tokenize t2.
Proof. unfold tokenize; rewrite read_lines_join; apply map_app. Qed.

(** *** Blank text *)

Lemma blank_snoc cur c :
  blank cur = true -> isspace c = true -> blank (snoc_char cur c) = true.
Proof.
  intros Hcur Hc; unfold snoc_char.
  induction cur as [|a cur IH]; simpl in *.
  - now rewrite Hc.
  - apply andb_true_iff in Hcur as [Ha Hcur]; rewrite Ha; simpl; auto.
Qed.

Lemma lstrip_blank s : blank s = true -> lstrip s = EmptyString.
Proof.
  induction s as [|c s IH]; simpl; [reflexivity|].
  intros H; apply andb_true_iff in H as [Hc Hs]; rewrite Hc; auto.
Qed.

Lemma blank_is_not_nonblank s : blank s = true -> nonblank s = false.
Proof. intros H; unfold nonblank, strip; now rewrite lstrip_blank. Qed.

Lemma splitlines_from_blank n :
  forall text cur, (String.length text <= n)%nat ->
    blank text = true -> blank cur = true ->
    Forall (fun line => blank line = true) (splitlines_from text cur).
Proof.
  induction n as [|n IH]; intros [|c r] cur Hlen Ht Hc;
    try (simpl in Hlen; lia).
  - simpl; destruct (is_empty cur); repeat constructor; assumption.
  - simpl; destruct (is_empty cur); repeat constructor; assumption.
  - simpl in Hlen; cbn [blank] in Ht; apply andb_true_iff in Ht as [Hsp Hr].
    cbn [splitlines_from].
    destruct (is_linebreak c).
    + constructor; [exact Hc|].
      destruct r as [|c' r'].
      * apply IH; [simpl; lia | reflexivity | reflexivity].
      * cbn [blank] in Hr; pose proof Hr as Hr0.
        apply andb_true_iff in Hr as [Hsp' Hr'].
        destruct ((code c =? 13)%nat && (code c' =? 10)%nat).
        -- apply IH; [simpl in Hlen; lia | exact Hr' | reflexivity].
        -- apply IH; [lia | exact Hr0 | reflexivity].
    + apply IH; [lia | exact Hr | now apply blank_snoc].
Qed.

Lemma read_lines_blank text : blank text = true -> read_lines text = [].
Proof.
  intros H; unfold read_lines, splitlines.
  change (fun line => negb (is_empty (strip line))) with nonblank.
  pose proof (@splitlines_from_blank (String.length text) text EmptyString
                (le_n _) H eq_refl) as HF.
  induction HF as [|line ls Hline _ IH]; simpl; [reflexivity|].
  now rewrite (blank_is_not_nonblank _ Hline).
Qed.

(** X10.  On a text without any non-whitespace character (the empty file
    included) [parse_puzzle] raises IndexError, from [tokens[0]], and so
    does [solve_and_display], whatever the solver. *)
Theorem X10_blank_text_raises_IndexError text :
  blank text = true ->
  parse_puzzle text = Raise IndexError /\
  forall check get_model to_smt2 duration,
    solve_and_display check get_model to_smt2 duration text = Raise IndexError.
Proof.
  intros H.
  assert (E : parse_puzzle text = Raise IndexError).
  { unfold parse_puzzle, tokenize; now rewrite read_lines_blank. }
  split; [exact E|].
  intros check get_model to_smt2 duration.
  unfold solve_and_display; now rewrite E.
Qed.

Lemma X10_witness :
  parse_puzzle ("   " ++ nl ++ nl ++ " ")%string = Raise IndexError.
Proof.
  apply (@X10_blank_text_raises_IndexError ("   " ++ nl ++ nl ++ " ")%string).
  reflexivity.
Defined.

(** *** Tokens *)

Lemma lstrip_head s c r : lstrip s = String c r -> isspace c = false.
Proof.
  induction s as [|a s IH]; simpl; [discriminate|].
  destruct (isspace a) eqn:Ea; [exact IH|].
  intros E; inversion E; subst; exact Ea.
Qed.

Lemma ends_ok_rstrip s : ends_ok (rstrip s) = true.
Proof.
  induction s as [|c s IH]; simpl; [reflexivity|].
  destruct (rstrip s) as [|c' s'] eqn:Er; simpl.
  - rewrite andb_true_r.
    destruct (isspace c) eqn:Ec; simpl; [reflexivity | now rewrite Ec].
  - rewrite andb_false_r. exact IH.
Qed.

Lemma rstrip_head c r :
  isspace c = false -> rstrip (String c r) = String c (rstrip r).
Proof. intros H; simpl; now rewrite H. Qed.

Lemma no_space_snoc cur c :
  no_space cur = true -> isspace c = false ->
  no_space (snoc_char cur c) = true.
Proof.
  intros Hcur Hc; unfold snoc_char.
  induction cur as [|a cur IH]; simpl in *.
  - now rewrite Hc.
  - apply andb_true_iff in Hcur as [Ha Hcur]; rewrite Ha; simpl; auto.
Qed.

Lemma snoc_char_nonempty cur c : snoc_char cur c <> EmptyString.
Proof. destruct cur; discriminate. Qed.

Lemma ends_ok_tail c r : r <> EmptyString -> ends_ok (String c r) = ends_ok r.
Proof. destruct r; [congruence | reflexivity]. Qed.

(** Inside a token ([in_ws] false, [cur] a proper token) or after a run of
    whitespace ([in_ws] true, [cur] empty, text left): the pieces are
    proper tokens when the text does not end in whitespace. *)
Lemma re_split_ws_from_proper s :
  forall cur in_ws,
    ends_ok s = true ->
    (in_ws = false /\ proper_token cur) \/
    (in_ws = true /\ cur = EmptyString /\ s <> EmptyString) ->
    Forall proper_token (re_split_ws_from s cur in_ws).
Proof.
  induction s as [|c s IH]; intros cur in_ws Hend Hstate.
  - destruct Hstate as [[_ Hcur]|[_ [_ Hs]]]; [|congruence].
    cbn [re_split_ws_from]; constructor; [exact Hcur | constructor].
  - cbn [re_split_ws_from].
    assert (Hrest : isspace c = true -> s <> EmptyString /\ ends_ok s = true).
    { intros Hc; destruct s as [|c' s'].
      - simpl in Hend; rewrite Hc in Hend; discriminate.
      - split; [discriminate | exact Hend]. }
    assert (Hend' : ends_ok s = true).
    { destruct s as [|c' s']; [reflexivity | exact Hend]. }
    destruct (isspace c) eqn:Ec.
    + destruct (Hrest eq_refl) as [Hs Hes].
      destruct Hstate as [[-> Hcur]|[-> [-> _]]].
      * constructor; [exact Hcur|].
        apply IH; [exact Hes | right; auto].
      * apply IH; [exact Hes | right; auto].
    + apply IH; [exact Hend'|]. left; split; [reflexivity|].
      destruct Hstate as [[_ [_ Hns]]|[_ [-> _]]].
      * split; [apply snoc_char_nonempty | now apply no_space_snoc].
      * split; [discriminate | simpl; now rewrite Ec].
Qed.

Lemma re_split_ws_strip line :
  strip line <> EmptyString -> Forall proper_token (re_split_ws (strip line)).
Proof.
  intros Hne; unfold re_split_ws.
  pose proof (ends_ok_rstrip (lstrip line)) as Hend; fold (strip line) in Hend.
  unfold strip in *.
  destruct (lstrip line) as [|c r] eqn:El; [now destruct Hne|].
  pose proof (@lstrip_head _ _ _ El) as Hc.
  rewrite (@rstrip_head c r Hc) in *.
  cbn [re_split_ws_from]; rewrite Hc.
  apply re_split_ws_from_proper.
  - destruct (rstrip r); [reflexivity | exact Hend].
  - left; split; [reflexivity|].
    split; [discriminate | simpl; now rewrite Hc].
Qed.

(** X11.  Every row of the token table has at least one token, and every
    token is non-empty and free of whitespace, whatever the spacing of the
    text; so a loaded grid has at least one column. *)
Theorem X11_tokens_are_proper text :
  Forall (fun row => row <> [] /\ Forall proper_token row) (tokenize text) /\
  (forall pz, parse_puzzle text = Ok pz -> 1 <= pz.(ncols)).
Proof.
  split.
  - unfold tokenize, read_lines.
    apply Forall_map, Forall_map, Forall_forall; intros line Hline.
    apply filter_In in Hline as [_ Hnb].
    split; [apply re_split_ws_from_nonempty|].
    apply re_split_ws_strip.
    destruct (strip line); [discriminate | discriminate].
  - intros pz H.
    destruct (parse_puzzle_Ok_inv _ H)
      as (hdr & rows & Htok & _ & Enc & _).
    pose proof (tokenize_rows_nonempty text) as Hne.
    rewrite Htok in Hne; apply Forall_inv in Hne.
    rewrite Enc; destruct hdr; [congruence|].
    unfold len; cbn [List.length]; lia.
Qed.

(* ===================================================================== *)
(** ** Further properties of the driver and of the names                   *)
(* ===================================================================== *)

Lemma len_cons A (x : A) l : len (x :: l) = 1 + len l.
Proof. unfold len; cbn [List.length]; lia. Qed.

Lemma render_row_declared trees m nrows ncols i :
  0 <= i < nrows ->
  render_row trees m (declare_vars nrows ncols) ncols i
  = Ok (row_text trees m ncols i).
Proof.
  intros Hi; unfold render_row, row_text.
  rewrite mapM_pure with (g := cell_text trees m i); [reflexivity|].
  intros j Hj; apply in_range in Hj; unfold cell_text.
  destruct (mem (i + 1, j + 1) trees); [reflexivity|].
  rewrite (@cell_declared (@getitem) (@getitem_nonneg)) by assumption.
  cbn [rbind eval]. now destruct (m (var_name i j)).
Qed.

(** What [solve_and_display] does once the encoder has returned. *)
Lemma solve_and_display_built
    check get_model to_smt2 duration text pz s p :
  parse_puzzle text = Ok pz ->
  build_solver pz.(nrows) pz.(ncols) pz.(row_targets) pz.(col_targets)
               pz.(tree_positions) = Ok (s, p) ->
  solve_and_display check get_model to_smt2 duration text
  = Ok (status_line (check s) duration
          :: report (check s) pz.(tree_positions) (get_model s)
                    pz.(nrows) pz.(ncols),
        to_smt2 s) /\
  len (report (check s) pz.(tree_positions) (get_model s)
              pz.(nrows) pz.(ncols))
  = match check s with sat => Z.max 0 pz.(nrows) + 1 | _ => 1 end.
Proof.
  intros Hp Hrun.
  unfold solve_and_display; rewrite Hp; cbn [rbind]; rewrite Hrun; cbn [rbind].
  apply build_solver_Ok in Hrun as [_ ->].
  unfold report.
  destruct (check s); split; try reflexivity.
  - cbv zeta.
    rewrite mapM_pure with
      (g := row_text pz.(tree_positions) (get_model s) pz.(ncols));
      [reflexivity|].
    intros i Hi; apply in_range in Hi. now apply render_row_declared.
  - rewrite len_cons, len_map, len_range; lia.
Qed.

(** The runs of [solve_and_display] on a file that loads. *)
Lemma solve_and_display_cases check get_model to_smt2 duration text pz :
  parse_puzzle text = Ok pz ->
  solve_and_display check get_model to_smt2 duration text
  = if (1 <=? pz.(nrows)) && bounds_ok pz.(row_targets)
       && bounds_ok pz.(col_targets)
    then
      let s := encoding pz.(nrows) pz.(ncols) (map c_uint pz.(row_targets))
                        (map c_uint pz.(col_targets)) pz.(tree_positions) in
      Ok (status_line (check s) duration
            :: report (check s) pz.(tree_positions) (get_model s)
                      pz.(nrows) pz.(ncols),
          to_smt2 s)
    else Raise Z3Exception.
Proof.
  intros Hp; pose proof (build_solver_loaded _ Hp) as Hrun.
  destruct ((1 <=? pz.(nrows)) && bounds_ok pz.(row_targets)
            && bounds_ok pz.(col_targets)).
  - exact (proj1 (solve_and_display_built check get_model to_smt2 duration
                    _ Hp Hrun)).
  - unfold solve_and_display; rewrite Hp; cbn [rbind]; now rewrite Hrun.
Qed.

(** X12.  For a file that loads with at least one data row and targets
    the bindings accept, [solve_and_display] returns whatever the solver
    answers: it prints the status line, then for [sat] the column labels
    and one line per row showing T on trees, X on the other cells the
    model makes true and a dot elsewhere, and for any other verdict "No
    solution found."; the exported text is that of the solver
    [build_solver] returned, for every verdict. *)
Theorem X12_display_of_a_loaded_file
    check get_model to_smt2 duration text pz :
  parse_puzzle text = Ok pz -> 1 <= pz.(nrows) ->
  bounds_ok pz.(row_targets) = true -> bounds_ok pz.(col_targets) = true ->
  exists s p,
    build_solver pz.(nrows) pz.(ncols) pz.(row_targets) pz.(col_targets)
                 pz.(tree_positions) = Ok (s, p) /\
    solve_and_display check get_model to_smt2 duration text
    = Ok (status_line (check s) duration
            :: report (check s) pz.(tree_positions) (get_model s)
                      pz.(nrows) pz.(ncols),
          to_smt2 s) /\
    len (report (check s) pz.(tree_positions) (get_model s)
                pz.(nrows) pz.(ncols))
    = match check s with sat => pz.(nrows) + 1 | _ => 1 end.
Proof.
  intros Hp Hrows Hbr Hbc.
  pose proof (build_solver_well_formed (loaded_grid_well_formed _ Hp Hrows)
                Hbr Hbc) as Hrun.
  eexists; eexists; split; [exact Hrun|].
  destruct (solve_and_display_built check get_model to_smt2 duration _ Hp Hrun)
    as [E El].
  split; [exact E|].
  rewrite El, Z.max_r by lia; reflexivity.
Qed.

Lemma X12_witness :
  solve_and_display (fun _ => sat) (fun _ => demo_model)
                    (fun _ => EmptyString) "0.0100" demo_text
  = Ok (["Z3 status: sat, time: 0.0100 sec";
         "       c1  c2 ";
         "r1:  T   X  ";
         "r2:  .   .  "]%string, EmptyString).
Proof.
  destruct (@X12_display_of_a_loaded_file (fun _ => sat) (fun _ => demo_model)
              (fun _ => EmptyString) "0.0100" demo_text _ parse_demo)
    as (s & p & _ & E & _).
  - simpl; lia.
  - reflexivity.
  - reflexivity.
  - rewrite E; reflexivity.
Defined.

(** X13.  The names given to the constants identify the cells: two cells
    have the same name only if they are the same cell, for all integer
    coordinates. *)
Theorem X13_names_identify_cells i j i' j' :
  var_name i j = var_name i' j' <-> i = i' /\ j = j'.
Proof.
  split; [apply var_name_inj | intros [-> ->]; reflexivity].
Qed.

(** X14.  A file whose only non-blank line is the header loads as a grid
    without rows; on it [build_solver] asks [AtMost] for a column without
    any cell, the bindings raise, and [solve_and_display] ends with that
    exception. *)
Theorem X14_header_only_file text pz :
  parse_puzzle text = Ok pz -> pz.(nrows) = 0 ->
  pz.(tree_positions) = [] /\
  build_solver pz.(nrows) pz.(ncols) pz.(row_targets) pz.(col_targets)
               pz.(tree_positions) = Raise Z3Exception /\
  forall check get_model to_smt2 duration,
    solve_and_display check get_model to_smt2 duration text
    = Raise Z3Exception.
Proof.
  intros Hp Hz.
  destruct (parse_puzzle_Ok_inv _ Hp)
    as (hdr & rows & Htok & Enr & Enc & _ & Hlc & _ & _ & Hb).
  assert (Hcols : 1 <= pz.(ncols)).
  { pose proof (tokenize_rows_nonempty text) as Hne.
    rewrite Htok in Hne; apply Forall_inv in Hne.
    rewrite Enc; destruct hdr; [congruence|].
    unfold len; cbn [List.length]; lia. }
  assert (Et : pz.(tree_positions) = []).
  { destruct pz.(tree_positions) as [|t ts]; [reflexivity|].
    apply Forall_inv in Hb; lia. }
  assert (Eb : build_solver pz.(nrows) pz.(ncols) pz.(row_targets)
                 pz.(col_targets) pz.(tree_positions) = Raise Z3Exception).
  { rewrite Hz, Et; apply build_solver_without_rows; [exact Hcols | lia]. }
  split; [exact Et|]. split; [exact Eb|].
  intros check get_model to_smt2 duration.
  unfold solve_and_display; rewrite Hp; cbn [rbind]; now rewrite Eb.
Qed.

Lemma X14_witness :
  solve_and_display (fun _ => sat) (fun _ => demo_model)
                    (fun _ => EmptyString) "0.0100" ("2 0 1" ++ nl)%string
  = Raise Z3Exception.
Proof.
  assert (Hp : parse_puzzle ("2 0 1" ++ nl)%string
               = Ok (Puzzle 0 3 [] [2; 0; 1] [] [])) by reflexivity.
  apply (proj2 (proj2 (@X14_header_only_file _ _ Hp eq_refl))).
Defined.

Lemma len_filter_le A (c : A -> bool) l : 0 <= len (filter c l) <= len l.
Proof.
  unfold len; split; [lia|].
  apply inj_le. induction l as [|x l IH]; simpl; [lia|].
  destruct (c x); simpl; lia.
Qed.

(** X15.  On a well-formed grid the solver [build_solver] returns has a
    model only if the bound of every row lies between 0 and cols and the
    bound of every column between 0 and rows.  A target from -2^31 to
    2^32 - 1 that was accepted is its own bound, so it lies in that
    range. *)
Theorem X15_targets_within_the_grid
    nrows ncols row_targets col_targets trees s p m :
  well_formed nrows ncols row_targets col_targets trees ->
  build_solver nrows ncols row_targets col_targets trees = Ok (s, p) ->
  satisfies m s ->
  Forall (fun k => 0 <= c_uint k <= ncols) row_targets /\
  Forall (fun k => 0 <= c_uint k <= nrows) col_targets /\
  (forall k, In k row_targets -> - 2 ^ 31 <= k < 2 ^ 32 -> 0 <= k <= ncols) /\
  (forall k, In k col_targets -> - 2 ^ 31 <= k < 2 ^ 32 -> 0 <= k <= nrows).
Proof.
  intros Hwf Hrun Hm.
  destruct (counts_of_a_model Hwf Hrun Hm) as [Er Ec].
  destruct (build_solver_well_formed_inv Hwf Hrun) as (Hbr & Hbc & _).
  assert (Hr : Forall (fun k => 0 <= c_uint k <= ncols) row_targets).
  { apply Forall_forall; intros k Hk.
    apply (in_map c_uint) in Hk; rewrite <- Er in Hk.
    apply in_map_iff in Hk as (i & <- & _); unfold tents_in_row.
    pose proof (len_filter_le (fun j => m (var_name i j)) (range ncols)) as H.
    rewrite len_range in H; destruct Hwf as (_ & Hnc & _); lia. }
  assert (Hc : Forall (fun k => 0 <= c_uint k <= nrows) col_targets).
  { apply Forall_forall; intros k Hk.
    apply (in_map c_uint) in Hk; rewrite <- Ec in Hk.
    apply in_map_iff in Hk as (j & <- & _); unfold tents_in_col.
    pose proof (len_filter_le (fun i => m (var_name i j)) (range nrows)) as H.
    rewrite len_range in H; destruct Hwf as (Hnr & _); lia. }
  split; [exact Hr|]. split; [exact Hc|].
  unfold bounds_ok in Hbr, Hbc; rewrite forallb_forall in Hbr, Hbc.
  rewrite Forall_forall in Hr, Hc.
  split; intros k Hk Hrange.
  - rewrite <- (accepted_bound (Hbr k Hk) Hrange); auto.
  - rewrite <- (accepted_bound (Hbc k Hk) Hrange); auto.
Qed.

Lemma X15_witness :
  Forall (fun k => 0 <= k <= 2) demo_rows /\
  Forall (fun k => 0 <= k <= 2) demo_cols.
Proof.
  assert (Hm : satisfies demo_model
                 (encoding 2 2 demo_rows demo_cols demo_trees))
    by (apply satisfiesb_true; vm_compute; reflexivity).
  destruct (@X15_targets_within_the_grid 2 2 demo_rows demo_cols demo_trees
              _ _ demo_model demo_well_formed build_demo Hm)
    as (_ & _ & Hr & Hc).
  split; apply Forall_forall; intros k Hk.
  - apply Hr; [exact Hk|].
    destruct Hk as [<-|[<-|[]]]; lia.
  - apply Hc; [exact Hk|].
    destruct Hk as [<-|[<-|[]]]; lia.
Defined.

Lemma X11_witness :
  exists pz, parse_puzzle demo_text = Ok pz /\ 1 <= pz.(ncols).
Proof.
  eexists; split; [exact parse_demo|].
  exact (proj2 (@X11_tokens_are_proper demo_text) _ parse_demo).
Defined.

Lemma parsed_rows_nonneg text pz : parse_puzzle text = Ok pz -> 0 <= pz.(nrows).
Proof.
  intros H; destruct (parse_puzzle_Ok_inv _ H) as (hdr & rows & _ & -> & _).
  apply len_nonneg.
Qed.

(** X16.  [solve_and_display] returns exactly when the file loads with
    at least one data row and targets the bindings accept.  When the
    loader raises, the run ends with the loader's exception; when the file
    has a header only or a target the bindings refuse, with the exception
    of the bindings; no run ends with any other exception. *)
Theorem X16_outcomes_of_a_run check get_model to_smt2 duration text :
  ((exists out,
       solve_and_display check get_model to_smt2 duration text = Ok out) <->
   exists pz, parse_puzzle text = Ok pz /\ 1 <= pz.(nrows) /\
              bounds_ok pz.(row_targets) = true /\
              bounds_ok pz.(col_targets) = true) /\
  (forall e,
     solve_and_display check get_model to_smt2 duration text = Raise e <->
     parse_puzzle text = Raise e \/
     (e = Z3Exception /\
      exists pz, parse_puzzle text = Ok pz /\
                 (pz.(nrows) = 0 \/ bounds_ok pz.(row_targets) = false \/
                  bounds_ok pz.(col_targets) = false))).
Proof.
  destruct (parse_puzzle text) as [pz|e0] eqn:Hp.
  - pose proof (parsed_rows_nonneg _ Hp) as Hnn.
    rewrite (solve_and_display_cases check get_model to_smt2 duration _ Hp).
    destruct (Z.leb_spec 1 pz.(nrows)) as [Hrows|Hz],
      (bounds_ok pz.(row_targets)) eqn:Hbr,
      (bounds_ok pz.(col_targets)) eqn:Hbc; cbn [andb]; cbv zeta.
    1:{ split.
        - split; [intros _; exists pz; auto | eauto].
        - intros e; split; [discriminate|].
          intros [E|(_ & pz' & E & H)]; [discriminate|].
          inversion E; subst pz'.
          destruct H as [H|[H|H]]; [lia | congruence | congruence]. }
    all: split;
      [ split; [intros (out & E); discriminate|];
        intros (pz' & E & H0 & H1 & H2); inversion E; subst pz';
        first [lia | congruence]
      | intros e; split;
        [ intros E; inversion E; right; split; [reflexivity|];
          exists pz; split; [reflexivity|];
          first [ left; lia | right; left; assumption
                | right; right; assumption ]
        | intros [E|(-> & _)]; [discriminate | reflexivity] ] ].
  - assert (E : solve_and_display check get_model to_smt2 duration text
                = Raise e0) by (unfold solve_and_display; now rewrite Hp).
    rewrite E; split.
    + split; [intros (out & H); discriminate|].
      intros (pz & H & _); discriminate.
    + intros e; split.
      * intros H; inversion H; subst; auto.
      * intros [H|[_ (pz & H & _)]]; [now inversion H | discriminate].
Qed.

(* ===================================================================== *)
(** ** The size of the encoding                                            *)
(* ===================================================================== *)

Lemma total_app l1 l2 : total (l1 ++ l2) = total l1 + total l2.
Proof. induction l1 as [|x l1 IH]; simpl; lia. Qed.

Lemma total_map_affine A (g : A -> Z) a b l :
  total (map (fun x => a * g x + b) l) = a * total (map g l) + b * len l.
Proof.
  induction l as [|x l IH]; [unfold len; simpl; lia|].
  rewrite len_cons; cbn [map total fold_right]; fold (total (map g l)).
  fold (total (map (fun x => a * g x + b) l)). rewrite IH; ring.
Qed.

Lemma len_app A (l1 l2 : list A) : len (l1 ++ l2) = len l1 + len l2.
Proof. unfold len; rewrite length_app; lia. Qed.

Lemma len_flat_map A B (f : A -> list B) l :
  len (flat_map f l) = total (map (fun x => len (f x)) l).
Proof.
  induction l as [|x l IH]; simpl; [reflexivity|].
  now rewrite len_app, IH.
Qed.

Lemma range_succ n : 0 <= n -> range (n + 1) = range n ++ [n].
Proof.
  intros H; unfold range.
  replace (Z.to_nat (n + 1)) with (S (Z.to_nat n)) by lia.
  rewrite seq_S, map_app; simpl; now rewrite Z2Nat.id.
Qed.

(** The subscripts below [n] that lie in [lo, hi). *)
Lemma count_range n : 0 <= n ->
  forall (c : Z -> bool) lo hi,
    0 <= lo <= hi -> hi <= n ->
    (forall i, 0 <= i < n -> c i = (lo <=? i) && (i <? hi)) ->
    len (filter c (range n)) = hi - lo.
Proof.
  intros Hn; pattern n; apply natlike_ind; [| |exact Hn]; clear n Hn.
  - intros c lo hi Hlo Hhi _; simpl; unfold len; simpl; lia.
  - intros n Hn IH c lo hi Hlo Hhi Hc.
    rewrite <- Z.add_1_r, range_succ, filter_app, len_app by assumption.
    assert (Hcn : c n = (lo <=? n) && (n <? hi)) by (apply Hc; lia).
    destruct (Z.ltb_spec n hi) as [Hlt|Hge].
    + (* hi = n + 1 *)
      destruct (Z.leb_spec lo n) as [Hle|Hgt].
      * rewrite (IH c lo n) by
          (try lia; intros i Hi; rewrite Hc by lia;
           destruct (Z.ltb_spec i hi), (Z.ltb_spec i n); try lia; reflexivity).
        simpl; rewrite Hcn; unfold len; simpl; lia.
      * rewrite (IH c n n) by
          (try lia; intros i Hi; rewrite Hc by lia;
           destruct (Z.leb_spec lo i), (Z.leb_spec n i), (Z.ltb_spec i n),
                    (Z.ltb_spec i hi); simpl; try lia; reflexivity).
        simpl; rewrite Hcn; unfold len; simpl; lia.
    + rewrite (IH c lo hi) by (try lia; intros i Hi; apply Hc; lia).
      simpl; rewrite Hcn, andb_false_r; unfold len; simpl; lia.
Qed.

Lemma total_span n : 1 <= n -> total (map (span n) (range n)) = 3 * n - 2.
Proof.
  intros Hn; unfold span.
  rewrite (total_map_add (fun i => (if 1 <=? i then 1 else 0) + 1)
                         (fun i => if i + 1 <? n then 1 else 0)).
  rewrite (total_map_add (fun i => if 1 <=? i then 1 else 0) (fun _ => 1)).
  rewrite !total_indicator.
  rewrite (@count_range n ltac:(lia) (Z.leb 1) 1 n);
    [|lia|lia|].
  2:{ intros i Hi; destruct (Z.ltb_spec i n); [|lia]. now rewrite andb_true_r. }
  rewrite (@count_range n ltac:(lia) (fun i => i + 1 <? n) 0 (n - 1));
    [|lia|lia|].
  2:{ intros i Hi; destruct (Z.leb_spec 0 i); [|lia]; simpl.
      destruct (Z.ltb_spec (i + 1) n), (Z.ltb_spec i (n - 1)); lia || reflexivity. }
  pose proof (total_map_affine (fun _ : Z => 0) 0 1 (range n)) as E.
  rewrite (map_ext (fun _ => 0 * 0 + 1) (fun _ => 1)) in E by reflexivity.
  rewrite E, len_range; lia.
Qed.

Lemma len_all_neighbors nrows ncols i j :
  inside nrows ncols (i, j) ->
  len (all_neighbors nrows ncols i j) = span nrows i * span ncols j - 1.
Proof.
  intros [Hi Hj]; simpl in Hi, Hj.
  unfold all_neighbors, in_grid, span; cbn [flat_map app Z.eqb andb].
  repeat match goal with
         | |- context [?a <=? ?b] =>
             destruct (Z.leb_spec a b); try (exfalso; lia)
         | |- context [?a <? ?b] =>
             destruct (Z.ltb_spec a b); try (exfalso; lia)
         end; reflexivity.
Qed.

Lemma len_adjacency_clauses nrows ncols :
  1 <= nrows -> 1 <= ncols ->
  len (adjacency_clauses nrows ncols)
  = 8 * nrows * ncols - 6 * nrows - 6 * ncols + 4.
Proof.
  intros Hr Hc; unfold adjacency_clauses; rewrite len_flat_map.
  rewrite (map_ext_in _ (fun i => (3 * ncols - 2) * span nrows i
                                  + (- ncols))).
  - rewrite total_map_affine, total_span, len_range by assumption.
    rewrite Z.max_r by lia; ring.
  - intros i Hi; apply in_range in Hi; rewrite len_flat_map.
    rewrite (map_ext_in _ (fun j => span nrows i * span ncols j + (- 1))).
    + rewrite total_map_affine, total_span, len_range by assumption.
      rewrite Z.max_r by lia; ring.
    + intros j Hj; apply in_range in Hj.
      rewrite len_map, len_all_neighbors by (split; assumption). ring.
Qed.

Lemma len_flat_map_const A B (f : A -> list B) k l :
  (forall x, In x l -> len (f x) = k) -> len (flat_map f l) = k * len l.
Proof.
  intros H; rewrite len_flat_map.
  rewrite (map_ext_in _ (fun _ => 0 * 0 + k))
    by (intros x Hx; rewrite (H x Hx); ring).
  rewrite (total_map_affine (fun _ : A => 0) 0 k l); ring.
Qed.

(** X17.  On a well-formed grid the solver [build_solver] returns holds
    9*rows*cols - 4*rows - 4*cols + 4 assertions plus two per tree (one
    per tree on the 1x1 grid, where the tree-to-tent assertion is
    skipped). *)
Theorem X17_number_of_assertions
    nrows ncols row_targets col_targets trees s p :
  well_formed nrows ncols row_targets col_targets trees ->
  build_solver nrows ncols row_targets col_targets trees = Ok (s, p) ->
  len s = 9 * nrows * ncols - 4 * nrows - 4 * ncols + 4
          + len trees
          + (if (nrows =? 1) && (ncols =? 1) then 0 else len trees).
Proof.
  intros Hwf Hrun.
  destruct (build_solver_well_formed_inv Hwf Hrun) as (_ & _ & -> & _).
  pose proof (well_formed_trees_inside Hwf) as Hin.
  destruct Hwf as (Hr & Hc & _ & _ & _).
  unfold encoding; rewrite !len_app.
  unfold exclusion_clauses; rewrite len_map.
  unfold row_clauses, col_clauses, pairing_clauses.
  rewrite (@len_flat_map_const _ _ _ 2 (range nrows)) by reflexivity.
  rewrite (@len_flat_map_const _ _ _ 2 (range ncols)) by reflexivity.
  rewrite (@len_flat_map_const _ _ _ ncols (range nrows)).
  2:{ intros i _.
      rewrite (@len_flat_map_const _ _ _ 1 (range ncols)) by reflexivity.
      rewrite len_range; lia. }
  rewrite len_adjacency_clauses, !len_range, !Z.max_r by lia.
  assert (Et : len (tree_tent_clauses nrows ncols trees)
               = if (nrows =? 1) && (ncols =? 1) then 0 else len trees).
  { unfold tree_tent_clauses.
    destruct ((nrows =? 1) && (ncols =? 1)) eqn:E.
    - apply andb_true_iff in E as [E1 E2].
      apply Z.eqb_eq in E1, E2; subst.
      rewrite (@len_flat_map_const _ _ _ 0 trees); [lia|].
      intros t Ht; rewrite Forall_forall in Hin; specialize (Hin t Ht).
      destruct Hin as [Hi Hj]; unfold cell_of in *; simpl in Hi, Hj.
      replace (fst t - 1) with 0 by lia; replace (snd t - 1) with 0 by lia.
      reflexivity.
    - rewrite (@len_flat_map_const _ _ _ 1 trees); [lia|].
      intros t Ht; rewrite Forall_forall in Hin; specialize (Hin t Ht).
      destruct (orth_neighbors nrows ncols (fst t - 1) (snd t - 1)) eqn:En;
        [|reflexivity].
      apply orth_neighbors_nil_1x1 in En; [|exact Hin].
      destruct En as [-> ->]; discriminate. }
  rewrite Et; ring.
Qed.

Lemma X17_witness :
  exists s p,
    build_solver 2 2 demo_rows demo_cols demo_trees = Ok (s, p) /\
    len s = 26.
Proof.
  eexists; eexists; split; [exact build_demo|].
  exact (X17_number_of_assertions demo_well_formed build_demo).
Defined.
